(** * Verification of the [new] scaffolding CLI

    A shallow embedding of [src/scaffold.ts] (the scaffold orchestrator) and
    of the CLI entry point (argument parsing, target selection, [run]),
    together with the properties the specification states about them.

    - Strings.  JavaScript strings are sequences of UTF-16 code units; they
      are modelled as [list N], and the literals of the program are written
      [units "..."].  The built-in methods the program calls ([trim],
      [startsWith], [replaceAll] with its substitution patterns, ...) are
      defined on code units.  [toLowerCase] depends on the Unicode tables of
      the platform: it is a parameter, and the properties that need it
      assume what they use of it.
    - Paths.  [node:path] is modelled for POSIX paths.
    - Effects.  Asynchronous functions are state-passing functions with
      errors, over a world made of a file-system tree and the list of the
      events of the run.  Spawned processes are functions of the
      environment: they return an exit code and may change the file system.
    - The first part holds the program, the second part the properties. *)

From Stdlib Require Import List NArith ZArith Bool Lia String Ascii.
From Stdlib Require Import DecimalString.
Import ListNotations.

Set Implicit Arguments.
Local Open Scope N_scope.

(* ================================================================== *)
(** * JavaScript strings *)
(* ================================================================== *)

Module JsString.

Definition jsstring := list N.

(** The code units of an ASCII literal. *)
Definition units (s : string) : jsstring :=
  map N_of_ascii (list_ascii_of_string s).

Definition eqb (a b : jsstring) : bool :=
  if list_eq_dec N.eq_dec a b then true else false.

Definition isEmpty (s : jsstring) : bool :=
  match s with [] => true | _ :: _ => false end.

(** ECMAScript [WhiteSpace] and [LineTerminator] code points, the set
    removed by [String.prototype.trim]. *)
Definition isWhiteSpace (c : N) : bool :=
  ((9 <=? c) && (c <=? 13))
  || (c =? 32) || (c =? 160) || (c =? 5760)
  || ((8192 <=? c) && (c <=? 8202))
  || (c =? 8232) || (c =? 8233) || (c =? 8239) || (c =? 8287)
  || (c =? 12288) || (c =? 65279).

Fixpoint dropWhile (p : N -> bool) (s : jsstring) : jsstring :=
  match s with
  | [] => []
  | c :: t => if p c then dropWhile p t else s
  end.

Definition trimStart (s : jsstring) : jsstring := dropWhile isWhiteSpace s.
Definition trimEnd (s : jsstring) : jsstring :=
  rev (dropWhile isWhiteSpace (rev s)).

(** [s.trim()] *)
Definition trim (s : jsstring) : jsstring := trimEnd (trimStart s).

(** [s.startsWith(p)] *)
Fixpoint startsWith (s p : jsstring) {struct p} : bool :=
  match p, s with
  | [], _ => true
  | _ :: _, [] => false
  | x :: p', c :: s' => (c =? x) && startsWith s' p'
  end.

(** [s.endsWith(p)] *)
Definition endsWith (s p : jsstring) : bool := startsWith (rev s) (rev p).

(** [s.includes(p)] *)
Fixpoint includes (s p : jsstring) {struct s} : bool :=
  startsWith s p ||
  match s with
  | [] => false
  | _ :: t => includes t p
  end.

(** The lower-case mapping on the ASCII range: [A-Z] to [a-z]. *)
Definition asciiLower (c : N) : N :=
  if (65 <=? c) && (c <=? 90) then c + 32 else c.

Definition isAscii (c : N) : bool := c <? 128.

(** Decimal rendering of a number in a template literal. *)
Definition ofZ (z : Z) : jsstring :=
  units (NilZero.string_of_int (Z.to_int z)).

End JsString.
Import JsString.

(* ================================================================== *)
(** * normalizePackageName (scaffold.ts, lines 22-31) *)
(* ================================================================== *)

Definition HYPHEN : N := 45.
Definition isHyphen (c : N) : bool := c =? HYPHEN.

(** The character class [[a-z0-9-_]]. *)
Definition inPackageClass (c : N) : bool :=
  ((97 <=? c) && (c <=? 122)) || ((48 <=? c) && (c <=? 57))
  || (c =? 45) || (c =? 95).

(** [.replace(/[^a-z0-9-_]/g, "-")]: every code unit outside the class
    becomes one hyphen. *)
Definition replaceOutside (s : jsstring) : jsstring :=
  map (fun c => if inPackageClass c then c else HYPHEN) s.

(** [.replace(/-+/g, "-")]: every maximal run of hyphens becomes one
    hyphen (the one that ends the run is kept). *)
Fixpoint collapseHyphens (s : jsstring) : jsstring :=
  match s with
  | [] => []
  | c :: t =>
      if isHyphen c then
        match t with
        | d :: _ => if isHyphen d then collapseHyphens t
                    else c :: collapseHyphens t
        | [] => [c]
        end
      else c :: collapseHyphens t
  end.

Definition stripHead (s : jsstring) : jsstring :=
  match s with
  | c :: t => if isHyphen c then t else s
  | [] => []
  end.

Fixpoint stripLast (s : jsstring) : jsstring :=
  match s with
  | [] => []
  | [c] => if isHyphen c then [] else [c]
  | c :: t => c :: stripLast t
  end.

(** [.replace(/^-|-$/g, "")]: one hyphen at the start and one hyphen at
    the end are removed; the second match starts after the first. *)
Definition stripEnds (s : jsstring) : jsstring := stripLast (stripHead s).

Definition FALLBACK_NAME : jsstring := units "bun-app".

(** [x || "bun-app"]: the empty string is falsy. *)
Definition orFallback (s : jsstring) : jsstring :=
  if isEmpty s then FALLBACK_NAME else s.

Section Normalize.

(** [String.prototype.toLowerCase] is the Unicode default case conversion
    of the platform; its table is not part of the repository. *)
Variable toLowerCase : jsstring -> jsstring.

Definition normalizePackageName (projectName : jsstring) : jsstring :=
  orFallback
    (stripEnds
       (collapseHyphens
          (replaceOutside
             (toLowerCase (trim projectName))))).

(** The rule as the specification words it: lower-case the name, replace
    every run of characters outside the class with a single hyphen,
    collapse repeated hyphens, strip leading and trailing hyphens, fall
    back to the default name when nothing is left. *)
Fixpoint replaceRuns (s : jsstring) : jsstring :=
  match s with
  | [] => []
  | c :: t =>
      if inPackageClass c then c :: replaceRuns t
      else match t with
           | d :: _ => if inPackageClass d then HYPHEN :: replaceRuns t
                       else replaceRuns t
           | [] => [HYPHEN]
           end
  end.

Definition stripAllHyphens (s : jsstring) : jsstring :=
  rev (dropWhile isHyphen (rev (dropWhile isHyphen s))).

Definition normalizePackageName_spec (projectName : jsstring) : jsstring :=
  orFallback
    (stripAllHyphens
       (collapseHyphens
          (replaceRuns (toLowerCase projectName)))).

End Normalize.

(** The regular expression [^[a-z0-9-_]+$]. *)
Definition matchesPackagePattern (s : jsstring) : bool :=
  negb (isEmpty s) && forallb inPackageClass s.

(** A case mapping that covers the ASCII range only; it is the instance at
    which the model is run on ASCII inputs. *)
Definition asciiToLowerCase (s : jsstring) : jsstring := map asciiLower s.

(** The stages after lower-casing. *)
Definition afterLower (x : jsstring) : jsstring :=
  stripEnds (collapseHyphens (replaceOutside x)).

(** Shape predicates on the result of the pipeline. *)
Definition headHyphen (s : jsstring) : bool :=
  match s with c :: _ => isHyphen c | [] => false end.

Fixpoint noAdjacentHyphens (s : jsstring) : bool :=
  match s with
  | [] => true
  | c :: t => negb (isHyphen c && headHyphen t) && noAdjacentHyphens t
  end.

(* ================================================================== *)
(** * node:path (POSIX) *)
(* ================================================================== *)

Module Path.

Definition SLASH : N := 47.
Definition DOT : N := 46.
Definition isSlash (c : N) : bool := c =? SLASH.

(** [s.split("/")] *)
Fixpoint splitOn (sep : N) (s : jsstring) : list jsstring :=
  match s with
  | [] => [[]]
  | c :: t =>
      if c =? sep then [] :: splitOn sep t
      else match splitOn sep t with
           | seg :: rest => (c :: seg) :: rest
           | [] => [[c]]
           end
  end.

(** [segs.join("/")] *)
Fixpoint join (segs : list jsstring) : jsstring :=
  match segs with
  | [] => []
  | [s] => s
  | s :: rest => s ++ SLASH :: join rest
  end.

(** The non-empty components of a path. *)
Definition segments (p : jsstring) : list jsstring :=
  filter (fun s => negb (isEmpty s)) (splitOn SLASH p).

(** One step of [normalizeString] with [allowAboveRoot = false]; the stack
    holds the components kept so far, the most recent first. *)
Definition normalizeStep (stack : list jsstring) (seg : jsstring) : list jsstring :=
  if isEmpty seg || eqb seg [DOT] then stack
  else if eqb seg [DOT; DOT] then tl stack
  else seg :: stack.

Definition normalizeSegments (segs : list jsstring) : list jsstring :=
  rev (fold_left normalizeStep segs []).

Definition isAbsolute (p : jsstring) : bool :=
  match p with c :: _ => isSlash c | [] => false end.

(** The loop of [resolve]: arguments from the right, then the working
    directory, until an absolute path has been put together. *)
Fixpoint resolveLoop (rpaths : list jsstring) (cwd acc : jsstring) : jsstring :=
  match rpaths with
  | [] => cwd ++ SLASH :: acc
  | p :: rest =>
      if isEmpty p then resolveLoop rest cwd acc
      else if isAbsolute p then p ++ SLASH :: acc
      else resolveLoop rest cwd (p ++ SLASH :: acc)
  end.

(** [resolve(...paths)], with [process.cwd()] (an absolute path) made an
    argument. *)
Definition resolve (cwd : jsstring) (paths : list jsstring) : jsstring :=
  SLASH :: join (normalizeSegments (splitOn SLASH (resolveLoop (rev paths) cwd []))).

(** [basename(p)]: the last component, trailing separators ignored. *)
Definition basename (p : jsstring) : jsstring := last (segments p) [].

(** [dirname(p)] *)
Definition dirname (p : jsstring) : jsstring :=
  match p with
  | [] => [DOT]
  | c :: t =>
      let afterName :=
        dropWhile (fun x => negb (isSlash x)) (dropWhile isSlash (rev t)) in
      match afterName with
      | [] => if isSlash c then [SLASH] else [DOT]
      | _ :: before =>
          if isSlash c && isEmpty before then [SLASH; SLASH]
          else c :: rev before
      end
  end.

(** Position-independent search for the last dot of a component. *)
Fixpoint fromLastDot (s : jsstring) : option jsstring :=
  match s with
  | [] => None
  | c :: t =>
      match fromLastDot t with
      | Some e => Some e
      | None => if c =? DOT then Some s else None
      end
  end.

(** [extname(p)]: from the last dot of the last component to its end; empty
    when there is no dot, when the only dot starts the component, and for
    the component [".."]. *)
Definition extname (p : jsstring) : jsstring :=
  let b := basename p in
  match fromLastDot b with
  | None => []
  | Some e =>
      if (List.length e =? List.length b)%nat then []
      else if eqb b [DOT; DOT] then []
      else e
  end.

Fixpoint dropCommon (a b : list jsstring) : list jsstring * list jsstring :=
  match a, b with
  | x :: a', y :: b' => if eqb x y then dropCommon a' b' else (a, b)
  | _, _ => (a, b)
  end.

(** [relative(from, to)] *)
Definition relative (cwd from to : jsstring) : jsstring :=
  let '(up, down) :=
    dropCommon (segments (resolve cwd [from])) (segments (resolve cwd [to])) in
  join (map (fun _ => [DOT; DOT]) up ++ down).

End Path.
Import Path.

(* ================================================================== *)
(** * Errors and results *)
(* ================================================================== *)

(** A thrown JavaScript [Error]: its message and, for the errors of the
    file system, its [code] property. *)
Record JsError := mkError { message : jsstring; code : option jsstring }.

(** [new Error(msg)] *)
Definition Error (msg : jsstring) : JsError := mkError msg None.

(** The error of a failed file-system call. *)
Definition fsError (c : string) (path : jsstring) : JsError :=
  mkError (units c ++ units ": " ++ path) (Some (units c)).

Definition hasCode (e : JsError) (c : string) : bool :=
  match code e with
  | Some x => eqb x (units c)
  | None => false
  end.

Inductive result (A : Type) : Type :=
| Ok (a : A)
| Err (e : JsError).
Arguments Ok {A} a.
Arguments Err {A} e.

(* ================================================================== *)
(** * The file system *)
(* ================================================================== *)

(** A file-system tree.  Directory entries are kept in listing order. *)
#[warnings="-register-all"] Inductive node : Type :=
| File (content : jsstring)
| Dir (entries : list (jsstring * node)).

Module Fs.

Definition isDir (n : node) : bool :=
  match n with Dir _ => true | File _ => false end.

Fixpoint assoc (name : jsstring) (es : list (jsstring * node)) : option node :=
  match es with
  | [] => None
  | (k, v) :: rest => if eqb k name then Some v else assoc name rest
  end.

Definition removeEntry (name : jsstring) (es : list (jsstring * node))
  : list (jsstring * node) :=
  filter (fun e => negb (eqb (fst e) name)) es.

(** Replace the entry in place, or add it at the end of the listing. *)
Fixpoint setEntry (name : jsstring) (n : node) (es : list (jsstring * node))
  : list (jsstring * node) :=
  match es with
  | [] => [(name, n)]
  | (k, v) :: rest =>
      if eqb k name then (k, n) :: removeEntry name rest
      else (k, v) :: setEntry name n rest
  end.

Definition putEntry (name : jsstring) (slot : option node)
  (es : list (jsstring * node)) : list (jsstring * node) :=
  match slot with
  | Some n => setEntry name n es
  | None => removeEntry name es
  end.

(** What is found at a path, given by its components from the root. *)
Fixpoint lookupNode (path : jsstring) (segs : list jsstring) (n : node)
  : result node :=
  match segs with
  | [] => Ok n
  | s :: rest =>
      match n with
      | File _ => Err (fsError "ENOTDIR" path)
      | Dir es =>
          match assoc s es with
          | None => Err (fsError "ENOENT" path)
          | Some c => lookupNode path rest c
          end
      end
  end.

(** Change what is found at a path.  [f] maps the old content of the slot
    (nothing, a file or a directory) to the new one and may report an
    error; a change made before the error is kept. *)
Fixpoint alterAt (path : jsstring) (segs : list jsstring)
  (f : option node -> option node * option JsError) (slot : option node)
  : option node * option JsError :=
  match segs with
  | [] => f slot
  | s :: rest =>
      match slot with
      | None => (slot, Some (fsError "ENOENT" path))
      | Some (File _) => (slot, Some (fsError "ENOTDIR" path))
      | Some (Dir es) =>
          let '(slot', err) := alterAt path rest f (assoc s es) in
          (Some (Dir (putEntry s slot' es)), err)
      end
  end.

(** [mkdir(path, { recursive: true })] below a slot. *)
Fixpoint mkdirp (path : jsstring) (segs : list jsstring) (slot : option node)
  : option node * option JsError :=
  match slot with
  | Some (File _) =>
      (slot, Some (fsError (match segs with [] => "EEXIST" | _ => "ENOTDIR" end) path))
  | Some (Dir es) =>
      match segs with
      | [] => (slot, None)
      | s :: rest =>
          let '(slot', err) := mkdirp path rest (assoc s es) in
          (Some (Dir (putEntry s slot' es)), err)
      end
  | None =>
      match segs with
      | [] => (Some (Dir []), None)
      | s :: rest =>
          let '(slot', err) := mkdirp path rest None in
          (Some (Dir (putEntry s slot' [])), err)
      end
  end.

(** [cp(src, dst, { force: true, recursive: true })] on one node: files
    overwrite files, directories merge into directories, and a directory
    never replaces a file nor a file a directory. *)
Fixpoint copyNode (dst : jsstring) (src : node) (slot : option node)
  : option node * option JsError :=
  match src with
  | File c =>
      match slot with
      | Some (Dir _) => (slot, Some (fsError "ERR_FS_CP_NON_DIR_TO_DIR" dst))
      | _ => (Some (File c), None)
      end
  | Dir es =>
      let copyEntries :=
        fix copyEntries (es : list (jsstring * node))
                        (ds : list (jsstring * node))
          : option node * option JsError :=
          match es with
          | [] => (Some (Dir ds), None)
          | (name, child) :: rest =>
              let '(slot', err) := copyNode dst child (assoc name ds) in
              let ds' := putEntry name slot' ds in
              match err with
              | Some e => (Some (Dir ds'), Some e)
              | None => copyEntries rest ds'
              end
          end in
      match slot with
      | Some (File _) => (slot, Some (fsError "ERR_FS_CP_DIR_TO_NON_DIR" dst))
      | Some (Dir ds) => copyEntries es ds
      | None => copyEntries es []
      end
  end.

End Fs.

(* ================================================================== *)
(** * The world of one run and the monad of the program *)
(* ================================================================== *)

(** What a run does to its surroundings, the most recent event first.
    A change of the file system is recorded when it has succeeded; a
    spawned process and a call of the install callback are recorded when
    they have settled, with their outcome. *)
Inductive event : Type :=
| EvMkdir (path : jsstring)
| EvMkdtemp (path : jsstring)
| EvRm (path : jsstring)
| EvCp (src dst : jsstring)
| EvWrite (path content : jsstring)
| EvSpawn (cmd : list jsstring) (cwd : option jsstring)
    (outcome : result (Z * jsstring))
| EvRunInstall (targetDir : jsstring) (outcome : result Z)
| EvConsoleLog (text : jsstring)
| EvConsoleError (text : jsstring)
| EvUi (text : jsstring).

Record World := mkWorld { fs : node; events : list event }.

(** What the program reads from its surroundings and cannot decide: the
    working directory, the suffix [mkdtemp] picks, the behaviour of spawned
    processes (exit code and standard error, a changed file system, or a
    failure to spawn), the terminal and the answers typed into prompts.
    [isTTY] is the truthiness of [Bun.stdin.isTTY], all that [run] reads of
    it.  Bun defines no such property on [Bun.stdin]: the value is
    [undefined], which is the case [isTTY = false], so the released program
    asks no question and the two answers are never looked at.  The case
    [isTTY = true] is the program on a runtime that defines the property. *)
Record Env := mkEnv {
  cwd : jsstring;
  tmpSeed : list N;
  spawnProcess :
    list jsstring -> option jsstring -> node -> result (Z * jsstring) * node;
  isTTY : bool;
  textAnswer : option jsstring;
  confirmAnswer : option bool;
  packageVersion : option jsstring
}.

(** [mkdtemp] completes the prefix with characters of [[A-Za-z0-9]]. *)
Definition tmpAlphabet : jsstring :=
  units "ABCDEFGHIJKLMNOPQRSTUVWXYZabcdefghijklmnopqrstuvwxyz0123456789".

Definition tmpSuffix (seed : list N) : jsstring :=
  map (fun n => nth (N.to_nat (n mod 62)) tmpAlphabet 88) seed.

(** Asynchronous functions of the program: state passing with errors. *)
Definition M (A : Type) : Type := World -> result A * World.

Definition ret {A} (a : A) : M A := fun w => (Ok a, w).
Definition throw {A} (e : JsError) : M A := fun w => (Err e, w).
Definition bind {A B} (m : M A) (k : A -> M B) : M B :=
  fun w =>
    match m w with
    | (Ok a, w') => k a w'
    | (Err e, w') => (Err e, w')
    end.

Notation "x <- m ;; k" := (bind m (fun x => k))
  (at level 61, m at next level, right associativity).
Notation "m ;;; k" := (bind m (fun _ => k))
  (at level 61, right associativity).

(** [try { body } finally { cleanup }]: the cleanup runs after the body on
    every outcome; an error of the cleanup replaces the outcome. *)
Definition tryFinally {A} (body : M A) (cleanup : M unit) : M A :=
  fun w =>
    let '(r, w1) := body w in
    match cleanup w1 with
    | (Ok _, w2) => (r, w2)
    | (Err e, w2) => (Err e, w2)
    end.

(** [try { body } catch (error) { handler }] *)
Definition tryCatch {A} (body : M A) (handler : JsError -> M A) : M A :=
  fun w =>
    match body w with
    | (Ok a, w') => (Ok a, w')
    | (Err e, w') => handler e w'
    end.

Definition emit (e : event) : M unit :=
  fun w => (Ok tt, mkWorld (fs w) (e :: events w)).

(** A call whose outcome is recorded when it settles. *)
Definition observed {A} (ev : result A -> event) (m : M A) : M A :=
  fun w =>
    let '(r, w1) := m w in
    (r, mkWorld (fs w1) (ev r :: events w1)).

(** The entry of a [readdir(dir, { withFileTypes: true })] listing. *)
Record Dirent := mkDirent { name : jsstring; isDirectory : bool }.

Section Primitives.

Variable env : Env.

(** The components of a path as the operating system walks them. *)
Definition locate (p : jsstring) : list jsstring :=
  segments (resolve (cwd env) [p]).

(** A change of the tree at a path, with the event it leaves when it
    succeeds.  The root cannot be replaced by nothing. *)
Definition mutate (p : jsstring)
  (f : list jsstring -> option node -> option node * option JsError)
  (ev : event) : M unit :=
  fun w =>
    let '(slot, err) := f (locate p) (Some (fs w)) in
    let root := match slot with Some n => n | None => fs w end in
    match err with
    | Some e => (Err e, mkWorld root (events w))
    | None => (Ok tt, mkWorld root (ev :: events w))
    end.

(** [readdir(dir, { withFileTypes: true })] *)
Definition readdirTypes (dir : jsstring) : M (list Dirent) :=
  fun w =>
    match Fs.lookupNode dir (locate dir) (fs w) with
    | Ok (Dir es) =>
        (Ok (map (fun e => mkDirent (fst e) (Fs.isDir (snd e))) es), w)
    | Ok (File _) => (Err (fsError "ENOTDIR" dir), w)
    | Err e => (Err e, w)
    end.

(** [readdir(dir)] *)
Definition readdir (dir : jsstring) : M (list jsstring) :=
  entries <- readdirTypes dir ;; ret (map name entries).

(** [mkdir(dir, { recursive: true })] *)
Definition mkdir (dir : jsstring) : M unit :=
  mutate dir (Fs.mkdirp dir) (EvMkdir dir).

(** [mkdtemp(prefix)]: a new directory named by the prefix and a suffix of
    the system's choice. *)
Definition mkdtemp (prefix : jsstring) : M jsstring :=
  let dir := prefix ++ tmpSuffix (tmpSeed env) in
  mutate dir
    (fun segs =>
       Fs.alterAt dir segs
         (fun slot =>
            match slot with
            | None => (Some (Dir []), None)
            | Some _ => (slot, Some (fsError "EEXIST" dir))
            end))
    (EvMkdtemp dir) ;;;
  ret dir.

(** [rm(path, { force: true, recursive: true })]: whatever is at the path
    goes.  With [force], a path at which nothing is found (a component is
    missing or is not a directory) is not an error; the file system of the
    model has no permissions and no faults, so a removal always succeeds. *)
Definition rm (path : jsstring) : M unit :=
  mutate path
    (fun segs slot =>
       (fst (Fs.alterAt path segs (fun _ => (None, None)) slot), None))
    (EvRm path).

(** [cp(src, dst, { force: true, recursive: true })] *)
Definition cp (src dst : jsstring) : M unit :=
  fun w =>
    match Fs.lookupNode src (locate src) (fs w) with
    | Err e => (Err e, w)
    | Ok n =>
        mutate dst
          (fun segs => Fs.alterAt dst segs (Fs.copyNode dst n))
          (EvCp src dst) w
    end.

(** [Bun.file(path).text()] *)
Definition readText (path : jsstring) : M jsstring :=
  fun w =>
    match Fs.lookupNode path (locate path) (fs w) with
    | Ok (File c) => (Ok c, w)
    | Ok (Dir _) => (Err (fsError "EISDIR" path), w)
    | Err e => (Err e, w)
    end.

(** [Bun.write(path, text)] *)
Definition writeText (path text : jsstring) : M unit :=
  mutate path
    (fun segs =>
       Fs.alterAt path segs
         (fun slot =>
            match slot with
            | Some (Dir _) => (slot, Some (fsError "EISDIR" path))
            | _ => (Some (File text), None)
            end))
    (EvWrite path text).

(** [Bun.spawn({ cmd, cwd, ... })] awaited to its exit, with the text the
    process wrote to standard error. *)
Definition spawn (cmd : list jsstring) (dir : option jsstring)
  : M (Z * jsstring) :=
  fun w =>
    let '(r, fs') := spawnProcess env cmd dir (fs w) in
    (r, mkWorld fs' (EvSpawn cmd dir r :: events w)).

End Primitives.

(* ================================================================== *)
(** * String replacement *)
(* ================================================================== *)

Definition DOLLAR : N := 36.

(** [GetSubstitution] for a string pattern (no capture groups): in the
    replacement text [$$] stands for a dollar sign, [$&] for the matched
    text, [$`] for the text before the match and [$'] for the text after
    it; every other code unit stands for itself. *)
Fixpoint getSubstitution (matched before after template : jsstring) : jsstring :=
  match template with
  | [] => []
  | c :: rest =>
      if c =? DOLLAR then
        match rest with
        | d :: rest' =>
            if d =? DOLLAR then DOLLAR :: getSubstitution matched before after rest'
            else if d =? 38 then matched ++ getSubstitution matched before after rest'
            else if d =? 96 then before ++ getSubstitution matched before after rest'
            else if d =? 39 then after ++ getSubstitution matched before after rest'
            else c :: getSubstitution matched before after rest
        | [] => [c]
        end
      else c :: getSubstitution matched before after rest
  end.

(** The scan of [replaceAll]: [skip] counts the code units of the current
    match still to be passed over, [seen] holds the text before the
    position, the nearest code unit first. *)
Fixpoint replaceAllFrom (search replacement : jsstring)
  (s : jsstring) (skip : nat) (seen : jsstring) : jsstring :=
  match s with
  | [] =>
      if isEmpty search
      then getSubstitution search (rev seen) [] replacement
      else []
  | c :: t =>
      match skip with
      | S k => replaceAllFrom search replacement t k (c :: seen)
      | O =>
          if startsWith s search then
            getSubstitution search (rev seen) (skipn (List.length search) s)
              replacement
            ++ match List.length search with
               | O => c :: replaceAllFrom search replacement t 0 (c :: seen)
               | S k => replaceAllFrom search replacement t k (c :: seen)
               end
          else c :: replaceAllFrom search replacement t 0 (c :: seen)
      end
  end.

(** [s.replaceAll(search, replacement)] with a string pattern and a string
    replacement. *)
Definition replaceAll (s search replacement : jsstring) : jsstring :=
  replaceAllFrom search replacement s 0 [].

(* ================================================================== *)
(** * scaffold.ts *)
(* ================================================================== *)

(** The callback type [(targetDir: string) => Promise<number>]: it may
    change the file system, and resolves to an exit code or rejects. *)
Definition InstallRunner : Type := jsstring -> node -> result Z * node.

Record ScaffoldOptions := mkScaffoldOptions {
  force : option bool;
  install : option bool;
  projectName : jsstring;
  runInstall : option InstallRunner;
  templateRepo : option jsstring;
  targetDir : jsstring
}.

Record ScaffoldResult := mkScaffoldResult {
  createdFiles : list jsstring;
  installedDependencies : bool;
  resultProjectName : jsstring;
  resultTargetDir : jsstring
}.

Definition DEFAULT_TEMPLATE_REPO : jsstring :=
  units "https://github.com/rayhanadev/fresh".

Definition PROJECT_NAME_TOKEN : jsstring := units "__PROJECT_NAME__".
Definition PACKAGE_NAME_TOKEN : jsstring := units "__PACKAGE_NAME__".

Definition textExtensions : list jsstring :=
  map units [".json"; ".ts"; ".tsx"; ".js"; ".jsx"; ".md"; ".txt"; ".toml";
             ".yaml"; ".yml"]%string.

(** [textExtensions.has(ext)] *)
Definition hasExtension (ext : jsstring) : bool :=
  existsb (eqb ext) textExtensions.

(** [x ?? d] *)
Definition orDefault {A} (x : option A) (d : A) : A :=
  match x with Some a => a | None => d end.

(** The options of [runCommand]. *)
Record CommandOptions := mkCommandOptions {
  commandCwd : option jsstring;
  quiet : option bool
}.

(** The height of a tree: no chain of nested directories is longer. *)
Fixpoint height (n : node) : nat :=
  match n with
  | File _ => 0%nat
  | Dir es =>
      S ((fix heights (es : list (jsstring * node)) : nat :=
            match es with
            | [] => 0%nat
            | (_, child) :: rest => Nat.max (height child) (heights rest)
            end) es)
  end.

(** [Promise.all(tasks)] for tasks run one after the other: every task
    runs, and the first error is the one reported. *)
Fixpoint promiseAll (tasks : list (M unit)) : M unit :=
  match tasks with
  | [] => ret tt
  | task :: rest =>
      fun w =>
        match task w with
        | (Ok _, w1) => promiseAll rest w1
        | (Err e, w1) => (Err e, snd (promiseAll rest w1))
        end
  end.

Section Scaffold.

Variable toLowerCase : jsstring -> jsstring.
Variable env : Env.

(** Lines 33-44. *)
Definition isDirectoryEmpty (dir : jsstring) : M bool :=
  tryCatch
    (entries <- readdir env dir ;;
     ret (Nat.eqb (List.length entries) 0%nat))
    (fun error =>
       if hasCode error "ENOENT" then ret true else throw error).

(** Lines 59-81. *)
Definition runCommand (cmd : list jsstring) (options : option CommandOptions)
  : M (Z * jsstring) :=
  let quiet := orDefault (match options with Some o => quiet o | None => None end) false in
  proc <- spawn env cmd (match options with Some o => commandCwd o | None => None end) ;;
  let '(exitCode, stderr) := proc in
  if negb quiet then ret (exitCode, [])
  else ret (exitCode, trim stderr).

(** Lines 46-57. *)
Definition runBunInstall (targetDir : jsstring) : M Z :=
  r <- runCommand [units "bun"; units "install"]
         (Some (mkCommandOptions (Some targetDir) (Some true))) ;;
  let '(exitCode, stderr) := r in
  (if negb (exitCode =? 0)%Z && negb (isEmpty stderr)
   then emit (EvConsoleError stderr) else ret tt) ;;;
  ret exitCode.

(** Lines 83-93. *)
Definition cloneTemplateRepo (templateRepo stagingDir : jsstring) : M unit :=
  r <- runCommand
         [units "git"; units "clone"; units "--depth"; units "1";
          units "--quiet"; templateRepo; stagingDir]
         (Some (mkCommandOptions None (Some true))) ;;
  let '(exitCode, stderr) := r in
  if negb (exitCode =? 0)%Z then
    let suffix := if negb (isEmpty stderr) then units " " ++ stderr else [] in
    throw (Error (units "git clone failed with exit code " ++ ofZ exitCode
                  ++ units "." ++ suffix))
  else ret tt.

(** Lines 95-109.  The recursion follows the directories; [depth] bounds
    it and is taken from the height of the tree, so that the bound is not
    reached on a well-formed tree ([listFilesRecursively_total]). *)
Fixpoint listFilesRecursivelyAt (depth : nat) (dir : jsstring)
  : M (list jsstring) :=
  match depth with
  | O => throw (Error (units "Maximum call stack size exceeded"))
  | S d =>
      entries <- readdirTypes env dir ;;
      (fix each (entries : list Dirent) (files : list jsstring)
         : M (list jsstring) :=
         match entries with
         | [] => ret files
         | entry :: rest =>
             let fullPath := resolve (cwd env) [dir; name entry] in
             if isDirectory entry then
               sub <- listFilesRecursivelyAt d fullPath ;;
               each rest (files ++ sub)
             else each rest (files ++ [fullPath])
         end) entries []
  end.

Definition listFilesRecursively (dir : jsstring) : M (list jsstring) :=
  fun w => listFilesRecursivelyAt (S (height (fs w))) dir w.

(** Lines 127-142: the rewriting of one file. *)
Definition rewriteTokens (projectName packageName filePath : jsstring) : M unit :=
  let ext := extname filePath in
  if negb (hasExtension ext) && negb (endsWith filePath (units ".gitignore"))
  then ret tt
  else
    original <- readText env filePath ;;
    let next :=
      replaceAll (replaceAll original PROJECT_NAME_TOKEN projectName)
        PACKAGE_NAME_TOKEN packageName in
    if negb (eqb next original) then writeText env filePath next
    else ret tt.

(** Lines 111-144. *)
Definition applyTemplateTokens (filePaths : list jsstring)
  (projectName : jsstring) : M unit :=
  let packageName := normalizePackageName toLowerCase projectName in
  promiseAll (map (rewriteTokens projectName packageName) filePaths).

(** A supplied [runInstall] callback as an asynchronous function. *)
Definition callback (f : InstallRunner) (targetDir : jsstring) : M Z :=
  fun w =>
    let '(r, fs') := f targetDir (fs w) in
    (r, mkWorld fs' (events w)).

(** Lines 146-200. *)
Definition scaffoldProject (options : ScaffoldOptions) : M ScaffoldResult :=
  let targetDir := resolve (cwd env) [targetDir options] in
  let projectName := trim (projectName options) in
  let force := orDefault (force options) false in
  let install := orDefault (install options) true in
  let runInstall :=
    match runInstall options with
    | Some f => callback f
    | None => runBunInstall
    end in
  let templateRepo := orDefault (templateRepo options) DEFAULT_TEMPLATE_REPO in
  if (List.length projectName =? 0)%nat then
    throw (Error (units "Project name must not be empty."))
  else
    empty <- isDirectoryEmpty targetDir ;;
    if negb empty && negb force then
      throw (Error (units "Target directory is not empty: " ++ targetDir
                    ++ units ". Use --force to overwrite."))
    else
      mkdir env targetDir ;;;
      let stagingDirPrefix :=
        resolve (cwd env) [dirname targetDir; units ".new-template-"] in
      stagingDir <- mkdtemp env stagingDirPrefix ;;
      tryFinally
        (cloneTemplateRepo templateRepo stagingDir ;;;
         rm env (resolve (cwd env) [stagingDir; units ".git"]) ;;;
         templateFiles <- listFilesRecursively stagingDir ;;
         let createdFiles :=
           map (fun filePath =>
                  resolve (cwd env)
                    [targetDir; relative (cwd env) stagingDir filePath])
               templateFiles in
         cp env stagingDir targetDir ;;;
         applyTemplateTokens createdFiles projectName ;;;
         installedDependencies <-
           (if install then
              exitCode <- observed (EvRunInstall targetDir)
                            (runInstall targetDir) ;;
              if negb (exitCode =? 0)%Z then
                throw (Error (units "bun install failed with exit code "
                              ++ ofZ exitCode ++ units "."))
              else ret true
            else ret false) ;;
         ret (mkScaffoldResult createdFiles installedDependencies
                projectName targetDir))
        (rm env stagingDir).

End Scaffold.

(* ================================================================== *)
(** * The command line (the entry point of the CLI) *)
(* ================================================================== *)

Module Cli.

Record CliOptions := mkCliOptions {
  force : bool;
  help : bool;
  install : bool;
  pathArg : option jsstring;
  projectNameArg : option jsstring;
  version : bool
}.

Definition initialOptions : CliOptions :=
  mkCliOptions false false true None None false.

Definition setHelp (o : CliOptions) : CliOptions :=
  mkCliOptions (force o) true (install o) (pathArg o) (projectNameArg o) (version o).
Definition setVersion (o : CliOptions) : CliOptions :=
  mkCliOptions (force o) (help o) (install o) (pathArg o) (projectNameArg o) true.
Definition setForce (o : CliOptions) : CliOptions :=
  mkCliOptions true (help o) (install o) (pathArg o) (projectNameArg o) (version o).
Definition setNoInstall (o : CliOptions) : CliOptions :=
  mkCliOptions (force o) (help o) false (pathArg o) (projectNameArg o) (version o).
Definition setPathArg (v : jsstring) (o : CliOptions) : CliOptions :=
  mkCliOptions (force o) (help o) (install o) (Some v) (projectNameArg o) (version o).
Definition setProjectNameArg (v : jsstring) (o : CliOptions) : CliOptions :=
  mkCliOptions (force o) (help o) (install o) (pathArg o) (Some v) (version o).

(** [arg.slice(arg.indexOf("=") + 1)] for an [arg] that contains ["="]. *)
Definition afterEquals (arg : jsstring) : jsstring :=
  tl (dropWhile (fun c => negb (c =? 61)) arg).

Definition isBlank (s : jsstring) : bool := isEmpty (trim s).

(** The loop of [parseArgs] (lines 34-94), from position [i] on: [argv]
    holds [argv[i]], [argv[i + 1]], ... *)
Fixpoint parseLoop (argv : list jsstring) (options : CliOptions)
  : result CliOptions :=
  match argv with
  | [] => Ok options
  | arg :: rest =>
      if eqb arg (units "--help") || eqb arg (units "-h") then
        parseLoop rest (setHelp options)
      else if eqb arg (units "--version") || eqb arg (units "-v") then
        parseLoop rest (setVersion options)
      else if eqb arg (units "--force") || eqb arg (units "-f") then
        parseLoop rest (setForce options)
      else if eqb arg (units "--no-install") then
        parseLoop rest (setNoInstall options)
      else if eqb arg (units "--path") || eqb arg (units "-p") then
        match rest with
        | [] => Err (Error (units "Missing value for " ++ arg ++ units "."))
        | next :: rest' =>
            if startsWith next (units "-") then
              Err (Error (units "Missing value for " ++ arg ++ units "."))
            else if isBlank next then
              Err (Error (units "Path must not be empty."))
            else
              match pathArg options with
              | Some _ => Err (Error (units "Path can only be provided once."))
              | None => parseLoop rest' (setPathArg next options)
              end
        end
      else if startsWith arg (units "--path=") || startsWith arg (units "-p=") then
        let value := afterEquals arg in
        if isBlank value then
          Err (Error (units "Path must not be empty."))
        else
          match pathArg options with
          | Some _ => Err (Error (units "Path can only be provided once."))
          | None => parseLoop rest (setPathArg value options)
          end
      else if startsWith arg (units "-") then
        Err (Error (units "Unknown option: " ++ arg))
      else
        match projectNameArg options with
        | Some _ => Err (Error (units "Only one project name can be provided."))
        | None => parseLoop rest (setProjectNameArg arg options)
        end
  end.

(** Lines 24-101. *)
Definition parseArgs (argv : list jsstring) : result CliOptions :=
  match parseLoop argv initialOptions with
  | Err e => Err e
  | Ok options =>
      match projectNameArg options, pathArg options with
      | Some _, Some _ =>
          Err (Error (units "Use either a project name argument or --path, not both."))
      | _, _ => Ok options
      end
  end.

Definition helpText : jsstring :=
  units "new - scaffold a new Bun project

Usage:
  new [project-name] [options]
  new --path <path> [options]

Options:
  -f, --force       overwrite non-empty target directory
  -p, --path        target directory path
      --no-install  skip bun install after scaffold
  -h, --help        show help
  -v, --version     show version".

(** How a run of the command ends when no error is thrown. *)
Inductive ending : Type :=
| Returned
| Exited (exitCode : Z).

(** The outcome of a step that may end the process. *)
Inductive step (A : Type) : Type :=
| Continue (a : A)
| Exit (exitCode : Z).
Arguments Continue {A} a.
Arguments Exit {A} exitCode.

Section Run.

Variable toLowerCase : jsstring -> jsstring.
Variable env : Env.

(** Lines 120-123. *)
Definition exitCancelled {A} : M (step A) :=
  emit (EvUi (units "Operation cancelled.")) ;;;
  ret (Exit 0%Z).

(** Lines 141-178: the target directory and the project name.  The text
    prompt accepts only an answer that passes its validation; any other
    ends with the user cancelling. *)
Definition selectTarget (options : CliOptions)
  : M (step (jsstring * jsstring)) :=
  let cwd := cwd env in
  match pathArg options with
  | Some pathArg =>
      let targetDir := resolve cwd [cwd; pathArg] in
      ret (Continue (targetDir, basename targetDir))
  | None =>
      match projectNameArg options with
      | Some projectNameArg =>
          let targetDir := resolve cwd [cwd; projectNameArg] in
          ret (Continue (targetDir, basename targetDir))
      | None =>
          empty <- isDirectoryEmpty env cwd ;;
          if negb empty then
            if negb (isTTY env) then
              throw (Error (units "Current directory is not empty. Use `new <project-name>` or `new --path <path>`."))
            else
              emit (EvUi (units "Project name")) ;;;
              match textAnswer env with
              | None => exitCancelled
              | Some answer =>
                  if isBlank answer then exitCancelled
                  else
                    let targetDir := resolve cwd [cwd; trim answer] in
                    ret (Continue (targetDir, basename targetDir))
              end
          else ret (Continue (cwd, basename cwd))
      end
  end.

(** Lines 184-203: the overwrite question; the result is the force flag. *)
Definition confirmOverwrite (options : CliOptions) (targetDir : jsstring)
  : M (step bool) :=
  empty <- isDirectoryEmpty env targetDir ;;
  if negb empty && negb (force options) then
    if negb (isTTY env) then
      throw (Error (units "Target directory is not empty: " ++ targetDir
                    ++ units ". Use --force to overwrite."))
    else
      emit (EvUi (units "Target directory is not empty: " ++ targetDir
                  ++ units ". Overwrite scaffold files?")) ;;;
      match confirmAnswer env with
      | None => exitCancelled
      | Some false =>
          throw (Error (units "Aborted because target directory is not empty."))
      | Some true => ret (Continue true)
      end
  else ret (Continue (force options)).

(** Lines 205-222: the scaffold itself and what is reported of it. *)
Definition scaffoldAndReport (options : CliOptions) (force : bool)
  (targetDir projectName : jsstring) : M ending :=
  emit (EvUi (units "Scaffolding Bun project")) ;;;
  result <- scaffoldProject toLowerCase env
              (mkScaffoldOptions (Some force) (Some (install options))
                 projectName None None targetDir) ;;
  emit (EvUi (units "Scaffold complete")) ;;;
  emit (EvUi (units "Created Bun project in " ++ resultTargetDir result)) ;;;
  emit (EvUi (if installedDependencies result
              then units "Installed dependencies with bun install"
              else units "Skipped dependency install (--no-install)")) ;;;
  emit (EvUi (units "Next step: bun run src/index.ts")) ;;;
  ret Returned.

(** Lines 180-222: what [run] does once the target directory and the
    project name are known. *)
Definition scaffoldInto (options : CliOptions)
  (targetDir projectName : jsstring) : M ending :=
  if isBlank projectName then
    throw (Error (units "Project name is required."))
  else
    confirmed <- confirmOverwrite options targetDir ;;
    match confirmed with
    | Exit c => ret (Exited c)
    | Continue force => scaffoldAndReport options force targetDir projectName
    end.

(** Lines 125-223. *)
Definition run (argv : list jsstring) : M ending :=
  match parseArgs argv with
  | Err e => throw e
  | Ok options =>
      if help options then
        emit (EvConsoleLog helpText) ;;; ret Returned
      else if version options then
        emit (EvConsoleLog (orDefault (packageVersion env) (units "0.0.0"))) ;;;
        ret Returned
      else
        emit (EvUi (units "new")) ;;;
        selected <- selectTarget options ;;
        match selected with
        | Exit c => ret (Exited c)
        | Continue (targetDir, projectName) =>
            scaffoldInto options targetDir projectName
        end
  end.

(** Lines 225-229: the process and its exit code. *)
Definition main (argv : list jsstring) (w : World) : Z * World :=
  match run argv w with
  | (Ok Returned, w') => (0%Z, w')
  | (Ok (Exited c), w') => (c, w')
  | (Err error, w') =>
      (1%Z, mkWorld (fs w')
              (EvConsoleError (units "Error: " ++ message error) :: events w'))
  end.

End Run.

End Cli.

(* ================================================================== *)
(** * Notions used to state the properties *)
(* ================================================================== *)

(** Something is found at the path. *)
Definition pathExists (env : Env) (p : jsstring) (w : World) : bool :=
  match Fs.lookupNode p (locate env p) (fs w) with
  | Ok _ => true
  | Err _ => false
  end.

(** Every run of [m] only adds events, and only events accepted by [P]. *)
Definition emits {A} (P : event -> bool) (m : M A) : Prop :=
  forall w r w',
    m w = (r, w') ->
    exists new, events w' = new ++ events w /\ forallb P new = true.

(** The events of the staging steps (clone, removal of [.git], copy, token
    rewriting): removals, copies, writes, and the [git] process. *)
Definition stagingEvent (e : event) : bool :=
  match e with
  | EvRm _ | EvCp _ _ | EvWrite _ _ => true
  | EvSpawn (program :: _) None _ => eqb program (units "git")
  | _ => false
  end.

(** The events of the default install runner: the [bun install] process
    in the given directory and what it reports on the console. *)
Definition bunInstallEvent (dir : jsstring) (e : event) : bool :=
  match e with
  | EvConsoleError _ => true
  | EvSpawn cmd (Some d) _ =>
      eqb d dir
      && if list_eq_dec (list_eq_dec N.eq_dec) cmd [units "bun"; units "install"]
         then true else false
  | _ => false
  end.

(** The error of line 186. *)
Definition installFailure (exitCode : Z) : JsError :=
  Error (units "bun install failed with exit code " ++ ofZ exitCode ++ units ".").

(** The error of line 159. *)
Definition notEmptyFailure (targetDir : jsstring) : JsError :=
  Error (units "Target directory is not empty: " ++ targetDir
         ++ units ". Use --force to overwrite.").

(** How the steps after the creation of the staging directory went: what
    was returned or thrown, and the events from the install step on. *)
Inductive stagedPhase (o : ScaffoldOptions) (t : jsstring)
  (r : result ScaffoldResult) (late : list event) : Prop :=
| StagingFailed e :
    r = Err e -> late = [] -> stagedPhase o t r late
| InstallSkipped res :
    orDefault (install o) true = false ->
    r = Ok res -> installedDependencies res = false -> late = [] ->
    stagedPhase o t r late
| InstallRan out inner :
    orDefault (install o) true = true ->
    late = EvRunInstall t out :: inner ->
    forallb (bunInstallEvent t) inner = true ->
    (runInstall o = None ->
     exists so, In (EvSpawn [units "bun"; units "install"] (Some t) so) inner) ->
    (runInstall o <> None -> inner = []) ->
    match out with
    | Ok c =>
        if (c =? 0)%Z
        then exists res, r = Ok res /\ installedDependencies res = true
        else r = Err (installFailure c)
    | Err e => r = Err e
    end ->
    stagedPhase o t r late.

(** The shapes of a run of [scaffoldProject] from [w] to [w']. *)
Inductive scaffoldRun (env : Env) (o : ScaffoldOptions) (w : World)
  (r : result ScaffoldResult) (w' : World) : Prop :=
| RunRefused e :
    r = Err e -> w' = w -> scaffoldRun env o w r w'
| RunWithoutTarget e :
    r = Err e -> events w' = events w -> scaffoldRun env o w r w'
| RunWithoutStaging e :
    r = Err e ->
    events w' = EvMkdir (resolve (cwd env) [targetDir o]) :: events w ->
    scaffoldRun env o w r w'
| RunStaged s staged late :
    events w' =
      EvRm s :: late ++ staged
      ++ EvMkdtemp s :: EvMkdir (resolve (cwd env) [targetDir o]) :: events w ->
    forallb stagingEvent staged = true ->
    pathExists env s w' = false ->
    stagedPhase o (resolve (cwd env) [targetDir o]) r late ->
    scaffoldRun env o w r w'.

(** The command line as the specification reads it: the number of
    positional arguments and the number of path options (long or short
    form, space- or equals-delimited) of an argument list.  A path flag
    takes the argument that follows it. *)
Fixpoint suppliedArguments (argv : list jsstring) : nat * nat :=
  match argv with
  | [] => (0, 0)%nat
  | arg :: rest =>
      if eqb arg (units "--path") || eqb arg (units "-p") then
        match rest with
        | [] => (0, 1)%nat
        | _ :: rest' =>
            (fst (suppliedArguments rest'), S (snd (suppliedArguments rest')))
        end
      else if startsWith arg (units "--path=") || startsWith arg (units "-p=") then
        (fst (suppliedArguments rest), S (snd (suppliedArguments rest)))
      else if startsWith arg (units "-") then suppliedArguments rest
      else (S (fst (suppliedArguments rest)), snd (suppliedArguments rest))
  end.

(** What an accepted scan did to the two slots, against the count of
    positional arguments and path options it went through. *)
Definition scanned (argv : list jsstring) (st st' : Cli.CliOptions) : Prop :=
  let k := fst (suppliedArguments argv) in
  let p := snd (suppliedArguments argv) in
  (k = 0%nat -> Cli.projectNameArg st' = Cli.projectNameArg st)
  /\ (k <> 0%nat ->
      k = 1%nat /\ Cli.projectNameArg st = None
      /\ Cli.projectNameArg st' <> None)
  /\ (p = 0%nat -> Cli.pathArg st' = Cli.pathArg st)
  /\ (p <> 0%nat ->
      p = 1%nat /\ Cli.pathArg st = None /\ Cli.pathArg st' <> None).

(** A path component that names an entry: not empty, without separator,
    and neither [.] nor [..]. *)
Definition slashFree (s : jsstring) : bool :=
  forallb (fun c => negb (isSlash c)) s.

Definition plainName (n : jsstring) : bool :=
  negb (isEmpty n) && slashFree n
  && negb (eqb n [DOT]) && negb (eqb n [DOT; DOT]).

(** A component as [resolve] leaves it. *)
Definition cleanSegment (s : jsstring) : Prop :=
  s <> [] /\ slashFree s = true.

(** Literal replacement of every occurrence of [search], from the left
    and without overlap, as the specification words the substitution. *)
Fixpoint replaceLiteralFrom (search replacement : jsstring)
  (s : jsstring) (skip : nat) : jsstring :=
  match s with
  | [] => if isEmpty search then replacement else []
  | c :: t =>
      match skip with
      | S k => replaceLiteralFrom search replacement t k
      | O =>
          if startsWith s search then
            replacement
            ++ match List.length search with
               | O => c :: replaceLiteralFrom search replacement t 0
               | S k => replaceLiteralFrom search replacement t k
               end
          else c :: replaceLiteralFrom search replacement t 0
      end
  end.

Definition replaceLiteral (s search replacement : jsstring) : jsstring :=
  replaceLiteralFrom search replacement s 0.

Definition dollarFree (s : jsstring) : bool :=
  forallb (fun c => negb (c =? DOLLAR)) s.

(** A file-system tree as an operating system keeps it: in every
    directory the names are distinct and name an entry. *)
#[warnings="-register-all"] Inductive wellFormed : node -> Prop :=
| wellFormed_file c : wellFormed (File c)
| wellFormed_dir es :
    NoDup (map fst es) ->
    (forall name child,
       In (name, child) es -> plainName name = true /\ wellFormed child) ->
    wellFormed (Dir es).

(* ================================================================== *)
(** * Notions used to state the further properties *)
(* ================================================================== *)

(** The word characters of a package name: [[a-z0-9_]]. *)
Definition isWordUnit (c : N) : bool := inPackageClass c && negb (isHyphen c).

(** The forms of an option that [parseArgs] knows (lines 37-79). *)
Definition isHelpFlag (arg : jsstring) : bool :=
  eqb arg (units "--help") || eqb arg (units "-h").
Definition isVersionFlag (arg : jsstring) : bool :=
  eqb arg (units "--version") || eqb arg (units "-v").
Definition isForceFlag (arg : jsstring) : bool :=
  eqb arg (units "--force") || eqb arg (units "-f").
Definition isNoInstallFlag (arg : jsstring) : bool :=
  eqb arg (units "--no-install").
Definition isPathFlag (arg : jsstring) : bool :=
  eqb arg (units "--path") || eqb arg (units "-p").
Definition isPathAssignment (arg : jsstring) : bool :=
  startsWith arg (units "--path=") || startsWith arg (units "-p=").

(** What a switch does to the options. *)
Definition switchOf (arg : jsstring)
  : option (Cli.CliOptions -> Cli.CliOptions) :=
  if isHelpFlag arg then Some Cli.setHelp
  else if isVersionFlag arg then Some Cli.setVersion
  else if isForceFlag arg then Some Cli.setForce
  else if isNoInstallFlag arg then Some Cli.setNoInstall
  else None.

Definition recognizedOption (arg : jsstring) : bool :=
  isHelpFlag arg || isVersionFlag arg || isForceFlag arg
  || isNoInstallFlag arg || isPathFlag arg || isPathAssignment arg.

(** [v] is given as a path on the command line: it follows a path flag,
    or it is what follows the first [=] of a path assignment. *)
Definition pathValueIn (v : jsstring) (argv : list jsstring) : Prop :=
  (exists pre flag post,
     argv = (pre ++ flag :: v :: post)%list /\ isPathFlag flag = true)
  \/ (exists a,
        In a argv /\ isPathAssignment a = true /\ Cli.afterEquals a = v).

(** What the terminal interface shows, and the two questions among it
    (lines 157 and 190). *)
Definition uiEvent (e : event) : bool :=
  match e with EvUi _ => true | _ => false end.

Definition promptEvent (e : event) : bool :=
  match e with
  | EvUi text =>
      eqb text (units "Project name")
      || (startsWith text (units "Target directory is not empty: ")
          && endsWith text (units ". Overwrite scaffold files?"))
  | _ => false
  end.

(** A step of [run] that may ask [question]: the file system is left as
    it is, and the step either asks nothing, or asks on a terminal and
    goes on, or asks on a terminal and is cancelled. *)
Definition promptStep (env : Env) {A} (question : jsstring) (w : World)
  (r : result (Cli.step A)) (w' : World) : Prop :=
  fs w' = fs w
  /\ ((events w' = events w /\ forall c, r <> Ok (Cli.Exit c))
      \/ (isTTY env = true /\ events w' = EvUi question :: events w
          /\ forall c, r <> Ok (Cli.Exit c))
      \/ (isTTY env = true
          /\ events w' = EvUi (units "Operation cancelled.")
                          :: EvUi question :: events w
          /\ r = Ok (Cli.Exit 0%Z))).

(** The command of line 85, and the error of lines 89-90 for the exit
    code and the captured error output of [git]. *)
Definition cloneCommand (templateRepo stagingDir : jsstring) : list jsstring :=
  [units "git"; units "clone"; units "--depth"; units "1"; units "--quiet";
   templateRepo; stagingDir].

Definition cloneFailure (exitCode : Z) (stderr : jsstring) : JsError :=
  Error (units "git clone failed with exit code " ++ ofZ exitCode ++ units "."
         ++ (if isEmpty (trim stderr) then [] else units " " ++ trim stderr)).

(** What a run may record once the template is cloned: removals, the
    copy, writes, the call of the install runner, and the events of
    [bun install] in the target directory. *)
Definition afterCloneEvent (targetDir : jsstring) (e : event) : bool :=
  match e with
  | EvRm _ | EvCp _ _ | EvWrite _ _ | EvRunInstall _ _ => true
  | _ => bunInstallEvent targetDir e
  end.

(** The absolute paths of the files of a tree whose root is found at the
    components [at]: the files of a directory are those of its entries,
    in the order of the listing. *)
Fixpoint treeFiles (at_ : list jsstring) (n : node) : list jsstring :=
  match n with
  | File _ => [SLASH :: join at_]
  | Dir es =>
      (fix entries (es : list (jsstring * node)) : list jsstring :=
         match es with
         | [] => []
         | (name, child) :: rest =>
             (treeFiles (at_ ++ [name]) child ++ entries rest)%list
         end) es
  end.

(** A write of the token rewriting: to one of the listed paths, and to a
    file with a text extension or a path that ends in [.gitignore]. *)
Definition tokenWrite (filePaths : list jsstring) (e : event) : bool :=
  match e with
  | EvWrite path _ =>
      existsb (eqb path) filePaths
      && (hasExtension (extname path) || endsWith path (units ".gitignore"))
  | _ => false
  end.

(** The events of an installation: a call of the install runner, or a
    [bun] process. *)
Definition installEvent (e : event) : bool :=
  match e with
  | EvRunInstall _ _ => true
  | EvSpawn (program :: _) _ _ => eqb program (units "bun")
  | _ => false
  end.

(** What a run may record before the install step: the directories it
    makes, removals, the copy, writes, and the [git] process, started
    without a working directory. *)
Definition beforeInstallEvent (e : event) : bool :=
  match e with
  | EvMkdir _ | EvMkdtemp _ | EvRm _ | EvCp _ _ | EvWrite _ _ => true
  | EvSpawn (program :: _) None _ => eqb program (units "git")
  | _ => false
  end.

(** The install runner of a run: the supplied function, or [bun install]. *)
Definition installRunner (env : Env) (o : ScaffoldOptions)
  : jsstring -> M Z :=
  match runInstall o with
  | Some f => callback f
  | None => runBunInstall env
  end.

(* ================================================================== *)
(** * A concrete world *)
(* ================================================================== *)

(** A small template repository, a [git] that clones it, a [bun] whose
    install fails when the project has a file named [broken], and a file
    system with an empty directory, a missing one and a populated one.
    The properties below are run on it. *)
Module Demo.

Definition template : node :=
  Dir [(units ".git", Dir [(units "HEAD", File (units "ref: refs/heads/main"))]);
       (units "package.json",
        File (units "{ name: __PACKAGE_NAME__, title: __PROJECT_NAME__ }"));
       (units ".gitignore", File (units "node_modules"));
       (units "logo.png", File (units "__PROJECT_NAME__"));
       (units "src", Dir [(units "index.ts", File (units "// __PROJECT_NAME__"))])].

Definition processes (cmd : list jsstring) (dir : option jsstring) (f : node)
  : result (Z * jsstring) * node :=
  match cmd with
  | [_; _; _; _; _; _; staging] =>
      match Fs.alterAt staging (segments staging)
              (fun _ => (Some template, None)) (Some f) with
      | (Some f', None) => (Ok (0%Z, []), f')
      | _ => (Ok (128%Z, units "fatal: could not create work tree"), f)
      end
  | _ =>
      match dir with
      | Some d =>
          match Fs.lookupNode d (segments d ++ [units "broken"]) f with
          | Ok _ => (Ok (1%Z, units "error: install failed"), f)
          | Err _ => (Ok (0%Z, []), f)
          end
      | None => (Ok (0%Z, []), f)
      end
  end.

Definition env : Env :=
  mkEnv (units "/work") [7; 30; 55; 12; 3; 41] processes false None None None.

Definition world : World :=
  mkWorld
    (Dir [(units "work",
           Dir [(units "empty", Dir []);
                (units "full", Dir [(units "notes.txt", File (units "keep"))]);
                (units "file", File (units "plain"));
                (units "bad", Dir [(units "broken", File [])])])])
    [].

Definition options (name dir : string) (force install : option bool)
  : ScaffoldOptions :=
  mkScaffoldOptions force install (units name) None None (units dir).

(** The staging directory of a run in [/work]. *)
Definition staging : jsstring := units "/work/.new-template-He3MDp".

(** A run into the empty directory without install, and a forced run into
    the directory where [bun install] fails. *)
Definition skippedInstall : result ScaffoldResult * World :=
  scaffoldProject asciiToLowerCase env
    (options "My App!" "empty" None (Some false)) world.

Definition failingInstall : result ScaffoldResult * World :=
  scaffoldProject asciiToLowerCase env
    (options "My App!" "bad" (Some true) None) world.

(** A scaffolded project before the tokens are rewritten. *)
Definition copied : World :=
  mkWorld
    (Dir [(units "work",
           Dir [(units "app",
                 Dir [(units "README.md", File (units "# __PROJECT_NAME__"));
                      (units "logo.png", File (units "__PROJECT_NAME__"))])])])
    [].

End Demo.

(** A machine without network: [git] fails, whatever it is asked. *)
Module Offline.

Definition processes (cmd : list jsstring) (dir : option jsstring) (f : node)
  : result (Z * jsstring) * node :=
  (Ok (128%Z, units "fatal: unable to access the repository
"), f).

Definition env : Env :=
  mkEnv (units "/work") [7; 30; 55; 12; 3; 41] processes false None None None.

End Offline.

(* ================================================================== *)
(** * Properties *)
(* ================================================================== *)

(** ** Strings *)

Lemma startsWith_app (p t : jsstring) : startsWith (p ++ t) p = true.
Proof.
  induction p as [|x p IH]; simpl; [reflexivity|].
  now rewrite N.eqb_refl, IH.
Qed.

Lemma includes_startsWith (s p : jsstring) :
  startsWith s p = true -> includes s p = true.
Proof.
  intros H. destruct s; simpl; rewrite H; reflexivity.
Qed.

Lemma includes_app (a p b : jsstring) : includes (a ++ p ++ b) p = true.
Proof.
  induction a as [|c a IH]; simpl.
  - apply includes_startsWith, startsWith_app.
  - rewrite IH. apply orb_true_r.
Qed.

(** ** normalizePackageName *)

Lemma inPackageClass_not_ws c : inPackageClass c = true -> isWhiteSpace c = false.
Proof.
  unfold inPackageClass, isWhiteSpace. intros H.
  repeat rewrite orb_true_iff in H. repeat rewrite andb_true_iff in H.
  repeat rewrite N.leb_le in H. repeat rewrite N.eqb_eq in H.
  repeat rewrite orb_false_iff. repeat rewrite andb_false_iff.
  repeat rewrite N.leb_gt. repeat rewrite N.eqb_neq. lia.
Qed.

Lemma inPackageClass_lower c : inPackageClass c = true -> asciiLower c = c.
Proof.
  unfold inPackageClass, asciiLower. intros H.
  destruct ((65 <=? c) && (c <=? 90)) eqn:E; [|reflexivity].
  repeat rewrite orb_true_iff in H. repeat rewrite andb_true_iff in *.
  repeat rewrite N.leb_le in *. repeat rewrite N.eqb_eq in H. lia.
Qed.

Lemma inPackageClass_ascii c : inPackageClass c = true -> isAscii c = true.
Proof.
  unfold inPackageClass, isAscii. intros H.
  repeat rewrite orb_true_iff in H. repeat rewrite andb_true_iff in *.
  repeat rewrite N.leb_le in *. repeat rewrite N.eqb_eq in H.
  apply N.ltb_lt. lia.
Qed.

Lemma replaceOutside_class s : forallb inPackageClass (replaceOutside s) = true.
Proof.
  induction s as [|c s IH]; simpl; [reflexivity|].
  rewrite IH. destruct (inPackageClass c) eqn:E; [now rewrite E|reflexivity].
Qed.

Lemma collapseHyphens_class s :
  forallb inPackageClass s = true -> forallb inPackageClass (collapseHyphens s) = true.
Proof.
  induction s as [|c s IH]; [reflexivity|].
  intros H. simpl in H. apply andb_true_iff in H as [Hc Hs].
  specialize (IH Hs). cbn [collapseHyphens].
  destruct (isHyphen c).
  - destruct s as [|d s']; [simpl; now rewrite Hc|].
    destruct (isHyphen d); [exact IH|].
    cbn [forallb]. now rewrite Hc, IH.
  - cbn [forallb]. now rewrite Hc, IH.
Qed.

Lemma stripLast_class s :
  forallb inPackageClass s = true -> forallb inPackageClass (stripLast s) = true.
Proof.
  induction s as [|c s IH]; [reflexivity|].
  intros H. simpl in H. apply andb_true_iff in H as [Hc Hs].
  destruct s as [|d s'].
  - simpl. destruct (isHyphen c); simpl; [reflexivity|now rewrite Hc].
  - change (stripLast (c :: d :: s')) with (c :: stripLast (d :: s')).
    cbn [forallb]. rewrite Hc. now apply IH.
Qed.

Lemma stripEnds_class s :
  forallb inPackageClass s = true -> forallb inPackageClass (stripEnds s) = true.
Proof.
  intros H. unfold stripEnds. apply stripLast_class.
  destruct s as [|c s]; [reflexivity|]. simpl.
  destruct (isHyphen c); [|exact H].
  simpl in H. now apply andb_true_iff in H as [_ H].
Qed.

Lemma collapse_cons_hy c y :
  isHyphen c = true ->
  collapseHyphens (c :: y) =
  if headHyphen y then collapseHyphens y else c :: collapseHyphens y.
Proof.
  intros H. cbn [collapseHyphens]. rewrite H.
  destruct y as [|d y]; reflexivity.
Qed.

Lemma collapse_cons_other c y :
  isHyphen c = false -> collapseHyphens (c :: y) = c :: collapseHyphens y.
Proof. intros H. cbn [collapseHyphens]. now rewrite H. Qed.

Lemma headHyphen_collapse y : headHyphen (collapseHyphens y) = headHyphen y.
Proof.
  induction y as [|c y IH]; [reflexivity|].
  destruct (isHyphen c) eqn:E.
  - rewrite collapse_cons_hy by assumption.
    destruct (headHyphen y) eqn:Hy; simpl; rewrite E; [|reflexivity].
    now rewrite IH.
  - rewrite collapse_cons_other by assumption. reflexivity.
Qed.

Lemma noAdjacent_collapse y : noAdjacentHyphens (collapseHyphens y) = true.
Proof.
  induction y as [|c y IH]; [reflexivity|].
  destruct (isHyphen c) eqn:E.
  - rewrite collapse_cons_hy by assumption.
    destruct (headHyphen y) eqn:Hy; [exact IH|].
    cbn [noAdjacentHyphens]. rewrite headHyphen_collapse, Hy, IH, E. reflexivity.
  - rewrite collapse_cons_other by assumption.
    cbn [noAdjacentHyphens]. rewrite E, IH. reflexivity.
Qed.

Lemma collapse_fixed s : noAdjacentHyphens s = true -> collapseHyphens s = s.
Proof.
  induction s as [|c s IH]; [reflexivity|].
  cbn [noAdjacentHyphens]. intros H. apply andb_true_iff in H as [H1 H2].
  destruct (isHyphen c) eqn:E.
  - rewrite collapse_cons_hy by assumption. simpl in H1.
    apply negb_true_iff in H1. rewrite H1. now rewrite IH.
  - rewrite collapse_cons_other by assumption. now rewrite IH.
Qed.

Lemma replaceOutside_fixed s :
  forallb inPackageClass s = true -> replaceOutside s = s.
Proof.
  induction s as [|c s IH]; [reflexivity|].
  simpl. intros H. apply andb_true_iff in H as [Hc Hs].
  now rewrite Hc, IH.
Qed.

Lemma dropWhile_ws_class s :
  forallb inPackageClass s = true -> dropWhile isWhiteSpace s = s.
Proof.
  destruct s as [|c s]; [reflexivity|].
  simpl. intros H. apply andb_true_iff in H as [Hc _].
  now rewrite (inPackageClass_not_ws _ Hc).
Qed.

Lemma forallb_rev (p : N -> bool) s : forallb p (rev s) = forallb p s.
Proof.
  induction s as [|c s IH]; [reflexivity|].
  simpl. rewrite forallb_app, IH. simpl. rewrite andb_true_r. apply andb_comm.
Qed.

Lemma trim_fixed s : forallb inPackageClass s = true -> trim s = s.
Proof.
  intros H. unfold trim, trimStart, trimEnd.
  rewrite (dropWhile_ws_class _ H).
  rewrite dropWhile_ws_class by now rewrite forallb_rev.
  apply rev_involutive.
Qed.

Lemma map_lower_fixed s :
  forallb inPackageClass s = true -> map asciiLower s = s.
Proof.
  induction s as [|c s IH]; [reflexivity|].
  simpl. intros H. apply andb_true_iff in H as [Hc Hs].
  now rewrite (inPackageClass_lower _ Hc), IH.
Qed.

Lemma class_ascii s :
  forallb inPackageClass s = true -> forallb isAscii s = true.
Proof.
  induction s as [|c s IH]; [reflexivity|].
  simpl. intros H. apply andb_true_iff in H as [Hc Hs].
  now rewrite (inPackageClass_ascii _ Hc), IH.
Qed.

Lemma stripHead_fixed s : headHyphen s = false -> stripHead s = s.
Proof. destruct s as [|c s]; [reflexivity|]. simpl. now intros ->. Qed.

Lemma stripLast_cons_other c z :
  isHyphen c = false -> stripLast (c :: z) = c :: stripLast z.
Proof. intros H. destruct z; simpl; [now rewrite H|reflexivity]. Qed.

Lemma stripLast_cons_cons c d z :
  stripLast (c :: d :: z) = c :: stripLast (d :: z).
Proof. reflexivity. Qed.

Lemma noAdjacent_tail c s :
  noAdjacentHyphens (c :: s) = true -> noAdjacentHyphens s = true.
Proof. cbn [noAdjacentHyphens]. intros H. now apply andb_true_iff in H. Qed.

Lemma stripLast_idem s :
  noAdjacentHyphens s = true -> stripLast (stripLast s) = stripLast s.
Proof.
  induction s as [|c s IH]; [reflexivity|].
  intros H. destruct s as [|d s'].
  - simpl. destruct (isHyphen c) eqn:E; simpl; [reflexivity|now rewrite E].
  - rewrite stripLast_cons_cons. specialize (IH (noAdjacent_tail _ _ H)).
    destruct (stripLast (d :: s')) as [|e r] eqn:Er.
    + (* d :: s' was a single hyphen *)
      destruct s' as [|f s'']; [|discriminate].
      simpl in Er. destruct (isHyphen d) eqn:Ed; [|discriminate].
      cbn [noAdjacentHyphens headHyphen] in H. rewrite Ed in H.
      destruct (isHyphen c) eqn:Ec; [discriminate|].
      simpl. now rewrite Ec.
    + rewrite stripLast_cons_cons. now rewrite IH.
Qed.

Lemma headHyphen_stripLast s :
  headHyphen s = false -> headHyphen (stripLast s) = false.
Proof.
  destruct s as [|c [|d s']]; simpl; try reflexivity.
  - intros H. rewrite H. simpl. exact H.
  - auto.
Qed.

Lemma noAdjacent_stripLast s :
  noAdjacentHyphens s = true -> noAdjacentHyphens (stripLast s) = true.
Proof.
  induction s as [|c s IH]; [reflexivity|].
  intros H. destruct s as [|d s'].
  - simpl. destruct (isHyphen c); [reflexivity|exact H].
  - rewrite stripLast_cons_cons.
    pose proof (noAdjacent_tail _ _ H) as Ht. specialize (IH Ht).
    cbn [noAdjacentHyphens]. rewrite IH, andb_true_r.
    cbn [noAdjacentHyphens] in H. apply andb_true_iff in H as [H1 _].
    apply negb_true_iff in H1. apply negb_true_iff.
    apply andb_false_iff in H1 as [H1|H1]; [now rewrite H1|].
    rewrite (headHyphen_stripLast _ H1). apply andb_false_r.
Qed.

(** What the pipeline leaves is a fixed point of every stage. *)
Lemma stripEnds_shape q :
  noAdjacentHyphens q = true ->
  noAdjacentHyphens (stripEnds q) = true
  /\ headHyphen (stripEnds q) = false
  /\ stripLast (stripEnds q) = stripEnds q.
Proof.
  intros H. unfold stripEnds.
  assert (Hr : noAdjacentHyphens (stripHead q) = true
               /\ headHyphen (stripHead q) = false).
  { destruct q as [|c q]; [split; reflexivity|]. simpl.
    destruct (isHyphen c) eqn:E.
    - split; [exact (noAdjacent_tail _ _ H)|].
      cbn [noAdjacentHyphens] in H. rewrite E in H. simpl in H.
      apply andb_true_iff in H as [H _]. now apply negb_true_iff in H.
    - split; [exact H|]. simpl. exact E. }
  destruct Hr as [Hn Hh]. repeat split.
  - now apply noAdjacent_stripLast.
  - now apply headHyphen_stripLast.
  - now apply stripLast_idem.
Qed.

(** *** The pipeline against the wording of the rule *)

Lemma headHyphen_replace t :
  headHyphen (replaceRuns t) = headHyphen (replaceOutside t).
Proof.
  induction t as [|d t IH]; [reflexivity|].
  cbn [replaceRuns replaceOutside map].
  destruct (inPackageClass d) eqn:Ed; [reflexivity|].
  destruct t as [|e t']; [reflexivity|].
  destruct (inPackageClass e) eqn:Ee; [reflexivity|].
  rewrite IH. cbn [replaceOutside map]. rewrite Ee. reflexivity.
Qed.

Lemma collapse_cons_congr c a b :
  headHyphen a = headHyphen b -> collapseHyphens a = collapseHyphens b ->
  collapseHyphens (c :: a) = collapseHyphens (c :: b).
Proof.
  intros Hh Hc. destruct (isHyphen c) eqn:E.
  - rewrite !collapse_cons_hy by assumption. now rewrite Hh, Hc.
  - rewrite !collapse_cons_other by assumption. now rewrite Hc.
Qed.

Lemma collapse_replaceRuns x :
  collapseHyphens (replaceRuns x) = collapseHyphens (replaceOutside x).
Proof.
  induction x as [|c t IH]; [reflexivity|].
  cbn [replaceRuns replaceOutside map].
  destruct (inPackageClass c) eqn:Ec.
  - apply collapse_cons_congr; [apply headHyphen_replace|exact IH].
  - destruct t as [|d t']; [reflexivity|].
    destruct (inPackageClass d) eqn:Ed.
    + apply collapse_cons_congr; [apply headHyphen_replace|exact IH].
    + rewrite IH. cbn [replaceOutside map]. rewrite Ed.
      rewrite (@collapse_cons_hy HYPHEN (HYPHEN :: _) eq_refl). reflexivity.
Qed.

Lemma dropWhile_hyphen_noAdjacent q :
  noAdjacentHyphens q = true -> dropWhile isHyphen q = stripHead q.
Proof.
  destruct q as [|c q]; [reflexivity|]. intros H. simpl.
  destruct (isHyphen c) eqn:E; [|reflexivity].
  cbn [noAdjacentHyphens] in H. rewrite E in H. simpl in H.
  apply andb_true_iff in H as [H _]. apply negb_true_iff in H.
  destruct q as [|d q]; [reflexivity|]. simpl in *. now rewrite H.
Qed.

Lemma stripLast_snoc b h :
  stripLast (b ++ [h]) = if isHyphen h then b else b ++ [h].
Proof.
  induction b as [|c b IH]; [simpl; destruct (isHyphen h); reflexivity|].
  destruct b as [|d b'].
  - simpl. destruct (isHyphen h); reflexivity.
  - change (stripLast ((c :: d :: b') ++ [h]))
      with (c :: stripLast ((d :: b') ++ [h])).
    rewrite IH. destruct (isHyphen h); reflexivity.
Qed.

Lemma headHyphen_app a b : a <> [] -> headHyphen (a ++ b) = headHyphen a.
Proof. destruct a; [congruence|reflexivity]. Qed.

Lemma noAdjacent_snoc_hyphen r c :
  noAdjacentHyphens (r ++ [c]) = true -> isHyphen c = true ->
  headHyphen (rev r) = false.
Proof.
  induction r as [|d r IH]; [reflexivity|].
  intros H Hc. simpl in H. apply andb_true_iff in H as [H1 H2].
  destruct r as [|e r'].
  - simpl in *. rewrite Hc, andb_true_r in H1. now apply negb_true_iff in H1.
  - specialize (IH H2 Hc). simpl rev in *. 
    rewrite headHyphen_app; [exact IH|].
    intros E. apply app_eq_nil in E as [_ E]. discriminate.
Qed.

Lemma stripAll_noAdjacent q :
  noAdjacentHyphens q = true -> stripAllHyphens q = stripEnds q.
Proof.
  intros H. unfold stripAllHyphens, stripEnds.
  rewrite (dropWhile_hyphen_noAdjacent _ H).
  assert (Hr : noAdjacentHyphens (stripHead q) = true).
  { destruct q as [|c q]; [reflexivity|]. simpl.
    destruct (isHyphen c); [exact (noAdjacent_tail _ _ H)|exact H]. }
  clear H. revert Hr. generalize (stripHead q) as r. clear q.
  intros r. destruct (rev r) as [|c l] eqn:E.
  - intros _. apply (f_equal (@rev N)) in E. rewrite rev_involutive in E.
    subst r. reflexivity.
  - apply (f_equal (@rev N)) in E. rewrite rev_involutive in E. simpl in E.
    subst r. intros H. rewrite stripLast_snoc. simpl.
    destruct (isHyphen c) eqn:Ec; [|reflexivity].
    pose proof (noAdjacent_snoc_hyphen _ _ H Ec) as Hh.
    rewrite rev_involutive in Hh.
    destruct l as [|d l]; [reflexivity|]. simpl in Hh. simpl dropWhile.
    rewrite Hh. reflexivity.
Qed.

Lemma ws_not_class w : isWhiteSpace w = true -> inPackageClass w = false.
Proof.
  intros H. destruct (inPackageClass w) eqn:E; [|reflexivity].
  apply inPackageClass_not_ws in E. congruence.
Qed.

Lemma collapse_snoc_hyphen y h :
  isHyphen h = true ->
  collapseHyphens (y ++ [h]) = stripLast (collapseHyphens y) ++ [h].
Proof.
  intros Hh. induction y as [|c y IH]; [simpl; now rewrite Hh|].
  change ((c :: y) ++ [h]) with (c :: (y ++ [h])).
  destruct (isHyphen c) eqn:Ec.
  - rewrite !collapse_cons_hy by assumption.
    destruct y as [|d y'].
    + simpl. rewrite Hh, Ec. reflexivity.
    + simpl headHyphen. destruct (isHyphen d) eqn:Ed; [exact IH|].
      rewrite IH. rewrite collapse_cons_other by assumption.
      reflexivity.
  - rewrite !collapse_cons_other by assumption.
    rewrite IH. now rewrite stripLast_cons_other.
Qed.

Lemma stripHead_stripLast q : stripHead (stripLast q) = stripLast (stripHead q).
Proof.
  destruct q as [|c [|d r]].
  - reflexivity.
  - simpl. destruct (isHyphen c) eqn:E; simpl; [reflexivity|now rewrite E].
  - rewrite stripLast_cons_cons. simpl. destruct (isHyphen c); reflexivity.
Qed.

Lemma stripEnds_snoc_hyphen q h :
  isHyphen h = true -> stripEnds (stripLast q ++ [h]) = stripEnds q.
Proof.
  intros Hh. unfold stripEnds at 2. rewrite <- stripHead_stripLast.
  unfold stripEnds. destruct (stripLast q) as [|c a].
  - simpl. now rewrite Hh.
  - simpl. destruct (isHyphen c).
    + rewrite stripLast_snoc. now rewrite Hh.
    + change (c :: a ++ [h])%list with ((c :: a) ++ [h])%list.
      rewrite stripLast_snoc. now rewrite Hh.
Qed.

Lemma afterLower_trimStart x : afterLower (trimStart x) = afterLower x.
Proof.
  unfold afterLower, trimStart.
  induction x as [|w x IH]; [reflexivity|].
  simpl dropWhile. destruct (isWhiteSpace w) eqn:Ew; [|reflexivity].
  rewrite IH. cbn [replaceOutside map]. rewrite (ws_not_class _ Ew).
  rewrite (@collapse_cons_hy HYPHEN _ eq_refl).
  destruct (headHyphen (map _ x)) eqn:Hh; [reflexivity|].
  unfold stripEnds. simpl stripHead.
  rewrite stripHead_fixed; [reflexivity|].
  rewrite headHyphen_collapse. exact Hh.
Qed.

Lemma afterLower_trimEnd y : afterLower (trimEnd y) = afterLower y.
Proof.
  unfold trimEnd. induction y as [|w y IH] using rev_ind; [reflexivity|].
  rewrite rev_app_distr. simpl rev. simpl app. simpl dropWhile.
  destruct (isWhiteSpace w) eqn:Ew.
  - rewrite IH. unfold afterLower, replaceOutside. rewrite map_app.
    simpl map. rewrite (ws_not_class _ Ew).
    rewrite collapse_snoc_hyphen by reflexivity.
    now rewrite stripEnds_snoc_hyphen.
  - change (w :: rev y) with (rev [w] ++ rev y)%list.
    rewrite <- rev_app_distr. now rewrite rev_involutive.
Qed.

Lemma afterLower_trim x : afterLower (trim x) = afterLower x.
Proof. unfold trim. now rewrite afterLower_trimEnd, afterLower_trimStart. Qed.

(** *** The ASCII case mapping commutes with [trim] *)

Lemma isWhiteSpace_printable c : 33 <= c -> c < 160 -> isWhiteSpace c = false.
Proof.
  intros H1 H2. unfold isWhiteSpace.
  repeat rewrite orb_false_iff. repeat rewrite andb_false_iff.
  repeat rewrite N.leb_gt. repeat rewrite N.eqb_neq. lia.
Qed.

Lemma isWhiteSpace_asciiLower c : isWhiteSpace (asciiLower c) = isWhiteSpace c.
Proof.
  unfold asciiLower. destruct ((65 <=? c) && (c <=? 90)) eqn:E; [|reflexivity].
  apply andb_true_iff in E as [E1 E2]. apply N.leb_le in E1, E2.
  rewrite !isWhiteSpace_printable by lia. reflexivity.
Qed.

Lemma dropWhile_ws_lower s :
  dropWhile isWhiteSpace (map asciiLower s) =
  map asciiLower (dropWhile isWhiteSpace s).
Proof.
  induction s as [|c s IH]; [reflexivity|].
  simpl. rewrite isWhiteSpace_asciiLower.
  destruct (isWhiteSpace c); [exact IH|reflexivity].
Qed.

Lemma asciiToLowerCase_trim s :
  asciiToLowerCase (trim s) = trim (asciiToLowerCase s).
Proof.
  unfold asciiToLowerCase, trim, trimEnd, trimStart.
  rewrite dropWhile_ws_lower, <- map_rev, dropWhile_ws_lower.
  now rewrite map_rev.
Qed.

Lemma asciiToLowerCase_ascii s :
  forallb isAscii s = true -> asciiToLowerCase s = map asciiLower s.
Proof. reflexivity. Qed.

Section NormalizeProperties.

Variable toLowerCase : jsstring -> jsstring.

(** On a string of ASCII code units the platform's case conversion maps
    each unit on its own. *)
Hypothesis toLowerCase_ascii :
  forall s, forallb isAscii s = true -> toLowerCase s = map asciiLower s.

(** White space has no case and never arises from a case conversion. *)
Hypothesis toLowerCase_trim :
  forall s, toLowerCase (trim s) = trim (toLowerCase s).

Lemma normalize_pattern s :
  matchesPackagePattern (normalizePackageName toLowerCase s) = true.
Proof.
  unfold normalizePackageName, orFallback.
  set (r := stripEnds _).
  assert (Hr : forallb inPackageClass r = true).
  { apply stripEnds_class, collapseHyphens_class, replaceOutside_class. }
  destruct r as [|c r]; [reflexivity|].
  unfold matchesPackagePattern. simpl isEmpty. exact Hr.
Qed.

Lemma normalize_refines_rule s :
  normalizePackageName toLowerCase s = normalizePackageName_spec toLowerCase s.
Proof.
  unfold normalizePackageName, normalizePackageName_spec. f_equal.
  rewrite toLowerCase_trim.
  change (stripEnds (collapseHyphens (replaceOutside (trim (toLowerCase s)))))
    with (afterLower (trim (toLowerCase s))).
  rewrite afterLower_trim. unfold afterLower.
  rewrite collapse_replaceRuns.
  symmetry. apply stripAll_noAdjacent, noAdjacent_collapse.
Qed.

Lemma normalize_fixed t :
  t <> [] ->
  forallb inPackageClass t = true ->
  noAdjacentHyphens t = true ->
  headHyphen t = false ->
  stripLast t = t ->
  normalizePackageName toLowerCase t = t.
Proof.
  intros Hne Hc Hn Hh Hl. unfold normalizePackageName.
  rewrite (trim_fixed _ Hc).
  rewrite (toLowerCase_ascii _ (class_ascii _ Hc)).
  rewrite (map_lower_fixed _ Hc), (replaceOutside_fixed _ Hc).
  rewrite (collapse_fixed _ Hn).
  unfold stripEnds. rewrite (stripHead_fixed _ Hh), Hl.
  destruct t; [congruence|reflexivity].
Qed.

Lemma normalize_shape s :
  let r := normalizePackageName toLowerCase s in
  r <> [] /\ forallb inPackageClass r = true /\ noAdjacentHyphens r = true
  /\ headHyphen r = false /\ stripLast r = r.
Proof.
  unfold normalizePackageName, orFallback.
  set (q := collapseHyphens _).
  assert (Hq : noAdjacentHyphens q = true) by apply noAdjacent_collapse.
  assert (Hc : forallb inPackageClass (stripEnds q) = true).
  { apply stripEnds_class, collapseHyphens_class, replaceOutside_class. }
  destruct (stripEnds_shape _ Hq) as (Hn & Hh & Hl).
  destruct (stripEnds q) as [|c r] eqn:E; simpl isEmpty; cbv iota.
  - repeat split; (reflexivity || discriminate).
  - repeat split; auto. discriminate.
Qed.

Lemma normalize_idempotent s :
  normalizePackageName toLowerCase (normalizePackageName toLowerCase s)
  = normalizePackageName toLowerCase s.
Proof.
  destruct (normalize_shape s) as (H1 & H2 & H3 & H4 & H5).
  now apply normalize_fixed.
Qed.

Lemma normalize_my_app :
  normalizePackageName toLowerCase (units "My App!") = units "my-app".
Proof.
  unfold normalizePackageName.
  change (trim (units "My App!")) with (units "My App!").
  rewrite toLowerCase_ascii by reflexivity. reflexivity.
Qed.

(** C4.  For every input string, [normalizePackageName] returns a string
    matching [^[a-z0-9-_]+$] or the fixed fallback name; the result is the
    one the rule describes (lower-case, every run of characters outside the
    class replaced with one hyphen, repeated hyphens collapsed, leading and
    trailing hyphens stripped, the default name when nothing is left); and
    [normalizePackageName("My App!")] is ["my-app"]. *)
Theorem normalizePackageName_rule :
  forall s,
    (matchesPackagePattern (normalizePackageName toLowerCase s) = true
     \/ normalizePackageName toLowerCase s = FALLBACK_NAME)
    /\ normalizePackageName toLowerCase s
       = normalizePackageName_spec toLowerCase s
    /\ normalizePackageName toLowerCase (units "My App!") = units "my-app".
Proof.
  intros s. split; [left; apply normalize_pattern|].
  split; [apply normalize_refines_rule|apply normalize_my_app].
Qed.

(** C5.  [normalizePackageName] is idempotent: normalising a normalised
    name returns it unchanged. *)
Theorem normalizePackageName_idempotent :
  forall s,
    normalizePackageName toLowerCase (normalizePackageName toLowerCase s)
    = normalizePackageName toLowerCase s.
Proof. exact normalize_idempotent. Qed.

End NormalizeProperties.

Lemma normalizePackageName_rule_witness :
  normalizePackageName asciiToLowerCase (units "  Hello,  World--x ")
  = units "hello-world-x"
  /\ normalizePackageName_spec asciiToLowerCase (units "  Hello,  World--x ")
     = units "hello-world-x".
Proof.
  pose proof (normalizePackageName_rule asciiToLowerCase
                asciiToLowerCase_ascii asciiToLowerCase_trim
                (units "  Hello,  World--x ")) as (_ & H & _).
  split; [reflexivity|]. rewrite <- H. reflexivity.
Defined.

Lemma normalizePackageName_idempotent_witness :
  normalizePackageName asciiToLowerCase
    (normalizePackageName asciiToLowerCase (units "My App!"))
  = units "my-app".
Proof.
  rewrite (normalizePackageName_idempotent asciiToLowerCase
             asciiToLowerCase_ascii (units "My App!")).
  reflexivity.
Defined.

(** ** The monad *)

Lemma bind_ok {A B} (m : M A) (k : A -> M B) w a w1 :
  m w = (Ok a, w1) -> bind m k w = k a w1.
Proof. unfold bind. now intros ->. Qed.

Lemma bind_err {A B} (m : M A) (k : A -> M B) w e w1 :
  m w = (Err e, w1) -> bind m k w = (Err e, w1).
Proof. unfold bind. now intros ->. Qed.

Lemma bind_inv {A B} (m : M A) (k : A -> M B) w r w' :
  bind m k w = (r, w') ->
  (exists a w1, m w = (Ok a, w1) /\ k a w1 = (r, w'))
  \/ (exists e, m w = (Err e, w') /\ r = Err e).
Proof.
  unfold bind. destruct (m w) as [[a|e] w1]; intros H.
  - left. now exists a, w1.
  - right. inversion H; subst. now exists e.
Qed.

(** ** isDirectoryEmpty *)

Section DirectoryProperties.

Variable env : Env.

Lemma readdir_lookup dir w :
  readdir env dir w =
  match Fs.lookupNode dir (locate env dir) (fs w) with
  | Ok (Dir es) => (Ok (map fst es), w)
  | Ok (File _) => (Err (fsError "ENOTDIR" dir), w)
  | Err e => (Err e, w)
  end.
Proof.
  unfold readdir, bind, readdirTypes.
  destruct (Fs.lookupNode dir (locate env dir) (fs w)) as [[c|es]|e];
    try reflexivity.
  unfold ret. now rewrite map_map.
Qed.

Lemma isDirectoryEmpty_lookup dir w :
  isDirectoryEmpty env dir w =
  match Fs.lookupNode dir (locate env dir) (fs w) with
  | Ok (Dir es) => (Ok (Nat.eqb (List.length es) 0%nat), w)
  | Ok (File _) => (Err (fsError "ENOTDIR" dir), w)
  | Err e => if hasCode e "ENOENT" then (Ok true, w) else (Err e, w)
  end.
Proof.
  unfold isDirectoryEmpty, tryCatch, bind. rewrite readdir_lookup.
  destruct (Fs.lookupNode dir (locate env dir) (fs w)) as [[c|es]|e].
  - reflexivity.
  - unfold ret. now rewrite length_map.
  - now destruct (hasCode e "ENOENT").
Qed.

Lemma isDirectoryEmpty_pure dir w r w' :
  isDirectoryEmpty env dir w = (r, w') -> w' = w.
Proof.
  rewrite isDirectoryEmpty_lookup.
  destruct (Fs.lookupNode dir (locate env dir) (fs w)) as [[c|es]|e];
    try destruct (hasCode e "ENOENT"); now inversion 1.
Qed.

(** C8.  [isDirectoryEmpty] returns [true] for a directory with no entries
    and for a path that does not exist ([ENOENT]); every other error of
    the file system is propagated; a directory with at least one entry
    yields [false]. *)
Theorem isDirectoryEmpty_cases dir w :
  (Fs.lookupNode dir (locate env dir) (fs w) = Ok (Dir []) ->
   isDirectoryEmpty env dir w = (Ok true, w))
  /\ (forall e,
        Fs.lookupNode dir (locate env dir) (fs w) = Err e ->
        hasCode e "ENOENT" = true ->
        isDirectoryEmpty env dir w = (Ok true, w))
  /\ (forall e w',
        readdir env dir w = (Err e, w') ->
        hasCode e "ENOENT" = false ->
        isDirectoryEmpty env dir w = (Err e, w'))
  /\ (forall x es,
        Fs.lookupNode dir (locate env dir) (fs w) = Ok (Dir (x :: es)) ->
        isDirectoryEmpty env dir w = (Ok false, w)).
Proof.
  repeat split.
  - intros H. now rewrite isDirectoryEmpty_lookup, H.
  - intros e H He. now rewrite isDirectoryEmpty_lookup, H, He.
  - intros e w' H He. unfold isDirectoryEmpty, tryCatch.
    rewrite (@bind_err _ _ _ _ _ _ _ H), He. reflexivity.
  - intros x es H. now rewrite isDirectoryEmpty_lookup, H.
Qed.

End DirectoryProperties.

Lemma isDirectoryEmpty_cases_witness :
  isDirectoryEmpty Demo.env (units "empty") Demo.world = (Ok true, Demo.world)
  /\ isDirectoryEmpty Demo.env (units "missing/deeper") Demo.world
     = (Ok true, Demo.world)
  /\ isDirectoryEmpty Demo.env (units "file") Demo.world
     = (Err (fsError "ENOTDIR" (units "file")), Demo.world)
  /\ isDirectoryEmpty Demo.env (units "/work/full") Demo.world
     = (Ok false, Demo.world).
Proof.
  split; [|split; [|split]].
  - apply (proj1 (isDirectoryEmpty_cases Demo.env (units "empty") Demo.world)).
    reflexivity.
  - apply (proj1 (proj2 (isDirectoryEmpty_cases Demo.env
                           (units "missing/deeper") Demo.world))
             (fsError "ENOENT" (units "missing/deeper")));
      reflexivity.
  - apply (proj1 (proj2 (proj2 (isDirectoryEmpty_cases Demo.env
                                  (units "file") Demo.world))));
      reflexivity.
  - apply (proj2 (proj2 (proj2 (isDirectoryEmpty_cases Demo.env
                                  (units "/work/full") Demo.world)))
             (units "notes.txt", File (units "keep")) []).
    reflexivity.
Defined.

(** ** Events of a run *)

Lemma eqb_refl (a : jsstring) : eqb a a = true.
Proof. unfold eqb. destruct (list_eq_dec N.eq_dec a a); congruence. Qed.

Lemma eqb_eq (a b : jsstring) : eqb a b = true <-> a = b.
Proof.
  unfold eqb. destruct (list_eq_dec N.eq_dec a b); split; congruence.
Qed.

Lemma eqb_neq (a b : jsstring) : eqb a b = false <-> a <> b.
Proof.
  unfold eqb. destruct (list_eq_dec N.eq_dec a b); split; congruence.
Qed.

Section Emits.

Variable P : event -> bool.

Lemma emits_ret {A} (a : A) : emits P (ret a).
Proof. intros w r w' H. inversion H; subst. now exists []. Qed.

Lemma emits_throw {A} e : emits P (@throw A e).
Proof. intros w r w' H. inversion H; subst. now exists []. Qed.

Lemma emits_bind {A B} (m : M A) (k : A -> M B) :
  emits P m -> (forall a, emits P (k a)) -> emits P (bind m k).
Proof.
  intros Hm Hk w r w' H. apply bind_inv in H as [(a & w1 & H1 & H2)|(e & H1 & _)].
  - destruct (Hm _ _ _ H1) as (n1 & E1 & F1).
    destruct (Hk a _ _ _ H2) as (n2 & E2 & F2).
    exists (n2 ++ n1)%list. rewrite E2, E1, app_assoc. split; [reflexivity|].
    now rewrite forallb_app, F2, F1.
  - exact (Hm _ _ _ H1).
Qed.

Lemma emits_cond {A} (b : bool) (m1 m2 : M A) :
  emits P m1 -> emits P m2 -> emits P (if b then m1 else m2).
Proof. now destruct b. Qed.

Lemma emits_promiseAll tasks :
  Forall (emits P) tasks -> emits P (promiseAll tasks).
Proof.
  induction 1 as [|task rest Ht _ IH]; [apply emits_ret|].
  intros w r w' H. cbn [promiseAll] in H.
  destruct (task w) as [[u|e] w1] eqn:E.
  - destruct (Ht _ _ _ E) as (n1 & E1 & F1).
    destruct (IH _ _ _ H) as (n2 & E2 & F2).
    exists (n2 ++ n1)%list. rewrite E2, E1, app_assoc. split; [reflexivity|].
    now rewrite forallb_app, F2, F1.
  - destruct (promiseAll rest w1) as [r2 w2] eqn:E2. inversion H; subst.
    destruct (Ht _ _ _ E) as (n1 & E1 & F1).
    destruct (IH _ _ _ E2) as (n2 & E3 & F2).
    exists (n2 ++ n1)%list. simpl. rewrite E3, E1, app_assoc.
    split; [reflexivity|]. now rewrite forallb_app, F2, F1.
Qed.

Variable env : Env.

Lemma mutate_inv p f ev w r w' :
  mutate env p f ev w = (r, w') ->
  (r = Ok tt /\ events w' = ev :: events w)
  \/ (exists e, r = Err e /\ events w' = events w).
Proof.
  unfold mutate. destruct (f (locate env p) (Some (fs w))) as [slot [e|]];
    intros H; inversion H; subst; simpl; eauto.
Qed.

Lemma emits_mutate p f ev : P ev = true -> emits P (mutate env p f ev).
Proof.
  intros He w r w' H. apply mutate_inv in H as [[_ E]|(e & _ & E)].
  - exists [ev]. simpl. now rewrite E, He.
  - now exists [].
Qed.

Lemma emits_readdirTypes dir : emits P (readdirTypes env dir).
Proof.
  intros w r w' H. unfold readdirTypes in H.
  destruct (Fs.lookupNode dir (locate env dir) (fs w)) as [[c|es]|e];
    inversion H; subst; now exists [].
Qed.

Lemma emits_readText path : emits P (readText env path).
Proof.
  intros w r w' H. unfold readText in H.
  destruct (Fs.lookupNode path (locate env path) (fs w)) as [[c|es]|e];
    inversion H; subst; now exists [].
Qed.

Lemma emits_spawn cmd dir :
  (forall out, P (EvSpawn cmd dir out) = true) -> emits P (spawn env cmd dir).
Proof.
  intros He w r w' H. unfold spawn in H.
  destruct (spawnProcess env cmd dir (fs w)) as [r1 fs1]. inversion H; subst.
  exists [EvSpawn cmd dir r]. simpl. now rewrite He.
Qed.

Lemma emits_runCommand cmd options :
  (forall out,
     P (EvSpawn cmd (match options with Some o => commandCwd o | None => None end)
          out) = true) ->
  emits P (runCommand env cmd options).
Proof.
  intros He. unfold runCommand. apply emits_bind; [now apply emits_spawn|].
  intros [c err]. apply emits_cond; apply emits_ret.
Qed.

Lemma emits_rm path : P (EvRm path) = true -> emits P (rm env path).
Proof. apply emits_mutate. Qed.

Lemma emits_cp src dst : P (EvCp src dst) = true -> emits P (cp env src dst).
Proof.
  intros He w r w' H. unfold cp in H.
  destruct (Fs.lookupNode src (locate env src) (fs w)) as [n|e].
  - eapply emits_mutate; [exact He|exact H].
  - inversion H; subst. now exists [].
Qed.

Lemma emits_writeText path text :
  P (EvWrite path text) = true -> emits P (writeText env path text).
Proof. apply emits_mutate. Qed.

Lemma emits_listFilesRecursivelyAt depth :
  forall dir, emits P (listFilesRecursivelyAt env depth dir).
Proof.
  induction depth as [|d IH]; intros dir; [apply emits_throw|].
  cbn [listFilesRecursivelyAt].
  apply emits_bind; [apply emits_readdirTypes|].
  intros entries.
  match goal with
  | |- emits P (?each entries []) =>
      assert (Hall : forall es files, emits P (each es files))
  end.
  { induction es as [|entry rest IHe]; intros files; [apply emits_ret|].
    destruct (isDirectory entry).
    - apply emits_bind; [apply IH|]. intros sub. apply IHe.
    - apply IHe. }
  apply Hall.
Qed.

Lemma emits_listFilesRecursively dir : emits P (listFilesRecursively env dir).
Proof.
  intros w r w' H. eapply emits_listFilesRecursivelyAt. exact H.
Qed.

End Emits.

(** ** Removal *)

Lemma assoc_setEntry name n es : Fs.assoc name (Fs.setEntry name n es) = Some n.
Proof.
  induction es as [|[k v] es IH]; simpl.
  - now rewrite eqb_refl.
  - destruct (eqb k name) eqn:E; simpl; now rewrite E.
Qed.

Lemma assoc_removeEntry name es : Fs.assoc name (Fs.removeEntry name es) = None.
Proof.
  induction es as [|[k v] es IH]; simpl; [reflexivity|].
  destruct (eqb k name) eqn:E; simpl; [exact IH|]. now rewrite E.
Qed.

Lemma assoc_putEntry name slot es :
  Fs.assoc name (Fs.putEntry name slot es) = slot.
Proof.
  destruct slot; simpl; [apply assoc_setEntry|apply assoc_removeEntry].
Qed.

Lemma alterAt_remove path segs slot :
  segs <> [] ->
  match fst (Fs.alterAt path segs (fun _ => (None, None)) slot) with
  | Some n =>
      match Fs.lookupNode path segs n with Ok _ => False | Err _ => True end
  | None => True
  end.
Proof.
  revert slot. induction segs as [|s rest IH]; [congruence|]. intros slot _.
  cbn [Fs.alterAt]. destruct slot as [[c|es]|]; simpl; auto.
  destruct (Fs.alterAt path rest (fun _ => (None, None)) (Fs.assoc s es))
    as [slot' err] eqn:E.
  simpl. rewrite assoc_putEntry.
  destruct rest as [|s2 rest2].
  - simpl in E. inversion E; subst. exact I.
  - specialize (IH (Fs.assoc s es)). rewrite E in IH. simpl in IH.
    destruct slot' as [n|]; [|exact I]. apply IH. discriminate.
Qed.

Section ScaffoldProperties.

Variable toLowerCase : jsstring -> jsstring.
Variable env : Env.

Lemma rm_removes p w :
  exists w',
    rm env p w = (Ok tt, w')
    /\ events w' = EvRm p :: events w
    /\ (locate env p <> [] -> pathExists env p w' = false).
Proof.
  unfold rm, mutate, pathExists.
  pose proof (@alterAt_remove p (locate env p) (Some (fs w))) as H.
  destruct (Fs.alterAt p (locate env p) (fun _ => (None, None)) (Some (fs w)))
    as [slot err] eqn:E.
  simpl in *. eexists. split; [reflexivity|]. split; [reflexivity|].
  intros Hne. specialize (H Hne). simpl.
  destruct slot as [n|].
  - destruct (Fs.lookupNode p (locate env p) n); [contradiction|reflexivity].
  - (* only the root can become nothing, and then the path is the root *)
    destruct (locate env p) as [|s rest]; [congruence|].
    simpl in E. destruct (fs w) as [c|es]; [discriminate|].
    destruct (Fs.alterAt p rest (fun _ => (None, None)) (Fs.assoc s es)).
    discriminate.
Qed.

Lemma mkdtemp_inv prefix w r w' :
  mkdtemp env prefix w = (r, w') ->
  (exists s, r = Ok s /\ events w' = EvMkdtemp s :: events w
             /\ locate env s <> [])
  \/ (exists e, r = Err e /\ events w' = events w).
Proof.
  unfold mkdtemp. set (dir := (prefix ++ tmpSuffix (tmpSeed env))%list).
  intros H. apply bind_inv in H as [(u & w1 & H1 & H2)|(e & H1 & ->)].
  - inversion H2; subst. left. exists dir. split; [reflexivity|].
    pose proof (mutate_inv _ _ _ _ _ H1) as [[_ E]|(e & He & _)];
      [|discriminate].
    split; [exact E|].
    intros Hloc. unfold mutate in H1. rewrite Hloc in H1. simpl in H1.
    discriminate.
  - right. exists e. split; [reflexivity|].
    pose proof (mutate_inv _ _ _ _ _ H1) as [[He _]|(e' & _ & E)];
      [discriminate|exact E].
Qed.

Lemma emits_cloneTemplateRepo repo s :
  emits stagingEvent (cloneTemplateRepo env repo s).
Proof.
  unfold cloneTemplateRepo. apply emits_bind.
  - apply emits_runCommand. intros out. reflexivity.
  - intros [c err]. apply emits_cond; [apply emits_throw|apply emits_ret].
Qed.

Lemma emits_rewriteTokens name pkg path :
  emits stagingEvent (rewriteTokens env name pkg path).
Proof.
  unfold rewriteTokens. apply emits_cond; [apply emits_ret|].
  apply emits_bind; [apply emits_readText|]. intros original.
  apply emits_cond; [now apply emits_writeText|apply emits_ret].
Qed.

Lemma emits_applyTemplateTokens paths name :
  emits stagingEvent (applyTemplateTokens toLowerCase env paths name).
Proof.
  unfold applyTemplateTokens. apply emits_promiseAll.
  apply Forall_forall. intros task Hin. apply in_map_iff in Hin as (p & <- & _).
  apply emits_rewriteTokens.
Qed.

Lemma runBunInstall_events t w out w1 :
  runBunInstall env t w = (out, w1) ->
  exists inner,
    events w1 = inner ++ events w
    /\ forallb (bunInstallEvent t) inner = true
    /\ exists so, In (EvSpawn [units "bun"; units "install"] (Some t) so) inner.
Proof.
  unfold runBunInstall, runCommand. cbn [orDefault quiet commandCwd negb].
  unfold bind at 1 2, spawn.
  destruct (spawnProcess env [units "bun"; units "install"] (Some t) (fs w))
    as [[[c err]|e] fs1]; cbn [ret].
  - destruct (negb (c =? 0)%Z && negb (isEmpty (trim err))); cbn [bind emit ret];
      intros H; inversion H; subst; cbn [events].
    + exists [EvConsoleError (trim err);
              EvSpawn [units "bun"; units "install"] (Some t) (Ok (c, err))].
      split; [reflexivity|]. split.
      * cbn. now rewrite eqb_refl.
      * eexists. right. left. reflexivity.
    + exists [EvSpawn [units "bun"; units "install"] (Some t) (Ok (c, err))].
      split; [reflexivity|]. split.
      * cbn. now rewrite eqb_refl.
      * eexists. left. reflexivity.
  - intros H; inversion H; subst; cbn [events].
    exists [EvSpawn [units "bun"; units "install"] (Some t) (Err e)].
    split; [reflexivity|]. split.
    + cbn. now rewrite eqb_refl.
    + eexists. left. reflexivity.
Qed.

(** One staging step in front of the rest of the [try] block. *)
Lemma staged_step {A} (m : M A) (k : A -> M ScaffoldResult) o t w r w' :
  emits stagingEvent m ->
  (forall a w1,
     k a w1 = (r, w') ->
     exists staged late,
       events w' = late ++ staged ++ events w1
       /\ forallb stagingEvent staged = true /\ stagedPhase o t r late) ->
  bind m k w = (r, w') ->
  exists staged late,
    events w' = late ++ staged ++ events w
    /\ forallb stagingEvent staged = true /\ stagedPhase o t r late.
Proof.
  intros Hm Hk H. apply bind_inv in H as [(a & w1 & H1 & H2)|(e & H1 & ->)].
  - destruct (Hm _ _ _ H1) as (n1 & E1 & F1).
    destruct (Hk _ _ H2) as (staged & late & E & F & Ph).
    exists (staged ++ n1)%list, late. rewrite E, E1, !app_assoc.
    split; [reflexivity|]. split; [|exact Ph].
    now rewrite forallb_app, F, F1.
  - destruct (Hm _ _ _ H1) as (n1 & E1 & F1).
    exists n1, []. split; [exact E1|]. split; [exact F1|].
    now apply StagingFailed with e.
Qed.

Lemma install_phase o t created name w r w' :
  bind
    (if orDefault (install o) true then
       exitCode <- observed (EvRunInstall t)
                     (match runInstall o with
                      | Some f => callback f
                      | None => runBunInstall env
                      end t) ;;
       if negb (exitCode =? 0)%Z then throw (installFailure exitCode)
       else ret true
     else ret false)
    (fun installed => ret (mkScaffoldResult created installed name t)) w
  = (r, w') ->
  exists late, events w' = late ++ events w /\ stagedPhase o t r late.
Proof.
  destruct (orDefault (install o) true) eqn:Ei.
  - unfold bind at 1 2, observed.
    destruct ((match runInstall o with
               | Some f => callback f
               | None => runBunInstall env
               end) t w) as [out w1] eqn:Erun.
    assert (Hinner : exists inner,
               events w1 = inner ++ events w
               /\ forallb (bunInstallEvent t) inner = true
               /\ (runInstall o = None ->
                   exists so,
                     In (EvSpawn [units "bun"; units "install"] (Some t) so) inner)
               /\ (runInstall o <> None -> inner = [])).
    { destruct (runInstall o) as [f|].
      - unfold callback in Erun. destruct (f t (fs w)) as [r1 fs1].
        inversion Erun; subst. exists []. repeat split; try reflexivity.
        discriminate.
      - destruct (runBunInstall_events _ _ Erun) as (inner & E & F & S).
        exists inner. repeat split; auto. congruence. }
    destruct Hinner as (inner & E & F & Hs & Hc).
    intros H. exists (EvRunInstall t out :: inner).
    assert (Ew : events w' = EvRunInstall t out :: events w1).
    { destruct out as [c|e]; [destruct (c =? 0)%Z|]; inversion H; reflexivity. }
    split; [now rewrite Ew, E|].
    apply InstallRan with out inner; auto.
    destruct out as [c|e].
    + destruct (c =? 0)%Z; cbn in H; inversion H; subst; eauto.
    + inversion H; reflexivity.
  - intros H. inversion H; subst. exists []. split; [reflexivity|].
    now apply InstallSkipped with (mkScaffoldResult created false name t).
Qed.

(** Every run of [scaffoldProject] has one of the four shapes. *)
Lemma scaffoldProject_run o w r w' :
  scaffoldProject toLowerCase env o w = (r, w') -> scaffoldRun env o w r w'.
Proof.
  unfold scaffoldProject.
  set (t := resolve (cwd env) [targetDir o]).
  destruct (List.length (trim (projectName o)) =? 0)%nat.
  { intros H. inversion H; subst. now apply RunRefused with
      (Error (units "Project name must not be empty.")). }
  intros H. apply bind_inv in H as [(empty & w1 & H1 & H)|(e & H1 & ->)].
  2:{ apply isDirectoryEmpty_pure in H1. now apply RunRefused with e. }
  apply isDirectoryEmpty_pure in H1. subst w1.
  destruct (negb empty && negb (orDefault (force o) false)).
  { inversion H; subst. now apply RunRefused with (notEmptyFailure t). }
  apply bind_inv in H as [(u & w2 & H2 & H)|(e & H2 & ->)].
  2:{ apply mutate_inv in H2 as [[? _]|(e' & _ & E)]; [discriminate|].
      now apply RunWithoutTarget with e. }
  apply mutate_inv in H2 as [[_ E2]|(e' & ? & _)]; [|discriminate].
  apply bind_inv in H as [(s & w3 & H3 & H)|(e & H3 & ->)].
  2:{ apply mkdtemp_inv in H3 as [(s & ? & _)|(e' & _ & E)]; [discriminate|].
      apply RunWithoutStaging with e; [reflexivity|]. now rewrite E, E2. }
  apply mkdtemp_inv in H3 as [(s' & Es & E3 & Hloc)|(e' & ? & _)];
    [|discriminate].
  inversion Es; subst s'. clear Es.
  unfold tryFinally in H.
  match type of H with
  | (let '(_, _) := ?body w3 in _) = _ =>
      destruct (body w3) as [rb w4] eqn:Hbody
  end.
  destruct (rm_removes s w4) as (w5 & Hrm & E5 & Habs).
  rewrite Hrm in H. inversion H; subst rb w5. clear H.
  assert (Hst : exists staged late,
             events w4 = late ++ staged ++ events w3
             /\ forallb stagingEvent staged = true
             /\ stagedPhase o t r late).
  { revert Hbody.
    apply staged_step; [apply emits_cloneTemplateRepo|]. intros _ wa.
    apply staged_step; [now apply emits_rm|]. intros _ wb.
    apply staged_step; [apply emits_listFilesRecursively|]. intros files wc.
    apply staged_step; [now apply emits_cp|]. intros _ wd.
    apply staged_step; [apply emits_applyTemplateTokens|]. intros _ we.
    intros Hi. apply install_phase in Hi as (late & E & Ph).
    exists [], late. now rewrite E. }
  destruct Hst as (staged & late & E4 & F & Ph).
  apply RunStaged with s staged late; auto.
  rewrite E5, E4, E3, E2. reflexivity.
Qed.

Lemma new_events_unique (evs new1 new2 : list event) :
  (new1 ++ evs = new2 ++ evs)%list -> new1 = new2.
Proof. apply app_inv_tail. Qed.

Lemma forallb_In {A} (P : A -> bool) l x :
  forallb P l = true -> In x l -> P x = true.
Proof. intros H Hin. rewrite forallb_forall in H. now apply H. Qed.

(** What a run can have recorded since the staging directory was made. *)
Lemma staged_events o t r late staged s e :
  stagedPhase o t r late ->
  forallb stagingEvent staged = true ->
  In e (EvRm s :: late ++ staged) ->
  e = EvRm s
  \/ (exists out inner, late = EvRunInstall t out :: inner /\ e = EvRunInstall t out)
  \/ bunInstallEvent t e = true
  \/ stagingEvent e = true.
Proof.
  intros Ph F [<-|Hin]; [now left|].
  apply in_app_or in Hin as [Hin|Hin].
  - destruct Ph as [e0 _ ->|res _ _ _ ->|out inner _ -> Fi _ _ _];
      try contradiction.
    destruct Hin as [<-|Hin]; [right; left; eauto|].
    right; right; left. exact (forallb_In _ _ _ Fi Hin).
  - right; right; right. exact (forallb_In _ _ _ F Hin).
Qed.

Lemma run_ok_installed o w res w' :
  scaffoldProject toLowerCase env o w = (Ok res, w') ->
  installedDependencies res = orDefault (install o) true.
Proof.
  intros H. apply scaffoldProject_run in H.
  destruct H as [e He _|e He _|e He _|s staged late _ _ _ Ph];
    try discriminate.
  destruct Ph as [e He _|res' Hi He Hd _|out inner Hi _ _ _ _ Hout].
  - discriminate.
  - inversion He; subst. now rewrite Hi.
  - rewrite Hi. destruct out as [c|e]; [|discriminate].
    destruct (c =? 0)%Z; [|discriminate].
    destruct Hout as (res' & He & Hd). now inversion He; subst.
Qed.

Lemma refuses_nonempty o w x es :
  trim (projectName o) <> [] ->
  orDefault (force o) false = false ->
  Fs.lookupNode (resolve (cwd env) [targetDir o])
    (locate env (resolve (cwd env) [targetDir o])) (fs w)
  = Ok (Dir (x :: es)) ->
  scaffoldProject toLowerCase env o w
  = (Err (notEmptyFailure (resolve (cwd env) [targetDir o])), w).
Proof.
  intros Hname Hforce Hdir. unfold scaffoldProject.
  destruct (trim (projectName o)) as [|c name] eqn:En; [congruence|].
  cbn [List.length Nat.eqb].
  assert (He : isDirectoryEmpty env (resolve (cwd env) [targetDir o]) w
               = (Ok false, w)).
  { now rewrite isDirectoryEmpty_lookup, Hdir. }
  rewrite (@bind_ok _ _ _ _ _ _ _ He). rewrite Hforce. reflexivity.
Qed.

Lemma notEmptyFailure_message t :
  includes (message (notEmptyFailure t)) (units "not empty") = true
  /\ includes (message (notEmptyFailure t)) t = true.
Proof.
  unfold notEmptyFailure, Error. cbn [message]. split.
  - change (units "Target directory is not empty: ")
      with (units "Target directory is " ++ units "not empty" ++ units ": ")%list.
    rewrite <- !app_assoc. apply includes_app.
  - apply includes_app.
Qed.

(** C1 (amended).  For every configuration whose project name is not blank,
    whose target directory is non-empty and whose force flag is false or
    omitted, [scaffoldProject] fails with an error that names the target
    path and contains "not empty", and the world is left as it was: no
    directory is created, nothing is copied, no process is spawned. *)
Theorem scaffoldProject_refuses_nonempty_target o w x es :
  trim (projectName o) <> [] ->
  orDefault (force o) false = false ->
  Fs.lookupNode (resolve (cwd env) [targetDir o])
    (locate env (resolve (cwd env) [targetDir o])) (fs w)
  = Ok (Dir (x :: es)) ->
  exists e,
    scaffoldProject toLowerCase env o w = (Err e, w)
    /\ includes (message e) (units "not empty") = true
    /\ includes (message e) (resolve (cwd env) [targetDir o]) = true.
Proof.
  intros Hname Hforce Hdir.
  exists (notEmptyFailure (resolve (cwd env) [targetDir o])).
  split; [now apply refuses_nonempty with x es|].
  apply notEmptyFailure_message.
Qed.

(** C2.  In every run of [scaffoldProject] in which the staging directory
    is created, the staging directory no longer exists when
    [scaffoldProject] returns or throws, and its removal is the last thing
    the run did - whatever the clone, the copy, the token rewriting and
    the install did or threw. *)
Theorem scaffoldProject_removes_staging o w r w' new s :
  scaffoldProject toLowerCase env o w = (r, w') ->
  events w' = (new ++ events w)%list ->
  In (EvMkdtemp s) new ->
  pathExists env s w' = false /\ exists earlier, new = EvRm s :: earlier.
Proof.
  intros H Enew Hin. apply scaffoldProject_run in H.
  destruct H as [e _ ->|e _ E|e _ E|s0 staged late E F Habs Ph].
  - change (events w) with ([] ++ events w)%list in Enew at 1.
    apply new_events_unique in Enew. subst new. contradiction.
  - rewrite E in Enew. change (events w) with ([] ++ events w)%list in Enew at 1.
    apply new_events_unique in Enew. subst new. contradiction.
  - rewrite E in Enew.
    change (?x :: events w) with ([x] ++ events w)%list in Enew.
    apply new_events_unique in Enew. subst new.
    destruct Hin as [Hin|[]]. discriminate.
  - rewrite E in Enew.
    set (t := resolve (cwd env) [targetDir o]) in *.
    assert (Hnew : new = (EvRm s0 :: late ++ staged) ++ [EvMkdtemp s0; EvMkdir t]).
    { apply new_events_unique with (events w). rewrite <- Enew.
      simpl. now rewrite <- !app_assoc. }
    assert (Hs : s = s0).
    { rewrite Hnew in Hin. apply in_app_or in Hin as [Hin|Hin].
      - destruct (@staged_events _ _ _ _ _ _ _ Ph F Hin)
          as [Hx|[(out & inner & _ & Hx)|[Hx|Hx]]]; discriminate.
      - destruct Hin as [Hin|[Hin|[]]]; congruence. }
    subst s0. split; [exact Habs|]. rewrite Hnew. simpl. eauto.
Qed.

Lemma run_new_events o w r w' new :
  scaffoldProject toLowerCase env o w = (r, w') ->
  events w' = (new ++ events w)%list ->
  ((new = [] \/ new = [EvMkdir (resolve (cwd env) [targetDir o])])
   /\ exists e, r = Err e)
  \/ exists s staged late,
       new = ((EvRm s :: late ++ staged)
              ++ [EvMkdtemp s; EvMkdir (resolve (cwd env) [targetDir o])])%list
       /\ forallb stagingEvent staged = true
       /\ stagedPhase o (resolve (cwd env) [targetDir o]) r late.
Proof.
  intros H Enew. apply scaffoldProject_run in H.
  destruct H as [e He ->|e He E|e He E|s0 staged late E F Habs Ph].
  - left. split; [left|eauto].
    change (events w) with ([] ++ events w)%list in Enew at 1.
    now apply new_events_unique in Enew.
  - left. split; [left|eauto]. rewrite E in Enew.
    change (events w) with ([] ++ events w)%list in Enew at 1.
    now apply new_events_unique in Enew.
  - left. split; [right|eauto]. rewrite E in Enew.
    change (?x :: events w) with ([x] ++ events w)%list in Enew.
    now apply new_events_unique in Enew.
  - right. exists s0, staged, late. repeat split; auto.
    apply new_events_unique with (events w). rewrite <- Enew, E.
    simpl. now rewrite <- !app_assoc.
Qed.

Lemma stagingEvent_not_bun c d so :
  stagingEvent (EvSpawn (units "bun" :: c) d so) = false.
Proof. destruct d; reflexivity. Qed.

End ScaffoldProperties.

(** ** The properties on the concrete world *)

Ltac pick_event :=
  vm_compute; repeat first [left; reflexivity | right].

Lemma scaffoldProject_refuses_nonempty_target_witness :
  exists e,
    scaffoldProject asciiToLowerCase Demo.env
      (Demo.options "My App!" "full" None (Some false)) Demo.world
    = (Err e, Demo.world)
    /\ includes (message e) (units "not empty") = true
    /\ includes (message e) (units "/work/full") = true.
Proof.
  apply (@scaffoldProject_refuses_nonempty_target asciiToLowerCase Demo.env
           (Demo.options "My App!" "full" None (Some false)) Demo.world
           (units "notes.txt", File (units "keep")) []).
  - vm_compute. discriminate.
  - reflexivity.
  - reflexivity.
Defined.

(** C1, as stated, fails on the code: with a blank project name the run
    into a non-empty directory without force is refused by the guard of
    line 154, whose error neither contains "not empty" nor names the
    target path. *)
Lemma scaffoldProject_blank_name_counterexample :
  orDefault (force (Demo.options "  " "full" None None)) false = false
  /\ isDirectoryEmpty Demo.env (units "/work/full") Demo.world
     = (Ok false, Demo.world)
  /\ scaffoldProject asciiToLowerCase Demo.env
       (Demo.options "  " "full" None None) Demo.world
     = (Err (Error (units "Project name must not be empty.")), Demo.world)
  /\ includes (units "Project name must not be empty.") (units "not empty")
     = false
  /\ includes (units "Project name must not be empty.") (units "/work/full")
     = false.
Proof. repeat split; vm_compute; reflexivity. Qed.

Lemma scaffoldProject_removes_staging_witness :
  (exists e, fst Demo.failingInstall = Err e)
  /\ In (EvMkdtemp Demo.staging) (events (snd Demo.failingInstall))
  /\ pathExists Demo.env Demo.staging (snd Demo.failingInstall) = false.
Proof.
  split; [eexists; vm_compute; reflexivity|].
  split; [pick_event|].
  refine (proj1 (@scaffoldProject_removes_staging asciiToLowerCase Demo.env
                   (Demo.options "My App!" "bad" (Some true) None) Demo.world
                   (fst Demo.failingInstall) (snd Demo.failingInstall)
                   (events (snd Demo.failingInstall)) Demo.staging _ _ _)).
  - unfold Demo.failingInstall. apply surjective_pairing.
  - vm_compute. reflexivity.
  - pick_event.
Defined.

(** ** parseArgs *)

Section ParseArgsProperties.

Import Cli.

Lemma scanned_flag argv rest st st1 st' :
  suppliedArguments argv = suppliedArguments rest ->
  projectNameArg st1 = projectNameArg st ->
  pathArg st1 = pathArg st ->
  scanned rest st1 st' -> scanned argv st st'.
Proof.
  unfold scanned. intros -> -> ->. auto.
Qed.

Lemma scanned_path argv rest v st st' :
  fst (suppliedArguments argv) = fst (suppliedArguments rest) ->
  snd (suppliedArguments argv) = S (snd (suppliedArguments rest)) ->
  pathArg st = None ->
  scanned rest (setPathArg v st) st' -> scanned argv st st'.
Proof.
  unfold scanned. intros -> -> Hn (H1 & H2 & H3 & H4). cbn in *.
  repeat split; auto; try lia; try (apply H2; assumption).
  - destruct (Nat.eq_dec (snd (suppliedArguments rest)) 0) as [E|E].
    + now rewrite E.
    + destruct (H4 E) as (_ & Habs & _). discriminate.
  - destruct (Nat.eq_dec (snd (suppliedArguments rest)) 0) as [E|E].
    + rewrite (H3 E). discriminate.
    + now apply H4.
Qed.

Lemma scanned_positional argv rest arg st st' :
  fst (suppliedArguments argv) = S (fst (suppliedArguments rest)) ->
  snd (suppliedArguments argv) = snd (suppliedArguments rest) ->
  projectNameArg st = None ->
  scanned rest (setProjectNameArg arg st) st' -> scanned argv st st'.
Proof.
  unfold scanned. intros -> -> Hn (H1 & H2 & H3 & H4). cbn in *.
  repeat split; auto; try lia; try (apply H4; assumption).
  - destruct (Nat.eq_dec (fst (suppliedArguments rest)) 0) as [E|E].
    + now rewrite E.
    + destruct (H2 E) as (_ & Habs & _). discriminate.
  - destruct (Nat.eq_dec (fst (suppliedArguments rest)) 0) as [E|E].
    + rewrite (H1 E). discriminate.
    + now apply H2.
Qed.

Lemma parseLoop_scanned n :
  forall argv st st',
    (List.length argv <= n)%nat ->
    parseLoop argv st = Ok st' -> scanned argv st st'.
Proof.
  induction n as [|n IH]; intros argv st st' Hlen H.
  - destruct argv; [|simpl in Hlen; lia]. inversion H; subst.
    unfold scanned. cbn. repeat split; auto; congruence.
  - destruct argv as [|arg rest].
    { inversion H; subst. unfold scanned. cbn. repeat split; auto; congruence. }
    simpl in Hlen. cbn [parseLoop] in H.
    assert (Hflag : forall st1,
              eqb arg (units "--path") || eqb arg (units "-p") = false ->
              startsWith arg (units "--path=") || startsWith arg (units "-p=")
              = false ->
              startsWith arg (units "-") = true ->
              projectNameArg st1 = projectNameArg st ->
              pathArg st1 = pathArg st ->
              parseLoop rest st1 = Ok st' -> scanned (arg :: rest) st st').
    { intros st1 E1 E2 E3 Hp Hq Hr. apply scanned_flag with rest st1; auto.
      - cbn [suppliedArguments]. now rewrite E1, E2, E3.
      - apply IH; [lia|exact Hr]. }
    destruct (eqb arg (units "--help") || eqb arg (units "-h")) eqn:Eh.
    { apply Hflag with (setHelp st); auto;
        apply orb_true_iff in Eh as [Eh|Eh]; apply eqb_eq in Eh; now subst. }
    destruct (eqb arg (units "--version") || eqb arg (units "-v")) eqn:Ev.
    { apply Hflag with (setVersion st); auto;
        apply orb_true_iff in Ev as [Ev|Ev]; apply eqb_eq in Ev; now subst. }
    destruct (eqb arg (units "--force") || eqb arg (units "-f")) eqn:Ef.
    { apply Hflag with (setForce st); auto;
        apply orb_true_iff in Ef as [Ef|Ef]; apply eqb_eq in Ef; now subst. }
    destruct (eqb arg (units "--no-install")) eqn:Ei.
    { apply Hflag with (setNoInstall st); auto; apply eqb_eq in Ei; now subst. }
    clear Hflag.
    destruct (eqb arg (units "--path") || eqb arg (units "-p")) eqn:Ep.
    { destruct rest as [|next rest']; [discriminate|].
      destruct (startsWith next (units "-")); [discriminate|].
      destruct (isBlank next); [discriminate|].
      destruct (pathArg st) eqn:Est; [discriminate|].
      apply scanned_path with rest' next; auto.
      - cbn [suppliedArguments]. rewrite Ep. reflexivity.
      - cbn [suppliedArguments]. rewrite Ep. reflexivity.
      - apply IH; [simpl in Hlen; lia|exact H]. }
    destruct (startsWith arg (units "--path=") || startsWith arg (units "-p="))
      eqn:Eq.
    { destruct (isBlank (afterEquals arg)); [discriminate|].
      destruct (pathArg st) eqn:Est; [discriminate|].
      apply scanned_path with rest (afterEquals arg); auto.
      - cbn [suppliedArguments]. rewrite Ep, Eq. reflexivity.
      - cbn [suppliedArguments]. rewrite Ep, Eq. reflexivity.
      - apply IH; [lia|exact H]. }
    destruct (startsWith arg (units "-")) eqn:Ed; [discriminate|].
    destruct (projectNameArg st) eqn:Est; [discriminate|].
    apply scanned_positional with rest arg; auto.
    + cbn [suppliedArguments]. rewrite Ep, Eq, Ed. reflexivity.
    + cbn [suppliedArguments]. rewrite Ep, Eq, Ed. reflexivity.
    + apply IH; [lia|exact H].
Qed.

(** C6.  The parser never produces options with both a positional project
    name and a path value: an accepted argument list has at most one
    positional argument and at most one path option, never one of each,
    and the two slots of the result hold exactly what was supplied.  So an
    argument list that supplies both, two positional arguments or two path
    options is rejected with an error. *)
Theorem parseArgs_exclusive argv :
  (forall o, parseArgs argv = Ok o ->
     ~ (projectNameArg o <> None /\ pathArg o <> None))
  /\ (forall o, parseArgs argv = Ok o ->
        (projectNameArg o <> None <-> fst (suppliedArguments argv) = 1%nat)
        /\ (pathArg o <> None <-> snd (suppliedArguments argv) = 1%nat))
  /\ ((1 <= fst (suppliedArguments argv) /\ 1 <= snd (suppliedArguments argv))%nat
      \/ (2 <= fst (suppliedArguments argv))%nat
      \/ (2 <= snd (suppliedArguments argv))%nat ->
      exists e, parseArgs argv = Err e).
Proof.
  assert (Hok : forall o, parseArgs argv = Ok o ->
            parseLoop argv initialOptions = Ok o
            /\ ~ (projectNameArg o <> None /\ pathArg o <> None)).
  { unfold parseArgs. intros o H.
    destruct (parseLoop argv initialOptions) as [o'|e]; [|discriminate].
    destruct (projectNameArg o') eqn:E1; [destruct (pathArg o') eqn:E2|];
      inversion H; subst; (split; [reflexivity|]); intros [H1 H2]; congruence. }
  assert (Hcount : forall o, parseArgs argv = Ok o ->
            (projectNameArg o <> None <-> fst (suppliedArguments argv) = 1%nat)
            /\ (pathArg o <> None <-> snd (suppliedArguments argv) = 1%nat)).
  { intros o H. destruct (Hok _ H) as [Hl _].
    apply (@parseLoop_scanned (List.length argv)) in Hl; [|lia].
    destruct Hl as (H1 & H2 & H3 & H4). cbn in H1, H2, H3, H4.
    split; split; intros Hx.
    - destruct (Nat.eq_dec (fst (suppliedArguments argv)) 0) as [E|E];
        [now rewrite (H1 E) in Hx|now apply H2].
    - apply H2. lia.
    - destruct (Nat.eq_dec (snd (suppliedArguments argv)) 0) as [E|E];
        [now rewrite (H3 E) in Hx|now apply H4].
    - apply H4. lia. }
  split; [intros o H; now apply Hok|]. split; [exact Hcount|].
  intros Hsup. destruct (parseArgs argv) as [o|e] eqn:E; [|eauto].
  exfalso. destruct (Hcount o eq_refl) as [[_ Hk] [_ Hp]].
  destruct (Hok o eq_refl) as [Hl Hboth].
  apply (@parseLoop_scanned (List.length argv)) in Hl; [|lia].
  destruct Hl as (H1 & H2 & H3 & H4).
  destruct Hsup as [[Ha Hb]|[Ha|Hb]].
  - apply Hboth. split; [apply H2|apply H4]; lia.
  - assert (fst (suppliedArguments argv) <> 0)%nat as Hx by lia.
    apply H2 in Hx. lia.
  - assert (snd (suppliedArguments argv) <> 0)%nat as Hx by lia.
    apply H4 in Hx. lia.
Qed.

End ParseArgsProperties.

Lemma parseArgs_exclusive_witness :
  (exists e, Cli.parseArgs [units "app"; units "--path"; units "dir"] = Err e)
  /\ (exists e, Cli.parseArgs [units "one"; units "two"] = Err e)
  /\ (exists e, Cli.parseArgs [units "-p"; units "a"; units "--path=b"] = Err e).
Proof.
  split; [|split].
  - apply (proj2 (proj2 (parseArgs_exclusive
                           [units "app"; units "--path"; units "dir"]))).
    left. vm_compute. split; lia.
  - apply (proj2 (proj2 (parseArgs_exclusive [units "one"; units "two"]))).
    right. left. vm_compute. lia.
  - apply (proj2 (proj2 (parseArgs_exclusive
                           [units "-p"; units "a"; units "--path=b"]))).
    right. right. vm_compute. lia.
Defined.

(** ** Paths *)

Lemma splitOn_cons sep s : exists seg rest, splitOn sep s = seg :: rest.
Proof.
  induction s as [|c s (seg & rest & IH)]; simpl; [eauto|].
  destruct (c =? sep); [eauto|]. rewrite IH. eauto.
Qed.

Lemma splitOn_app sep a b :
  splitOn sep (a ++ sep :: b) = (splitOn sep a ++ splitOn sep b)%list.
Proof.
  induction a as [|c a IH]; simpl.
  - now rewrite N.eqb_refl.
  - destruct (c =? sep); [now rewrite IH|].
    rewrite IH. destruct (splitOn_cons sep a) as (seg & rest & ->). reflexivity.
Qed.

Lemma splitOn_slashFree n : slashFree n = true -> splitOn SLASH n = [n].
Proof.
  induction n as [|c n IH]; [reflexivity|].
  simpl. intros H. apply andb_true_iff in H as [Hc Hn].
  unfold isSlash in Hc. apply negb_true_iff in Hc. rewrite Hc.
  now rewrite (IH Hn).
Qed.

Lemma splitOn_pieces s : Forall (fun x => slashFree x = true) (splitOn SLASH s).
Proof.
  induction s as [|c s IH]; simpl; [repeat constructor|].
  destruct (c =? SLASH) eqn:E; [constructor; [reflexivity|exact IH]|].
  destruct (splitOn_cons SLASH s) as (seg & rest & Es). rewrite Es in *.
  inversion IH; subst. constructor; [|assumption].
  simpl. unfold isSlash. now rewrite E.
Qed.

Lemma normalizeStep_clean stack seg :
  Forall cleanSegment stack -> slashFree seg = true ->
  Forall cleanSegment (normalizeStep stack seg).
Proof.
  intros Hs Hf. unfold normalizeStep.
  destruct (isEmpty seg || eqb seg [DOT]) eqn:E1; [exact Hs|].
  destruct (eqb seg [DOT; DOT]).
  - destruct stack; [constructor|now inversion Hs].
  - constructor; [|exact Hs]. split; [|exact Hf].
    intros ->. discriminate.
Qed.

Lemma normalize_fold_clean segs stack :
  Forall cleanSegment stack ->
  Forall (fun x => slashFree x = true) segs ->
  Forall cleanSegment (fold_left normalizeStep segs stack).
Proof.
  revert stack. induction segs as [|seg segs IH]; intros stack Hs Hf;
    [exact Hs|].
  inversion Hf; subst. simpl. apply IH; [|assumption].
  now apply normalizeStep_clean.
Qed.

Lemma splitOn_join L :
  Forall cleanSegment L -> L <> [] -> splitOn SLASH (join L) = L.
Proof.
  induction 1 as [|s L [_ Hs] HL IH]; [congruence|]. intros _.
  destruct L as [|s2 L'].
  - simpl. now apply splitOn_slashFree.
  - change (join (s :: s2 :: L')) with (s ++ SLASH :: join (s2 :: L'))%list.
    rewrite splitOn_app, (splitOn_slashFree _ Hs), IH by discriminate.
    reflexivity.
Qed.

Lemma filter_clean L :
  Forall cleanSegment L -> filter (fun s => negb (isEmpty s)) L = L.
Proof.
  induction 1 as [|s L [Hne _] _ IH]; [reflexivity|].
  simpl. destruct s; [congruence|]. simpl. now rewrite IH.
Qed.

Lemma segments_root_join L :
  Forall cleanSegment L -> segments (SLASH :: join L) = L.
Proof.
  intros H. unfold segments. simpl. unfold SLASH at 1. simpl.
  destruct L as [|s L'].
  - reflexivity.
  - rewrite splitOn_join by (assumption || discriminate).
    now apply filter_clean.
Qed.

Lemma resolveLoop_acc rpaths cwd acc :
  resolveLoop rpaths cwd acc = (resolveLoop rpaths cwd [] ++ acc)%list.
Proof.
  revert acc. induction rpaths as [|p rest IH]; intros acc; simpl.
  - now rewrite <- app_assoc.
  - destruct (isEmpty p); [apply IH|].
    destruct (isAbsolute p); [now rewrite <- app_assoc|].
    rewrite IH. rewrite (IH (p ++ [SLASH])%list).
    now rewrite <- !app_assoc.
Qed.

Lemma resolveLoop_head p rest cwd :
  isEmpty p = false ->
  resolveLoop (p :: rest) cwd [] =
  if isAbsolute p then (p ++ [SLASH])%list
  else (resolveLoop rest cwd [] ++ p ++ [SLASH])%list.
Proof.
  intros E. cbn [resolveLoop]. rewrite E.
  destruct (isAbsolute p); [reflexivity|apply resolveLoop_acc].
Qed.

Lemma plainName_step stack n :
  plainName n = true -> normalizeStep stack n = n :: stack.
Proof.
  unfold plainName, normalizeStep. intros H.
  repeat (apply andb_true_iff in H as [H ?]).
  destruct (isEmpty n); [discriminate|].
  destruct (eqb n [DOT]); [discriminate|].
  destruct (eqb n [DOT; DOT]); [discriminate|]. reflexivity.
Qed.

Lemma plainName_slashFree n : plainName n = true -> slashFree n = true.
Proof.
  unfold plainName. intros H. repeat (apply andb_true_iff in H as [H ?]).
  assumption.
Qed.

(** Resolving [d/n] against resolving [d/]: the same directory, then [n]. *)
Lemma resolve_last_component (cwd d n : jsstring) :
  plainName n = true ->
  exists dir,
    Forall cleanSegment dir
    /\ resolve cwd [cwd; (d ++ SLASH :: n)%list] = SLASH :: join (dir ++ [n])
    /\ resolve cwd [cwd; (d ++ [SLASH])%list] = SLASH :: join dir.
Proof.
  intros Hn.
  assert (Hraw : exists q,
             resolveLoop (rev [cwd; (d ++ SLASH :: n)%list]) cwd []
             = (q ++ SLASH :: n ++ [SLASH])%list
             /\ resolveLoop (rev [cwd; (d ++ [SLASH])%list]) cwd []
                = (q ++ SLASH :: [SLASH])%list).
  { cbn [rev app].
    assert (E1 : isEmpty (d ++ SLASH :: n) = false) by now destruct d.
    assert (E2 : isEmpty (d ++ [SLASH]) = false) by now destruct d.
    assert (E3 : isAbsolute (d ++ SLASH :: n) = isAbsolute (d ++ [SLASH]))
      by now destruct d.
    rewrite (@resolveLoop_head _ [cwd] cwd E1), (@resolveLoop_head _ [cwd] cwd E2).
    rewrite E3. destruct (isAbsolute (d ++ [SLASH])).
    - exists d. now rewrite <- !app_assoc.
    - exists (resolveLoop [cwd] cwd [] ++ d)%list.
      now rewrite <- !app_assoc. }
  destruct Hraw as (q & R1 & R2).
  exists (rev (fold_left normalizeStep (splitOn SLASH q) [])).
  split; [apply Forall_rev, normalize_fold_clean;
          [constructor|apply splitOn_pieces]|].
  unfold resolve, normalizeSegments. rewrite R1, R2.
  rewrite !splitOn_app. rewrite (splitOn_slashFree _ (plainName_slashFree _ Hn)).
  rewrite !fold_left_app. cbn [fold_left splitOn].
  rewrite (plainName_step _ _ Hn). split; reflexivity.
Qed.

(** ** Token substitution *)

Lemma getSubstitution_dollarFree matched before after t :
  dollarFree t = true -> getSubstitution matched before after t = t.
Proof.
  induction t as [|c t IH]; [reflexivity|].
  simpl. intros H. apply andb_true_iff in H as [Hc Ht].
  apply negb_true_iff in Hc. now rewrite Hc, (IH Ht).
Qed.

(** With a replacement text free of dollar signs [replaceAll] is the
    literal replacement. *)
Lemma replaceAll_literal s search replacement :
  dollarFree replacement = true ->
  replaceAll s search replacement = replaceLiteral s search replacement.
Proof.
  intros Hd. unfold replaceAll, replaceLiteral.
  generalize (@nil N) as seen. generalize 0%nat as skip.
  induction s as [|c s IH]; intros skip seen; simpl.
  - destruct (isEmpty search); [|reflexivity].
    now apply getSubstitution_dollarFree.
  - destruct skip as [|k]; [|apply IH].
    destruct (startsWith (c :: s) search).
    + rewrite (getSubstitution_dollarFree _ _ _ _ Hd).
      destruct (List.length search); now rewrite IH.
    + now rewrite IH.
Qed.

(** A file whose extension is not a text extension and whose path does not
    end in [.gitignore] is not read and not written. *)
Lemma rewriteTokens_other_file env name pkg path :
  hasExtension (extname path) = false ->
  endsWith path (units ".gitignore") = false ->
  rewriteTokens env name pkg path = ret tt.
Proof. unfold rewriteTokens. now intros -> ->. Qed.

(** The package name never holds a dollar sign. *)
Lemma packageName_dollarFree toLowerCase name :
  dollarFree (normalizePackageName toLowerCase name) = true.
Proof.
  pose proof (normalize_pattern toLowerCase name) as H.
  unfold matchesPackagePattern in H. apply andb_true_iff in H as [_ H].
  unfold dollarFree. rewrite forallb_forall in *. intros c Hc.
  specialize (H c Hc). destruct (c =? DOLLAR) eqn:E; [|reflexivity].
  apply N.eqb_eq in E. subst c. discriminate.
Qed.

(** For a project name without dollar signs, a file with a text extension
    or a path ending in [.gitignore] is read, both tokens are replaced
    literally, and the file is written only when its text has changed. *)
Lemma rewriteTokens_text_file toLowerCase env name path w :
  hasExtension (extname path) = true
  \/ endsWith path (units ".gitignore") = true ->
  dollarFree name = true ->
  rewriteTokens env name (normalizePackageName toLowerCase name) path w
  = (original <- readText env path ;;
     let next :=
       replaceLiteral (replaceLiteral original PROJECT_NAME_TOKEN name)
         PACKAGE_NAME_TOKEN (normalizePackageName toLowerCase name) in
     if negb (eqb next original) then writeText env path next else ret tt) w.
Proof.
  intros Hext Hname. unfold rewriteTokens.
  assert (E : negb (hasExtension (extname path))
              && negb (endsWith path (units ".gitignore")) = false).
  { destruct Hext as [-> | ->]; [reflexivity|apply andb_false_r]. }
  rewrite E. unfold bind.
  destruct (readText env path w) as [[original|e] w1]; [|reflexivity].
  rewrite (replaceAll_literal _ _ _ (packageName_dollarFree toLowerCase name)).
  now rewrite (replaceAll_literal _ _ _ Hname).
Qed.

(** C3 (the code departs from the claim).  For the project name [a$$b]
    the token [__PROJECT_NAME__] of a template file is replaced with
    [a$b], not with the project name: [replaceAll] reads [$$] in its
    replacement text as an escaped dollar sign.  The file without a text
    extension stays as it was. *)
Theorem applyTemplateTokens_dollar_name (toLowerCase : jsstring -> jsstring) :
  let after :=
    snd (applyTemplateTokens toLowerCase Demo.env
           [units "/work/app/README.md"; units "/work/app/logo.png"]
           (units "a$$b") Demo.copied) in
  readText Demo.env (units "/work/app/README.md") after
  = (Ok (units "# a$b"), after)
  /\ replaceLiteral (units "# __PROJECT_NAME__") PROJECT_NAME_TOKEN (units "a$$b")
     = units "# a$$b"
  /\ readText Demo.env (units "/work/app/logo.png") after
     = (Ok (units "__PROJECT_NAME__"), after).
Proof. vm_compute. repeat split. Qed.

(** ** The listing of the template files *)

Lemma plainName_clean n : plainName n = true -> cleanSegment n.
Proof.
  intros H. split; [|now apply plainName_slashFree].
  intros ->. discriminate.
Qed.

Lemma normalizeStep_plain stack seg :
  Forall (fun s => plainName s = true) stack -> slashFree seg = true ->
  Forall (fun s => plainName s = true) (normalizeStep stack seg).
Proof.
  intros Hs Hf. unfold normalizeStep.
  destruct (isEmpty seg || eqb seg [DOT]) eqn:E1; [exact Hs|].
  destruct (eqb seg [DOT; DOT]) eqn:E2.
  - destruct stack; [constructor|now inversion Hs].
  - constructor; [|exact Hs]. unfold plainName.
    apply orb_false_iff in E1 as [E0 E1]. now rewrite E0, Hf, E1, E2.
Qed.

Lemma normalize_fold_plain segs stack :
  Forall (fun s => plainName s = true) stack ->
  Forall (fun x => slashFree x = true) segs ->
  Forall (fun s => plainName s = true) (fold_left normalizeStep segs stack).
Proof.
  revert stack. induction segs as [|seg segs IH]; intros stack Hs Hf;
    [exact Hs|].
  inversion Hf; subst. simpl. apply IH; [|assumption].
  now apply normalizeStep_plain.
Qed.

Lemma normalize_fold_push L stack :
  Forall (fun s => plainName s = true) L ->
  fold_left normalizeStep L stack = (rev L ++ stack)%list.
Proof.
  revert stack. induction L as [|n L IH]; intros stack H; [reflexivity|].
  inversion H; subst. simpl. rewrite plainName_step by assumption.
  rewrite IH by assumption. now rewrite <- app_assoc.
Qed.

(** A resolved path resolves to itself. *)
Lemma locate_resolved env L :
  Forall (fun s => plainName s = true) L ->
  locate env (SLASH :: join L) = L.
Proof.
  intros HL.
  assert (Hc : Forall cleanSegment L).
  { eapply Forall_impl; [|exact HL]. apply plainName_clean. }
  unfold locate, resolve. cbn [rev app resolveLoop isEmpty isAbsolute].
  unfold isSlash at 1. rewrite N.eqb_refl.
  change ((SLASH :: join L) ++ [SLASH])%list with (SLASH :: (join L ++ [SLASH]))%list.
  cbn [splitOn]. rewrite N.eqb_refl.
  assert (Hsplit : splitOn SLASH (join L ++ [SLASH]) = (L ++ [[]])%list \/ L = []).
  { destruct L as [|s L']; [now right|left].
    rewrite splitOn_app. now rewrite splitOn_join by (assumption || discriminate). }
  destruct Hsplit as [Hsplit| ->].
  - rewrite Hsplit. unfold normalizeSegments. cbn [fold_left].
    change (normalizeStep [] []) with (@nil jsstring).
    rewrite fold_left_app. cbn [fold_left].
    rewrite normalize_fold_push by assumption.
    change (normalizeStep (rev L ++ []) []) with (rev L ++ [])%list.
    rewrite app_nil_r, rev_involutive. now apply segments_root_join.
  - reflexivity.
Qed.

(** The directory a path resolves to, and the entry [name] in it. *)
Lemma resolve_entry env (dir name : jsstring) :
  plainName name = true ->
  exists L,
    Forall (fun s => plainName s = true) L
    /\ resolve (cwd env) [dir] = SLASH :: join L
    /\ resolve (cwd env) [dir; name] = SLASH :: join (L ++ [name]).
Proof.
  intros Hn.
  assert (Hne : isEmpty name = false /\ isAbsolute name = false).
  { pose proof (plainName_slashFree _ Hn) as Hs.
    destruct name as [|c name]; [discriminate|]. split; [reflexivity|].
    simpl in Hs. apply andb_true_iff in Hs as [Hs _].
    now apply negb_true_iff in Hs. }
  destruct Hne as [E1 E2].
  assert (Hraw : exists x, resolveLoop [dir] (cwd env) [] = (x ++ [SLASH])%list).
  { cbn [resolveLoop]. destruct (isEmpty dir); [eauto|].
    destruct (isAbsolute dir); [eauto|].
    exists (cwd env ++ SLASH :: dir)%list. now rewrite <- app_assoc. }
  destruct Hraw as (x & Hx).
  exists (rev (fold_left normalizeStep (splitOn SLASH x) [])).
  split; [apply Forall_rev, normalize_fold_plain;
          [constructor|apply splitOn_pieces]|].
  unfold resolve, normalizeSegments. cbn [rev app].
  rewrite (@resolveLoop_head name [dir] (cwd env) E1), E2, Hx.
  rewrite <- !app_assoc. cbn [app].
  rewrite !splitOn_app, (splitOn_slashFree _ (plainName_slashFree _ Hn)).
  rewrite !fold_left_app. cbn [fold_left splitOn].
  rewrite (plainName_step _ _ Hn). split; reflexivity.
Qed.

Lemma locate_entry env (dir name : jsstring) :
  plainName name = true ->
  locate env (resolve (cwd env) [dir; name]) = (locate env dir ++ [name])%list.
Proof.
  intros Hn. destruct (resolve_entry env dir name Hn) as (L & HL & E1 & E2).
  rewrite E2. rewrite locate_resolved.
  - f_equal. unfold locate. rewrite E1. symmetry. apply segments_root_join.
    eapply Forall_impl; [|exact HL]. apply plainName_clean.
  - apply Forall_app. split; [exact HL|]. now repeat constructor.
Qed.

Lemma assoc_In name es c : Fs.assoc name es = Some c -> In (name, c) es.
Proof.
  induction es as [|[k v] es IH]; simpl; [discriminate|].
  destruct (eqb k name) eqn:E.
  - intros H. inversion H; subst. apply eqb_eq in E. subst. now left.
  - intros H. right. now apply IH.
Qed.

Lemma In_assoc name es c :
  NoDup (map fst es) -> In (name, c) es -> Fs.assoc name es = Some c.
Proof.
  induction es as [|[k v] es IH]; simpl; [contradiction|].
  intros Hnd [Hin|Hin].
  - inversion Hin; subst. now rewrite eqb_refl.
  - inversion Hnd as [|? ? Hk Hnd']; subst.
    destruct (eqb k name) eqn:E; [|now apply IH].
    apply eqb_eq in E. subst k. exfalso. apply Hk.
    apply in_map_iff. now exists (name, c).
Qed.

Lemma lookupNode_entry p1 p2 segs name root es c :
  Fs.lookupNode p2 segs root = Ok (Dir es) ->
  Fs.assoc name es = Some c ->
  Fs.lookupNode p1 (segs ++ [name]) root = Ok c.
Proof.
  revert root. induction segs as [|s rest IH]; intros root H Ha.
  - inversion H; subst. simpl. now rewrite Ha.
  - simpl in *. destruct root as [t|es0]; [discriminate|].
    destruct (Fs.assoc s es0) as [c0|]; [|discriminate]. now apply IH.
Qed.

Lemma wellFormed_lookup p segs root n :
  wellFormed root -> Fs.lookupNode p segs root = Ok n -> wellFormed n.
Proof.
  revert root. induction segs as [|s rest IH]; intros root Hwf H.
  - now inversion H; subst.
  - simpl in H. destruct root as [t|es]; [discriminate|].
    destruct (Fs.assoc s es) as [c|] eqn:Ea; [|discriminate].
    inversion Hwf as [|? _ Hes]; subst.
    apply IH with c; [|exact H]. apply assoc_In in Ea. now apply Hes in Ea.
Qed.

Lemma height_entry name c es : In (name, c) es -> (height c < height (Dir es))%nat.
Proof.
  cbn [height]. induction es as [|[k v] es IH]; [contradiction|].
  intros [Hin|Hin].
  - inversion Hin; subst. lia.
  - specialize (IH Hin). lia.
Qed.

Lemma height_lookup p segs root n :
  Fs.lookupNode p segs root = Ok n -> (height n <= height root)%nat.
Proof.
  revert root. induction segs as [|s rest IH]; intros root H.
  - inversion H; subst. lia.
  - simpl in H. destruct root as [t|es]; [discriminate|].
    destruct (Fs.assoc s es) as [c|] eqn:Ea; [|discriminate].
    specialize (IH _ H). apply assoc_In, height_entry in Ea. lia.
Qed.

Section Listing.

Variable env : Env.

Lemma readdirTypes_dir dir es w :
  Fs.lookupNode dir (locate env dir) (fs w) = Ok (Dir es) ->
  readdirTypes env dir w
  = (Ok (map (fun e => mkDirent (fst e) (Fs.isDir (snd e))) es), w).
Proof. unfold readdirTypes. now intros ->. Qed.

Lemma listFilesRecursivelyAt_total depth :
  forall dir es w,
    Fs.lookupNode dir (locate env dir) (fs w) = Ok (Dir es) ->
    wellFormed (Dir es) ->
    (height (Dir es) <= depth)%nat ->
    exists files, listFilesRecursivelyAt env depth dir w = (Ok files, w).
Proof.
  induction depth as [|d IH]; intros dir es w Hdir Hwf Hh.
  - cbn [height] in Hh. lia.
  - cbn [listFilesRecursivelyAt].
    rewrite (@bind_ok _ _ _ _ _ _ _ (@readdirTypes_dir dir es w Hdir)).
    inversion Hwf as [|? Hnd Hes]; subst.
    match goal with
    | |- exists files, ?each _ [] w = _ =>
        assert (Hall : forall suffix files,
                  (forall name child, In (name, child) suffix ->
                                      In (name, child) es) ->
                  exists files',
                    each (map (fun e => mkDirent (fst e) (Fs.isDir (snd e)))
                            suffix) files w = (Ok files', w))
    end.
    { induction suffix as [|[nm child] rest IHs]; intros files Hsub.
      - eexists. reflexivity.
      - assert (Hin : In (nm, child) es) by (apply Hsub; now left).
        assert (Hrest : forall n c, In (n, c) rest -> In (n, c) es)
          by (intros n c Hc; apply Hsub; now right).
        destruct (Hes _ _ Hin) as [Hname Hchild].
        cbn [map fst snd name isDirectory].
        destruct child as [t|es']; cbn [Fs.isDir].
        + apply IHs. exact Hrest.
        + assert (Hsubdir :
            Fs.lookupNode (resolve (cwd env) [dir; nm])
              (locate env (resolve (cwd env) [dir; nm])) (fs w)
            = Ok (Dir es')).
          { rewrite (@locate_entry env dir nm Hname).
            apply lookupNode_entry with dir es; [exact Hdir|].
            now apply In_assoc. }
          destruct (@IH _ _ w Hsubdir Hchild) as (sub & Hsub').
          { apply height_entry in Hin. lia. }
          rewrite (@bind_ok _ _ _ _ _ _ _ Hsub'). apply IHs. exact Hrest. }
    apply Hall. auto.
Qed.

(** On a well-formed file system the listing of a directory returns: the
    bound on the depth of the recursion is never reached. *)
Lemma listFilesRecursively_total dir es w :
  wellFormed (fs w) ->
  Fs.lookupNode dir (locate env dir) (fs w) = Ok (Dir es) ->
  exists files, listFilesRecursively env dir w = (Ok files, w).
Proof.
  intros Hwf Hdir. unfold listFilesRecursively.
  apply listFilesRecursivelyAt_total with es; [exact Hdir| |].
  - eapply wellFormed_lookup; eauto.
  - apply height_lookup in Hdir. lia.
Qed.

End Listing.

(** ** The scenario of the specification *)

(** [scaffold({ projectName: "My App!", targetDir: <empty dir>,
    install: false })]: the target is populated with the template, the
    package token is replaced with [my-app], the project token with
    [My App!], the file without a text extension is copied as it is, and
    the result has [installedDependencies = false]. *)
Example scenario_my_app :
  fst Demo.skippedInstall
  = Ok (mkScaffoldResult
          [units "/work/empty/package.json"; units "/work/empty/.gitignore";
           units "/work/empty/logo.png"; units "/work/empty/src/index.ts"]
          false (units "My App!") (units "/work/empty"))
  /\ readText Demo.env (units "/work/empty/package.json")
       (snd Demo.skippedInstall)
     = (Ok (units "{ name: my-app, title: My App! }"), snd Demo.skippedInstall)
  /\ readText Demo.env (units "/work/empty/logo.png") (snd Demo.skippedInstall)
     = (Ok (units "__PROJECT_NAME__"), snd Demo.skippedInstall)
  /\ pathExists Demo.env Demo.staging (snd Demo.skippedInstall) = false.
Proof. vm_compute. repeat split. Qed.

(** Argument lists the parser accepts. *)
Example parseArgs_accepts :
  Cli.parseArgs [units "my-app"; units "--no-install"; units "-f"]
  = Ok (Cli.mkCliOptions true false false None (Some (units "my-app")) false)
  /\ Cli.parseArgs [units "--path=./apps/my-app"]
     = Ok (Cli.mkCliOptions false false true (Some (units "./apps/my-app"))
             None false)
  /\ Cli.parseArgs [units "-p"; units "x"; units "-h"]
     = Ok (Cli.mkCliOptions false true true (Some (units "x")) None false).
Proof. vm_compute. repeat split. Qed.

(* ================================================================== *)
(** * Further properties *)
(* ================================================================== *)

(** ** normalizePackageName: the shape of the result *)

Lemma headHyphen_startsWith s : startsWith s [HYPHEN] = headHyphen s.
Proof. destruct s as [|c s]; [reflexivity|]. simpl. apply andb_true_r. Qed.

Lemma stripLast_fixed_last r : stripLast r = r -> headHyphen (rev r) = false.
Proof.
  destruct r as [|c r'] using rev_ind; [reflexivity|].
  rewrite stripLast_snoc, rev_app_distr. simpl.
  destruct (isHyphen c); [|reflexivity].
  intros E. apply (f_equal (@List.length N)) in E.
  rewrite length_app in E. simpl in E. lia.
Qed.

Lemma last_stripLast_fixed r : headHyphen (rev r) = false -> stripLast r = r.
Proof.
  destruct r as [|c r'] using rev_ind; [reflexivity|].
  rewrite stripLast_snoc, rev_app_distr. simpl. now intros ->.
Qed.

Lemma noAdjacent_includes s :
  includes s [HYPHEN; HYPHEN] = negb (noAdjacentHyphens s).
Proof.
  induction s as [|c s IH]; [reflexivity|].
  cbn [includes noAdjacentHyphens]. rewrite IH.
  assert (E : startsWith (c :: s) [HYPHEN; HYPHEN] = isHyphen c && headHyphen s).
  { change (startsWith (c :: s) [HYPHEN; HYPHEN])
      with (isHyphen c && startsWith s [HYPHEN]).
    now rewrite headHyphen_startsWith. }
  rewrite E. destruct (isHyphen c && headHyphen s); simpl; [reflexivity|].
  reflexivity.
Qed.

(** X1.  Whatever the input, the package name is not empty, does not start
    or end with a hyphen, and holds no two hyphens in a row. *)
Theorem normalizePackageName_shape (toLowerCase : jsstring -> jsstring) s :
  normalizePackageName toLowerCase s <> []
  /\ startsWith (normalizePackageName toLowerCase s) (units "-") = false
  /\ endsWith (normalizePackageName toLowerCase s) (units "-") = false
  /\ includes (normalizePackageName toLowerCase s) (units "--") = false.
Proof.
  destruct (normalize_shape toLowerCase s) as (H1 & _ & H3 & H4 & H5).
  split; [exact H1|]. split; [|split].
  - change (units "-") with [HYPHEN]. now rewrite headHyphen_startsWith.
  - unfold endsWith. change (rev (units "-")) with [HYPHEN].
    rewrite headHyphen_startsWith. now apply stripLast_fixed_last.
  - change (units "--") with [HYPHEN; HYPHEN].
    now rewrite noAdjacent_includes, H3.
Qed.

(** X2.  The names [normalizePackageName] leaves unchanged are exactly the
    names that match [^[a-z0-9-_]+$], neither start nor end with a hyphen
    and hold no two hyphens in a row. *)
Theorem normalizePackageName_fixed_points
  (toLowerCase : jsstring -> jsstring)
  (toLowerCase_ascii :
     forall s, forallb isAscii s = true -> toLowerCase s = map asciiLower s)
  (s : jsstring) :
  normalizePackageName toLowerCase s = s
  <-> (matchesPackagePattern s = true
       /\ startsWith s (units "-") = false
       /\ endsWith s (units "-") = false
       /\ includes s (units "--") = false).
Proof.
  change (units "-") with [HYPHEN]. change (units "--") with [HYPHEN; HYPHEN].
  unfold endsWith. change (rev [HYPHEN]) with [HYPHEN].
  rewrite !headHyphen_startsWith, noAdjacent_includes. split.
  - intros E. destruct (normalize_shape toLowerCase s) as (H1 & H2 & H3 & H4 & H5).
    rewrite E in *. repeat split; auto.
    + unfold matchesPackagePattern. rewrite H2. now destruct s.
    + now apply stripLast_fixed_last.
    + now rewrite H3.
  - intros (Hm & Hh & Hl & Hn). unfold matchesPackagePattern in Hm.
    apply andb_true_iff in Hm as [Hne Hc].
    apply normalize_fixed; auto.
    + now destruct s.
    + now apply negb_false_iff in Hn.
    + now apply last_stripLast_fixed.
Qed.

Lemma normalizePackageName_fixed_points_witness :
  normalizePackageName asciiToLowerCase (units "my-app_2") = units "my-app_2"
  /\ normalizePackageName asciiToLowerCase (units "-app") <> units "-app".
Proof.
  split.
  - apply (proj2 (normalizePackageName_fixed_points asciiToLowerCase
                    asciiToLowerCase_ascii (units "my-app_2"))).
    vm_compute. repeat split.
  - intros E.
    apply (proj1 (normalizePackageName_fixed_points asciiToLowerCase
                    asciiToLowerCase_ascii (units "-app"))) in E.
    destruct E as (_ & E & _). vm_compute in E. discriminate.
Defined.

Lemma collapse_all_hyphens y :
  forallb isHyphen y = true -> stripEnds (collapseHyphens y) = [].
Proof.
  induction y as [|c y IH]; [reflexivity|].
  simpl forallb. intros H. apply andb_true_iff in H as [Hc Hy].
  rewrite collapse_cons_hy by assumption.
  destruct y as [|d y']; [unfold stripEnds; simpl; now rewrite Hc|].
  simpl headHyphen. simpl in Hy. apply andb_true_iff in Hy as [Hd Hy'].
  rewrite Hd. apply IH. simpl. now rewrite Hd, Hy'.
Qed.

(** X3.  A name without any character of [[a-z0-9_]] once trimmed and
    lower-cased (an empty or blank name, a name of punctuation only)
    gives the fallback name [bun-app]. *)
Theorem normalizePackageName_fallback (toLowerCase : jsstring -> jsstring) s :
  forallb (fun c => negb (isWordUnit c)) (toLowerCase (trim s)) = true ->
  normalizePackageName toLowerCase s = units "bun-app".
Proof.
  intros H. unfold normalizePackageName.
  rewrite collapse_all_hyphens; [reflexivity|].
  unfold replaceOutside. rewrite forallb_forall in *. intros c Hc.
  apply in_map_iff in Hc as (x & <- & Hx). specialize (H x Hx).
  unfold isWordUnit in H. destruct (inPackageClass x); [|reflexivity].
  simpl in H. now destruct (isHyphen x).
Qed.

Lemma normalizePackageName_fallback_witness :
  normalizePackageName asciiToLowerCase (units "  ?!-- ") = units "bun-app"
  /\ normalizePackageName asciiToLowerCase (units "   ") = units "bun-app".
Proof.
  split; apply normalizePackageName_fallback; reflexivity.
Defined.

Lemma dropWhile_idem p s : dropWhile p (dropWhile p s) = dropWhile p s.
Proof.
  induction s as [|c s IH]; [reflexivity|].
  simpl. destruct (p c) eqn:E; [exact IH|]. simpl. now rewrite E.
Qed.

Lemma dropWhile_head p s c t : dropWhile p s = c :: t -> p c = false.
Proof.
  induction s as [|x s IH]; [discriminate|].
  simpl. destruct (p x) eqn:E; [exact IH|]. intros H. now inversion H; subst.
Qed.

Lemma dropWhile_split p s : exists pre, s = (pre ++ dropWhile p s)%list.
Proof.
  induction s as [|x s (pre & IH)]; [now exists []|].
  simpl. destruct (p x); [|now exists []].
  exists (x :: pre). simpl. now rewrite <- IH.
Qed.

Lemma trim_idempotent s : trim (trim s) = trim s.
Proof.
  unfold trim.
  assert (E : trimStart (trimEnd (trimStart s)) = trimEnd (trimStart s)).
  { set (y := trimStart s).
    destruct (trimEnd y) as [|c t] eqn:Ey; [reflexivity|].
    unfold trimEnd in Ey.
    destruct (dropWhile_split isWhiteSpace (rev y)) as (pre & Hy).
    apply (f_equal (@rev N)) in Hy. rewrite rev_involutive, rev_app_distr in Hy.
    rewrite Ey in Hy. simpl in Hy.
    unfold trimStart at 1. simpl.
    rewrite (@dropWhile_head isWhiteSpace s c (t ++ rev pre) Hy).
    reflexivity. }
  rewrite E. unfold trimEnd. now rewrite rev_involutive, dropWhile_idem.
Qed.

(** X4.  White space around the project name does not change the package
    name: the trimmed name and the name as given normalise alike. *)
Theorem normalizePackageName_trim (toLowerCase : jsstring -> jsstring) s :
  normalizePackageName toLowerCase (trim s) = normalizePackageName toLowerCase s.
Proof. unfold normalizePackageName. now rewrite trim_idempotent. Qed.

(** ** parseArgs: one step of the loop, and induction on an accepted scan *)

Section ParseArgsSteps.

Import Cli.

Lemma parseLoop_cons_switch arg rest st f :
  switchOf arg = Some f -> parseLoop (arg :: rest) st = parseLoop rest (f st).
Proof.
  unfold switchOf, isHelpFlag, isVersionFlag, isForceFlag, isNoInstallFlag.
  cbn [parseLoop].
  destruct (eqb arg (units "--help") || eqb arg (units "-h"));
    [intros H; now inversion H|].
  destruct (eqb arg (units "--version") || eqb arg (units "-v"));
    [intros H; now inversion H|].
  destruct (eqb arg (units "--force") || eqb arg (units "-f"));
    [intros H; now inversion H|].
  destruct (eqb arg (units "--no-install")); [intros H; now inversion H|].
  discriminate.
Qed.

Lemma parseLoop_cons_other arg rest st :
  switchOf arg = None ->
  parseLoop (arg :: rest) st =
  if isPathFlag arg then
    match rest with
    | [] => Err (Error (units "Missing value for " ++ arg ++ units "."))
    | next :: rest' =>
        if startsWith next (units "-") then
          Err (Error (units "Missing value for " ++ arg ++ units "."))
        else if isBlank next then
          Err (Error (units "Path must not be empty."))
        else
          match pathArg st with
          | Some _ => Err (Error (units "Path can only be provided once."))
          | None => parseLoop rest' (setPathArg next st)
          end
    end
  else if isPathAssignment arg then
    if isBlank (afterEquals arg) then
      Err (Error (units "Path must not be empty."))
    else
      match pathArg st with
      | Some _ => Err (Error (units "Path can only be provided once."))
      | None => parseLoop rest (setPathArg (afterEquals arg) st)
      end
  else if startsWith arg (units "-") then
    Err (Error (units "Unknown option: " ++ arg))
  else
    match projectNameArg st with
    | Some _ => Err (Error (units "Only one project name can be provided."))
    | None => parseLoop rest (setProjectNameArg arg st)
    end.
Proof.
  unfold switchOf, isHelpFlag, isVersionFlag, isForceFlag, isNoInstallFlag,
    isPathFlag, isPathAssignment.
  cbn [parseLoop].
  destruct (eqb arg (units "--help") || eqb arg (units "-h")); [discriminate|].
  destruct (eqb arg (units "--version") || eqb arg (units "-v"));
    [discriminate|].
  destruct (eqb arg (units "--force") || eqb arg (units "-f")); [discriminate|].
  destruct (eqb arg (units "--no-install")); [discriminate|].
  reflexivity.
Qed.

Lemma recognizedOption_false arg :
  recognizedOption arg = false ->
  switchOf arg = None /\ isPathFlag arg = false /\ isPathAssignment arg = false.
Proof.
  unfold recognizedOption, switchOf. intros H.
  apply orb_false_iff in H as [H Ha]. apply orb_false_iff in H as [H Hp].
  apply orb_false_iff in H as [H Hi]. apply orb_false_iff in H as [H Hf].
  apply orb_false_iff in H as [Hh Hv].
  now rewrite Hh, Hv, Hf, Hi.
Qed.

(** Induction on the arguments an accepted scan went through. *)
Lemma parseLoop_accepts_ind
  (R : list jsstring -> CliOptions -> CliOptions -> Prop) :
  (forall st, R [] st st) ->
  (forall arg rest f st st',
     switchOf arg = Some f ->
     R rest (f st) st' -> R (arg :: rest) st st') ->
  (forall arg next rest st st',
     switchOf arg = None -> isPathFlag arg = true ->
     startsWith next (units "-") = false -> isBlank next = false ->
     pathArg st = None ->
     R rest (setPathArg next st) st' -> R (arg :: next :: rest) st st') ->
  (forall arg rest st st',
     switchOf arg = None -> isPathFlag arg = false ->
     isPathAssignment arg = true -> isBlank (afterEquals arg) = false ->
     pathArg st = None ->
     R rest (setPathArg (afterEquals arg) st) st' -> R (arg :: rest) st st') ->
  (forall arg rest st st',
     recognizedOption arg = false -> startsWith arg (units "-") = false ->
     projectNameArg st = None ->
     R rest (setProjectNameArg arg st) st' -> R (arg :: rest) st st') ->
  forall argv st st', parseLoop argv st = Ok st' -> R argv st st'.
Proof.
  intros Hnil Hsw Hpf Hpa Hpos argv.
  assert (Hall : forall n argv st st',
            (List.length argv <= n)%nat ->
            parseLoop argv st = Ok st' -> R argv st st').
  { clear argv. induction n as [|n IH]; intros argv st st' Hlen H.
    { destruct argv; [|simpl in Hlen; lia]. inversion H; subst. apply Hnil. }
    destruct argv as [|arg rest].
    { inversion H; subst. apply Hnil. }
    simpl in Hlen. destruct (switchOf arg) as [f|] eqn:Es.
    { rewrite (@parseLoop_cons_switch _ _ _ _ Es) in H.
      apply Hsw with f; [exact Es|]. apply IH; [lia|exact H]. }
    rewrite (@parseLoop_cons_other _ _ _ Es) in H.
    destruct (isPathFlag arg) eqn:Ep.
    { destruct rest as [|next rest']; [discriminate|].
      destruct (startsWith next (units "-")) eqn:Ed; [discriminate|].
      destruct (isBlank next) eqn:Eb; [discriminate|].
      destruct (pathArg st) eqn:Est; [discriminate|].
      apply Hpf; auto. apply IH; [simpl in Hlen; lia|exact H]. }
    destruct (isPathAssignment arg) eqn:Ea.
    { destruct (isBlank (afterEquals arg)) eqn:Eb; [discriminate|].
      destruct (pathArg st) eqn:Est; [discriminate|].
      apply Hpa; auto. apply IH; [lia|exact H]. }
    destruct (startsWith arg (units "-")) eqn:Ed; [discriminate|].
    destruct (projectNameArg st) eqn:Est; [discriminate|].
    apply Hpos; auto.
    - unfold recognizedOption. unfold switchOf in Es.
      destruct (isHelpFlag arg); [discriminate|].
      destruct (isVersionFlag arg); [discriminate|].
      destruct (isForceFlag arg); [discriminate|].
      destruct (isNoInstallFlag arg); [discriminate|].
      now rewrite Ep, Ea.
    - apply IH; [lia|exact H]. }
  intros st st'. now apply Hall with (List.length argv).
Qed.

(** The scan of an accepted prefix, then the scan of what follows. *)
Lemma parseLoop_app pre post st st' :
  parseLoop pre st = Ok st' ->
  parseLoop (pre ++ post) st = parseLoop post st'.
Proof.
  revert pre st st'.
  apply (parseLoop_accepts_ind
           (fun pre st st' => parseLoop (pre ++ post) st = parseLoop post st')).
  - reflexivity.
  - intros arg rest f st st' Es IH. simpl app.
    now rewrite (@parseLoop_cons_switch _ _ _ _ Es).
  - intros arg next rest st st' Es Ep Ed Eb Est IH. simpl app.
    now rewrite (@parseLoop_cons_other _ _ _ Es), Ep, Ed, Eb, Est.
  - intros arg rest st st' Es Ep Ea Eb Est IH. simpl app.
    now rewrite (@parseLoop_cons_other _ _ _ Es), Ep, Ea, Eb, Est.
  - intros arg rest st st' Er Ed Est IH. simpl app.
    destruct (@recognizedOption_false _ Er) as (Es & Ep & Ea).
    now rewrite (@parseLoop_cons_other _ _ _ Es), Ep, Ea, Ed, Est.
Qed.

End ParseArgsSteps.

(** ** parseArgs: switches, unknown options, missing values *)

Section ParseArgsFurther.

Import Cli.

Lemma parseArgs_Ok_loop argv o :
  parseArgs argv = Ok o -> parseLoop argv initialOptions = Ok o.
Proof.
  unfold parseArgs. destruct (parseLoop argv initialOptions) as [o'|e];
    [|discriminate].
  destruct (projectNameArg o'), (pathArg o'); congruence.
Qed.

Lemma parseArgs_loop_Err argv e :
  parseLoop argv initialOptions = Err e -> parseArgs argv = Err e.
Proof. unfold parseArgs. now intros ->. Qed.

Ltac flag_literal E :=
  first [ apply orb_true_iff in E as [E|E]; apply eqb_eq in E; subst
        | apply eqb_eq in E; subst ].

Lemma switchOf_cases arg f :
  switchOf arg = Some f ->
  isPathFlag arg = false /\ isPathAssignment arg = false
  /\ startsWith arg (units "-") = true
  /\ ((f = setHelp /\ isHelpFlag arg = true /\ isVersionFlag arg = false
       /\ isForceFlag arg = false /\ isNoInstallFlag arg = false)
      \/ (f = setVersion /\ isHelpFlag arg = false /\ isVersionFlag arg = true
          /\ isForceFlag arg = false /\ isNoInstallFlag arg = false)
      \/ (f = setForce /\ isHelpFlag arg = false /\ isVersionFlag arg = false
          /\ isForceFlag arg = true /\ isNoInstallFlag arg = false)
      \/ (f = setNoInstall /\ isHelpFlag arg = false /\ isVersionFlag arg = false
          /\ isForceFlag arg = false /\ isNoInstallFlag arg = true)).
Proof.
  unfold switchOf.
  destruct (isHelpFlag arg) eqn:Eh.
  { intros H. inversion H. unfold isHelpFlag in Eh. flag_literal Eh;
      (do 3 (split; [reflexivity|]); left; repeat split). }
  destruct (isVersionFlag arg) eqn:Ev.
  { intros H. inversion H. unfold isVersionFlag in Ev. flag_literal Ev;
      (do 3 (split; [reflexivity|]); right; left; repeat split). }
  destruct (isForceFlag arg) eqn:Ef.
  { intros H. inversion H. unfold isForceFlag in Ef. flag_literal Ef;
      (do 3 (split; [reflexivity|]); right; right; left; repeat split). }
  destruct (isNoInstallFlag arg) eqn:Ei; [|discriminate].
  intros H. inversion H. unfold isNoInstallFlag in Ei. flag_literal Ei.
  do 3 (split; [reflexivity|]). right; right; right. repeat split.
Qed.

Lemma switchOf_None arg :
  switchOf arg = None ->
  isHelpFlag arg = false /\ isVersionFlag arg = false
  /\ isForceFlag arg = false /\ isNoInstallFlag arg = false.
Proof.
  unfold switchOf.
  destruct (isHelpFlag arg); [discriminate|].
  destruct (isVersionFlag arg); [discriminate|].
  destruct (isForceFlag arg); [discriminate|].
  destruct (isNoInstallFlag arg); [discriminate|]. auto.
Qed.

(** Every form of an option starts with a hyphen. *)
Lemma recognizedOption_dash a :
  recognizedOption a = true -> startsWith a (units "-") = true.
Proof.
  unfold recognizedOption.
  destruct (switchOf a) as [f|] eqn:Es.
  { now destruct (switchOf_cases _ Es) as (_ & _ & Hd & _). }
  destruct (switchOf_None _ Es) as (-> & -> & -> & ->). simpl. intros H.
  apply orb_true_iff in H as [H|H].
  - unfold isPathFlag in H. now flag_literal H.
  - unfold isPathAssignment in H. destruct a as [|c a]; [discriminate|].
    cbn in H |- *. destruct (c =? 45); [reflexivity|discriminate].
Qed.

Lemma dashless_unrecognized a :
  startsWith a (units "-") = false -> recognizedOption a = false.
Proof.
  intros H. destruct (recognizedOption a) eqn:E; [|reflexivity].
  apply recognizedOption_dash in E. congruence.
Qed.

Lemma parseLoop_flags argv st st' :
  parseLoop argv st = Ok st' ->
  help st' = help st || existsb isHelpFlag argv
  /\ version st' = version st || existsb isVersionFlag argv
  /\ force st' = force st || existsb isForceFlag argv
  /\ install st' = install st && negb (existsb isNoInstallFlag argv).
Proof.
  revert argv st st'. apply parseLoop_accepts_ind.
  - intros st. cbn [existsb]. rewrite !orb_false_r, andb_true_r. auto.
  - intros arg rest f st st' Es (Hh & Hv & Hf & Hi).
    destruct (@switchOf_cases _ _ Es) as (_ & _ & _ & Hc).
    cbn [existsb]. rewrite Hh, Hv, Hf, Hi.
    destruct Hc as [(-> & -> & -> & -> & ->)|[(-> & -> & -> & -> & ->)|
                    [(-> & -> & -> & -> & ->)|(-> & -> & -> & -> & ->)]]];
      cbn; rewrite ?orb_true_r, ?andb_false_r; auto.
  - intros arg next rest st st' Es Ep Ed Eb Est (Hh & Hv & Hf & Hi).
    destruct (@switchOf_None _ Es) as (Ah & Av & Af & Ai).
    destruct (@recognizedOption_false _ (@dashless_unrecognized _ Ed)) as (En & _).
    destruct (@switchOf_None _ En) as (Nh & Nv & Nf & Ni).
    cbn [existsb]. rewrite Hh, Hv, Hf, Hi, Ah, Av, Af, Ai, Nh, Nv, Nf, Ni.
    cbn. auto.
  - intros arg rest st st' Es Ep Ea Eb Est (Hh & Hv & Hf & Hi).
    destruct (@switchOf_None _ Es) as (Ah & Av & Af & Ai).
    cbn [existsb]. rewrite Hh, Hv, Hf, Hi, Ah, Av, Af, Ai. cbn. auto.
  - intros arg rest st st' Er Ed Est (Hh & Hv & Hf & Hi).
    destruct (@recognizedOption_false _ Er) as (Es & _).
    destruct (@switchOf_None _ Es) as (Ah & Av & Af & Ai).
    cbn [existsb]. rewrite Hh, Hv, Hf, Hi, Ah, Av, Af, Ai. cbn. auto.
Qed.

Lemma existsb_literals (a b : jsstring) argv :
  existsb (fun x => eqb x a || eqb x b) argv = true <-> In a argv \/ In b argv.
Proof.
  rewrite existsb_exists. split.
  - intros (x & Hin & E). apply orb_true_iff in E as [E|E];
      apply eqb_eq in E; subst; auto.
  - intros [H|H]; eexists; (split; [exact H|]);
      rewrite eqb_refl; [reflexivity|apply orb_true_r].
Qed.

(** X5.  A switch is in force exactly when one of its spellings is among
    the arguments, wherever it stands: in accepted options, [help] is
    set exactly when [--help] or [-h] was given, [version] when
    [--version] or [-v], [force] when [--force] or [-f], and [install]
    is off exactly when [--no-install] was given. *)
Theorem parseArgs_switches argv o :
  parseArgs argv = Ok o ->
  (help o = true <-> In (units "--help") argv \/ In (units "-h") argv)
  /\ (version o = true
      <-> In (units "--version") argv \/ In (units "-v") argv)
  /\ (force o = true <-> In (units "--force") argv \/ In (units "-f") argv)
  /\ (install o = false <-> In (units "--no-install") argv).
Proof.
  intros H. apply parseArgs_Ok_loop, parseLoop_flags in H.
  destruct H as (Hh & Hv & Hf & Hi). cbn in Hh, Hv, Hf, Hi.
  rewrite Hh, Hv, Hf, Hi. unfold isHelpFlag, isVersionFlag, isForceFlag.
  rewrite !existsb_literals.
  split; [reflexivity|]. split; [reflexivity|]. split; [reflexivity|].
  rewrite negb_false_iff. unfold isNoInstallFlag. rewrite existsb_exists.
  split.
  - intros (x & Hin & E). apply eqb_eq in E. now subst.
  - intros Hin. eexists. split; [exact Hin|apply eqb_refl].
Qed.

Lemma parseArgs_switches_witness :
  exists o,
    parseArgs [units "app"; units "-f"; units "--no-install"] = Ok o
    /\ force o = true /\ install o = false /\ help o = false.
Proof.
  eexists. split; [reflexivity|].
  destruct (@parseArgs_switches
              [units "app"; units "-f"; units "--no-install"] _ eq_refl)
    as (Hh & _ & Hf & Hi).
  split; [|split].
  - apply Hf. right. right. left. reflexivity.
  - apply Hi. right. right. left. reflexivity.
  - reflexivity.
Defined.

Lemma parseLoop_options_recognized argv st st' :
  parseLoop argv st = Ok st' ->
  forall a, In a argv -> startsWith a (units "-") = true ->
            recognizedOption a = true.
Proof.
  revert argv st st'.
  apply (parseLoop_accepts_ind
           (fun argv _ _ =>
              forall a, In a argv -> startsWith a (units "-") = true ->
                        recognizedOption a = true)).
  - intros st a [].
  - intros arg rest f st st' Es IH a [<-|Hin] Hd; [|now apply IH].
    unfold recognizedOption.
    destruct (@switchOf_cases _ _ Es) as (_ & _ & _ & Hc).
    destruct Hc as [(_ & -> & _)|[(_ & _ & -> & _)|
                    [(_ & _ & _ & -> & _)|(_ & _ & _ & _ & ->)]]];
      rewrite ?orb_true_r; reflexivity.
  - intros arg next rest st st' Es Ep Ed Eb Est IH a [<-|[<-|Hin]] Hd.
    + unfold recognizedOption. rewrite Ep. now rewrite ?orb_true_r.
    + congruence.
    + now apply IH.
  - intros arg rest st st' Es Ep Ea Eb Est IH a [<-|Hin] Hd; [|now apply IH].
    unfold recognizedOption. rewrite Ea. now rewrite ?orb_true_r.
  - intros arg rest st st' Er Ed Est IH a [<-|Hin] Hd; [congruence|].
    now apply IH.
Qed.

(** X6.  An argument that starts with a hyphen and is none of the known
    option forms makes the whole command line invalid, wherever it
    stands; when the arguments before it were scanned without an error,
    the error is [Unknown option: <argument>]. *)
Theorem parseArgs_unknown_option a :
  startsWith a (units "-") = true ->
  recognizedOption a = false ->
  (forall argv, In a argv -> exists e, parseArgs argv = Err e)
  /\ (forall pre post st,
        parseLoop pre initialOptions = Ok st ->
        parseArgs (pre ++ a :: post)
        = Err (Error (units "Unknown option: " ++ a))).
Proof.
  intros Hd Hr. split.
  - intros argv Hin. destruct (parseArgs argv) as [o|e] eqn:E; [|eauto].
    apply parseArgs_Ok_loop in E.
    pose proof (@parseLoop_options_recognized _ _ _ E a Hin Hd). congruence.
  - intros pre post st Hpre. apply parseArgs_loop_Err.
    rewrite (@parseLoop_app pre (a :: post) _ _ Hpre).
    destruct (@recognizedOption_false _ Hr) as (Es & Ep & Ea).
    now rewrite (@parseLoop_cons_other _ _ _ Es), Ep, Ea, Hd.
Qed.

Lemma parseArgs_unknown_option_witness :
  (exists e, parseArgs [units "--force"; units "--frce"; units "app"] = Err e)
  /\ parseArgs [units "app"; units "--verbose"; units "-f"]
     = Err (Error (units "Unknown option: --verbose")).
Proof.
  split.
  - apply (proj1 (@parseArgs_unknown_option (units "--frce")
                    eq_refl eq_refl)).
    right. left. reflexivity.
  - apply (proj2 (@parseArgs_unknown_option (units "--verbose")
                    eq_refl eq_refl)
             [units "app"] [units "-f"] _ eq_refl).
Defined.

(** X7.  A path flag ([--path] or [-p]) that is the last argument, or is
    followed by an argument that starts with a hyphen, is an error
    [Missing value for <flag>.] when the arguments before it were scanned
    without an error. *)
Theorem parseArgs_missing_value flag pre post st :
  isPathFlag flag = true ->
  parseLoop pre initialOptions = Ok st ->
  post = [] \/ startsWith (hd [] post) (units "-") = true ->
  parseArgs (pre ++ flag :: post)
  = Err (Error (units "Missing value for " ++ flag ++ units ".")).
Proof.
  intros Hf Hpre Hpost. apply parseArgs_loop_Err.
  rewrite (@parseLoop_app pre (flag :: post) _ _ Hpre).
  assert (Es : switchOf flag = None).
  { unfold isPathFlag in Hf. now flag_literal Hf. }
  rewrite (@parseLoop_cons_other _ _ _ Es), Hf.
  destruct Hpost as [->|Hd]; [reflexivity|].
  destruct post as [|next rest]; [reflexivity|]. cbn [hd] in Hd.
  now rewrite Hd.
Qed.

Lemma parseArgs_missing_value_witness :
  parseArgs [units "--force"; units "-p"]
  = Err (Error (units "Missing value for -p."))
  /\ parseArgs [units "--path"; units "--force"]
     = Err (Error (units "Missing value for --path.")).
Proof.
  split.
  - apply (@parseArgs_missing_value (units "-p") [units "--force"] []
             (setForce initialOptions) eq_refl eq_refl).
    now left.
  - apply (@parseArgs_missing_value (units "--path") [] [units "--force"]
             initialOptions eq_refl eq_refl).
    now right.
Defined.

Lemma parseLoop_values argv st st' :
  parseLoop argv st = Ok st' ->
  (forall v, pathArg st' = Some v ->
     pathArg st = Some v \/ (isBlank v = false /\ pathValueIn v argv))
  /\ (forall n, projectNameArg st' = Some n ->
        projectNameArg st = Some n
        \/ (In n argv /\ startsWith n (units "-") = false)).
Proof.
  revert argv st st'.
  apply (parseLoop_accepts_ind
           (fun argv st st' =>
              (forall v, pathArg st' = Some v ->
                 pathArg st = Some v \/ (isBlank v = false /\ pathValueIn v argv))
              /\ (forall n, projectNameArg st' = Some n ->
                    projectNameArg st = Some n
                    \/ (In n argv /\ startsWith n (units "-") = false)))).
  - intros st. split; auto.
  - intros arg rest f st st' Es [IHp IHn].
    assert (Ef : pathArg (f st) = pathArg st
                 /\ projectNameArg (f st) = projectNameArg st).
    { destruct (@switchOf_cases _ _ Es) as (_ & _ & _ & Hc).
      destruct Hc as [(-> & _)|[(-> & _)|[(-> & _)|(-> & _)]]]; now split. }
    destruct Ef as [Ep En]. rewrite Ep in IHp. rewrite En in IHn. split.
    + intros v Hv. destruct (IHp v Hv) as [H|[Hb Hin]]; [now left|right].
      split; [exact Hb|].
      destruct Hin as [(pre & flag & post & -> & Hf)|(a & Hin & Ha & Hv')].
      * left. exists (arg :: pre), flag, post. now split.
      * right. exists a. repeat split; auto. now right.
    + intros n Hn. destruct (IHn n Hn) as [H|[Hin Hd]]; [now left|right].
      split; [now right|exact Hd].
  - intros arg next rest st st' Es Ep Ed Eb Est [IHp IHn]. split.
    + intros v Hv. right. destruct (IHp v Hv) as [H|[Hb Hin]].
      * cbn in H. inversion H; subst. split; [exact Eb|].
        left. exists [], arg, rest. now split.
      * split; [exact Hb|].
        destruct Hin as [(pre & flag & post & -> & Hf)|(a & Hin & Ha & Hv')].
        -- left. exists (arg :: next :: pre), flag, post. now split.
        -- right. exists a. repeat split; auto. now right; right.
    + intros n Hn. destruct (IHn n Hn) as [H|[Hin Hd]]; [now left|right].
      split; [now right; right|exact Hd].
  - intros arg rest st st' Es Ep Ea Eb Est [IHp IHn]. split.
    + intros v Hv. right. destruct (IHp v Hv) as [H|[Hb Hin]].
      * cbn in H. inversion H; subst. split; [exact Eb|].
        right. exists arg. repeat split; auto. now left.
      * split; [exact Hb|].
        destruct Hin as [(pre & flag & post & -> & Hf)|(a & Hin & Ha & Hv')].
        -- left. exists (arg :: pre), flag, post. now split.
        -- right. exists a. repeat split; auto. now right.
    + intros n Hn. destruct (IHn n Hn) as [H|[Hin Hd]]; [now left|right].
      split; [now right|exact Hd].
  - intros arg rest st st' Er Ed Est [IHp IHn]. split.
    + intros v Hv. destruct (IHp v Hv) as [H|[Hb Hin]]; [now left|right].
      split; [exact Hb|].
      destruct Hin as [(pre & flag & post & -> & Hf)|(a & Hin & Ha & Hv')].
      * left. exists (arg :: pre), flag, post. now split.
      * right. exists a. repeat split; auto. now right.
    + intros n Hn. right. destruct (IHn n Hn) as [H|[Hin Hd]].
      * cbn in H. inversion H; subst. split; [now left|exact Ed].
      * split; [now right|exact Hd].
Qed.

(** X8.  What accepted options hold was given on the command line: the
    path is not blank and is the argument after a path flag or the text
    after the first [=] of [--path=...] or [-p=...]; the project name
    is one of the arguments and does not start with a hyphen. *)
Theorem parseArgs_values argv o :
  parseArgs argv = Ok o ->
  (forall v, pathArg o = Some v -> isBlank v = false /\ pathValueIn v argv)
  /\ (forall n, projectNameArg o = Some n ->
        In n argv /\ startsWith n (units "-") = false).
Proof.
  intros H. apply parseArgs_Ok_loop, parseLoop_values in H.
  destruct H as [Hp Hn]. split.
  - intros v Hv. now destruct (Hp v Hv) as [H|H]; [discriminate|].
  - intros n Hm. now destruct (Hn n Hm) as [H|H]; [discriminate|].
Qed.

Lemma parseArgs_values_witness :
  exists o,
    parseArgs [units "-f"; units "--path=apps/my=app"] = Ok o
    /\ pathArg o = Some (units "apps/my=app")
    /\ isBlank (units "apps/my=app") = false
    /\ pathValueIn (units "apps/my=app")
         [units "-f"; units "--path=apps/my=app"].
Proof.
  eexists. split; [reflexivity|]. split; [reflexivity|].
  apply (proj1 (@parseArgs_values
                  [units "-f"; units "--path=apps/my=app"] _ eq_refl)).
  reflexivity.
Defined.

Lemma assignment_forms v :
  (switchOf (units "--path=" ++ v) = None
   /\ isPathFlag (units "--path=" ++ v) = false
   /\ isPathAssignment (units "--path=" ++ v) = true
   /\ afterEquals (units "--path=" ++ v) = v)
  /\ (switchOf (units "-p=" ++ v) = None
      /\ isPathFlag (units "-p=" ++ v) = false
      /\ isPathAssignment (units "-p=" ++ v) = true
      /\ afterEquals (units "-p=" ++ v) = v).
Proof.
  assert (Hne : forall (a b : jsstring), a <> b -> eqb a b = false).
  { intros a b. apply eqb_neq. }
  unfold switchOf, isHelpFlag, isVersionFlag, isForceFlag, isNoInstallFlag,
    isPathFlag, isPathAssignment.
  repeat split;
    repeat (rewrite Hne by (cbn; congruence)); cbn; try reflexivity.
Qed.

(** X9.  The space and the equals spelling of the path option are
    interchangeable: after arguments scanned without an error,
    [--path v] and [--path=v], and [-p v] and [-p=v], give the same
    result, options or error, for a value [v] that does not start with
    a hyphen. *)
Theorem parseArgs_path_spellings pre post st v :
  parseLoop pre initialOptions = Ok st ->
  startsWith v (units "-") = false ->
  parseArgs (pre ++ units "--path" :: v :: post)
  = parseArgs (pre ++ (units "--path=" ++ v) :: post)
  /\ parseArgs (pre ++ units "-p" :: v :: post)
     = parseArgs (pre ++ (units "-p=" ++ v) :: post)
  /\ parseArgs (pre ++ units "-p" :: v :: post)
     = parseArgs (pre ++ units "--path" :: v :: post).
Proof.
  intros Hpre Hd.
  destruct (assignment_forms v) as [(L1 & L2 & L3 & L4) (S1 & S2 & S3 & S4)].
  unfold parseArgs. rewrite !(@parseLoop_app pre _ _ _ Hpre).
  rewrite (@parseLoop_cons_other _ _ _ L1), L2, L3, L4.
  rewrite (@parseLoop_cons_other _ _ _ S1), S2, S3, S4.
  rewrite (@parseLoop_cons_other (units "--path") _ _ eq_refl).
  rewrite (@parseLoop_cons_other (units "-p") _ _ eq_refl).
  change (isPathFlag (units "--path")) with true.
  change (isPathFlag (units "-p")) with true.
  cbv iota. rewrite Hd.
  destruct (isBlank v); [now repeat split|]. now repeat split.
Qed.

Lemma parseArgs_path_spellings_witness :
  parseArgs [units "-f"; units "--path"; units "apps/web"]
  = parseArgs [units "-f"; units "--path=apps/web"]
  /\ parseArgs [units "-f"; units "-p"; units "apps/web"]
     = parseArgs [units "-f"; units "-p=apps/web"]
  /\ parseArgs [units "-f"; units "-p"; units "apps/web"]
     = parseArgs [units "-f"; units "--path"; units "apps/web"].
Proof.
  apply (@parseArgs_path_spellings [units "-f"] [] (setForce initialOptions)
           (units "apps/web") eq_refl eq_refl).
Defined.

End ParseArgsFurther.

(** ** run and the process: what happens before the scaffold *)

Lemma forallb_impl {A} (P Q : A -> bool) l :
  (forall x, P x = true -> Q x = true) ->
  forallb P l = true -> forallb Q l = true.
Proof.
  intros HPQ H. rewrite forallb_forall in *. auto.
Qed.

Section RunProperties.

Import Cli.

Variable toLowerCase : jsstring -> jsstring.
Variable env : Env.

(** A run of [scaffoldProject] only adds events, none of them shown by
    the terminal interface. *)
Lemma scaffoldProject_grows o w r w' :
  scaffoldProject toLowerCase env o w = (r, w') ->
  exists new,
    events w' = (new ++ events w)%list
    /\ forallb (fun e => negb (uiEvent e)) new = true.
Proof.
  intros H. apply scaffoldProject_run in H.
  destruct H as [e _ ->|e _ E|e _ E|s staged late E F _ Ph].
  - now exists [].
  - now exists [].
  - now exists [EvMkdir (resolve (cwd env) [targetDir o])].
  - exists ((EvRm s :: late ++ staged)
            ++ [EvMkdtemp s; EvMkdir (resolve (cwd env) [targetDir o])])%list.
    split; [rewrite E; simpl; now rewrite <- !app_assoc|].
    rewrite forallb_app. cbn [forallb uiEvent negb andb].
    rewrite forallb_app, andb_true_r. apply andb_true_iff. split.
    + destruct Ph as [e _ ->|res _ _ _ ->|out inner _ -> Fi _ _ _];
        try reflexivity.
      cbn [forallb uiEvent negb andb]. revert Fi. apply forallb_impl.
      intros [] Hx; try reflexivity; discriminate.
    + revert F. apply forallb_impl. intros [] Hx; try reflexivity; discriminate.
Qed.

Lemma bind_emit {A} e (k : M A) w :
  (emit e ;;; k) w = k (mkWorld (fs w) (e :: events w)).
Proof. reflexivity. Qed.

Lemma selectTarget_inv o w r w' :
  selectTarget env o w = (r, w') ->
  promptStep env (units "Project name") w r w'.
Proof.
  unfold selectTarget, promptStep.
  destruct (pathArg o).
  { intros H. inversion H; subst. split; [reflexivity|]. left.
    split; [reflexivity|]. discriminate. }
  destruct (projectNameArg o).
  { intros H. inversion H; subst. split; [reflexivity|]. left.
    split; [reflexivity|]. discriminate. }
  intros H. apply bind_inv in H as [(empty & w1 & H1 & H)|(e & H1 & ->)].
  2:{ apply isDirectoryEmpty_pure in H1. subst. split; [reflexivity|]. left.
      split; [reflexivity|]. discriminate. }
  apply isDirectoryEmpty_pure in H1. subst w1.
  destruct (negb empty).
  2:{ inversion H; subst. split; [reflexivity|]. left.
      split; [reflexivity|]. discriminate. }
  destruct (isTTY env); cbn [negb] in H.
  2:{ inversion H; subst. split; [reflexivity|]. left.
      split; [reflexivity|]. discriminate. }
  rewrite bind_emit in H.
  destruct (textAnswer env) as [answer|].
  - destruct (isBlank answer); inversion H; subst; (split; [reflexivity|]).
    + right. right. auto.
    + right. left. repeat split. discriminate.
  - inversion H; subst. split; [reflexivity|]. right. right. auto.
Qed.

Lemma confirmOverwrite_inv o t w r w' :
  confirmOverwrite env o t w = (r, w') ->
  promptStep env
    (units "Target directory is not empty: " ++ t
     ++ units ". Overwrite scaffold files?") w r w'.
Proof.
  unfold confirmOverwrite, promptStep.
  intros H. apply bind_inv in H as [(empty & w1 & H1 & H)|(e & H1 & ->)].
  2:{ apply isDirectoryEmpty_pure in H1. subst. split; [reflexivity|]. left.
      split; [reflexivity|]. discriminate. }
  apply isDirectoryEmpty_pure in H1. subst w1.
  destruct (negb empty && negb (force o)).
  2:{ inversion H; subst. split; [reflexivity|]. left.
      split; [reflexivity|]. discriminate. }
  destruct (isTTY env); cbn [negb] in H.
  2:{ inversion H; subst. split; [reflexivity|]. left.
      split; [reflexivity|]. discriminate. }
  rewrite bind_emit in H.
  destruct (confirmAnswer env) as [[|]|]; inversion H; subst;
    (split; [reflexivity|]).
  - right. left. repeat split. discriminate.
  - right. left. repeat split. discriminate.
  - right. right. auto.
Qed.

Lemma scaffoldAndReport_inv o f t n w r w' :
  scaffoldAndReport toLowerCase env o f t n w = (r, w') ->
  (forall c, r <> Ok (Exited c))
  /\ exists new,
       events w' = (new ++ EvUi (units "Scaffolding Bun project") :: events w)%list.
Proof.
  unfold scaffoldAndReport. rewrite bind_emit. intros H.
  apply bind_inv in H as [(res & w1 & H1 & H)|(e & H1 & ->)].
  - apply scaffoldProject_grows in H1 as (new & E & _). cbn [events] in E.
    rewrite !bind_emit in H. inversion H; subst. cbn [events].
    split; [discriminate|]. rewrite E.
    eexists (_ :: _ :: _ :: _ :: new). reflexivity.
  - apply scaffoldProject_grows in H1 as (new & E & _). cbn [events] in E.
    split; [discriminate|]. now exists new.
Qed.

(** A run either leaves the file system as it is, or has announced the
    scaffold; it ends the process itself only by a cancelled question. *)
Lemma run_before_scaffold argv w r w' :
  run toLowerCase env argv w = (r, w') ->
  (fs w' = fs w
   /\ (exists new, events w' = (new ++ events w)%list
                   /\ ~ In (EvUi (units "Scaffolding Bun project")) new)
   /\ forall c, r = Ok (Exited c) ->
        c = 0%Z /\ isTTY env = true
        /\ exists rest,
             events w' = EvUi (units "Operation cancelled.") :: rest)
  \/ ((exists new, events w' = (new ++ events w)%list
                   /\ In (EvUi (units "Scaffolding Bun project")) new)
      /\ forall c, r <> Ok (Exited c)).
Proof.
  unfold run. destruct (parseArgs argv) as [o|e].
  2:{ intros H. inversion H; subst. left. split; [reflexivity|].
      split; [now exists []|]. discriminate. }
  destruct (help o).
  { rewrite bind_emit. intros H. inversion H; subst. left.
    split; [reflexivity|]. split; [|discriminate].
    eexists [_]. split; [reflexivity|]. intros [Hx|[]]. discriminate. }
  destruct (version o).
  { rewrite bind_emit. intros H. inversion H; subst. left.
    split; [reflexivity|]. split; [|discriminate].
    eexists [_]. split; [reflexivity|]. intros [Hx|[]]. discriminate. }
  rewrite bind_emit. intros H.
  apply bind_inv in H as [(sel & w1 & H1 & H)|(e & H1 & ->)];
    apply selectTarget_inv in H1 as (Hfs1 & Hev1); cbn [fs events] in Hfs1, Hev1.
  2:{ left. split; [exact Hfs1|]. split; [|discriminate].
      destruct Hev1 as [(E & _)|[(_ & E & _)|(_ & E & _)]]; rewrite E.
      - eexists [_]. split; [reflexivity|]. intros [Hx|[]]. discriminate.
      - eexists [_; _]. split; [reflexivity|].
        intros [Hx|[Hx|[]]]; discriminate.
      - eexists [_; _; _]. split; [reflexivity|].
        intros [Hx|[Hx|[Hx|[]]]]; discriminate. }
  assert (Hpre1 : exists pre1,
             events w1 = (pre1 ++ events w)%list
             /\ ~ In (EvUi (units "Scaffolding Bun project")) pre1
             /\ (forall c, sel = Exit c ->
                   c = 0%Z /\ isTTY env = true
                   /\ exists rest,
                        events w1 = EvUi (units "Operation cancelled.") :: rest)).
  { destruct Hev1 as [(E & Hn)|[(_ & E & Hn)|(Ht & E & Hr)]]; rewrite E.
    - eexists [_]. split; [reflexivity|]. split.
      + intros [Hx|[]]. discriminate.
      + intros c ->. now destruct (Hn c).
    - eexists [_; _]. split; [reflexivity|]. split.
      + intros [Hx|[Hx|[]]]; discriminate.
      + intros c ->. now destruct (Hn c).
    - eexists [_; _; _]. split; [reflexivity|]. split.
      + intros [Hx|[Hx|[Hx|[]]]]; discriminate.
      + intros c ->. inversion Hr; subst. eauto. }
  destruct Hpre1 as (pre1 & E1 & Hno1 & Hexit1).
  destruct sel as [[t n]|c].
  2:{ inversion H; subst. left. split; [exact Hfs1|].
      split; [now exists pre1|]. intros c' Hc. inversion Hc; subst.
      now apply Hexit1. }
  unfold scaffoldInto in H. destruct (isBlank n).
  { inversion H; subst. left. split; [exact Hfs1|].
    split; [now exists pre1|]. discriminate. }
  apply bind_inv in H as [(conf & w2 & H2 & H)|(e & H2 & ->)];
    apply confirmOverwrite_inv in H2 as (Hfs2 & Hev2).
  2:{ left. split; [congruence|]. split; [|discriminate].
      destruct Hev2 as [(E & _)|[(_ & E & _)|(_ & E & _)]]; rewrite E, E1.
      - now exists pre1.
      - eexists (_ :: pre1). split; [reflexivity|].
        intros [Hx|Hx]; [discriminate|contradiction].
      - eexists (_ :: _ :: pre1). split; [reflexivity|].
        intros [Hx|[Hx|Hx]]; [discriminate|discriminate|contradiction]. }
  destruct conf as [f|c].
  - right. apply scaffoldAndReport_inv in H as (Hn & new & E).
    split; [|exact Hn].
    assert (E2 : exists pre2, events w2 = (pre2 ++ events w)%list).
    { destruct Hev2 as [(E' & _)|[(_ & E' & _)|(_ & E' & _)]]; rewrite E', E1.
      - now exists pre1.
      - eexists (_ :: pre1). reflexivity.
      - eexists (_ :: _ :: pre1). reflexivity. }
    destruct E2 as (pre2 & E2).
    exists (new ++ EvUi (units "Scaffolding Bun project") :: pre2)%list.
    split; [rewrite E, E2; now rewrite <- app_assoc|].
    apply in_or_app. right. now left.
  - inversion H; subst. left. split; [congruence|].
    destruct Hev2 as [(E & Hn)|[(_ & E & Hn)|(Ht & E & Hr)]].
    + now destruct (Hn c).
    + now destruct (Hn c).
    + inversion Hr; subst. split.
      * rewrite E, E1. eexists (_ :: _ :: pre1). split; [reflexivity|].
        intros [Hx|[Hx|Hx]]; [discriminate|discriminate|contradiction].
      * intros c' Hc. inversion Hc; subst. eauto.
Qed.

(** X10.  On a valid command line the help switch wins over everything
    else and the version switch over everything but help: the process
    prints the help text (or the version, [0.0.0] when the package has
    none), does nothing else, and exits with code 0. *)
Theorem main_help_version argv o w :
  parseArgs argv = Ok o ->
  (In (units "--help") argv \/ In (units "-h") argv ->
   main toLowerCase env argv w
   = (0%Z, mkWorld (fs w) (EvConsoleLog helpText :: events w)))
  /\ (~ (In (units "--help") argv \/ In (units "-h") argv) ->
      In (units "--version") argv \/ In (units "-v") argv ->
      main toLowerCase env argv w
      = (0%Z, mkWorld (fs w)
                (EvConsoleLog (orDefault (packageVersion env) (units "0.0.0"))
                 :: events w))).
Proof.
  intros H. pose proof (@parseLoop_flags _ _ _ (@parseArgs_Ok_loop _ _ H))
    as (Hh & Hv & _).
  cbn in Hh, Hv. unfold isHelpFlag in Hh. unfold isVersionFlag in Hv.
  unfold main, run. rewrite H. split.
  - intros Hin. apply existsb_literals in Hin. rewrite Hh, Hin. reflexivity.
  - intros Hno Hin. apply existsb_literals in Hin.
    destruct (help o) eqn:Eh.
    { exfalso. apply Hno. apply existsb_literals. now rewrite <- Hh. }
    rewrite Hv, Hin. reflexivity.
Qed.

(** X11.  The process exits with code 0 or 1.  The code is 1 exactly when
    [run] throws, and then the last thing the process does is to print
    [Error: <message>] on the error stream; in particular a cancelled
    question exits with code 0. *)
Theorem main_exit_code argv w :
  (fst (main toLowerCase env argv w) = 0%Z
   \/ fst (main toLowerCase env argv w) = 1%Z)
  /\ (fst (main toLowerCase env argv w) = 1%Z
      <-> exists e w', run toLowerCase env argv w = (Err e, w'))
  /\ (forall e w',
        run toLowerCase env argv w = (Err e, w') ->
        snd (main toLowerCase env argv w)
        = mkWorld (fs w')
            (EvConsoleError (units "Error: " ++ message e) :: events w')).
Proof.
  unfold main.
  destruct (run toLowerCase env argv w) as [[[|c]|e] w'] eqn:H; cbn [fst snd].
  - split; [now left|]. split; [|discriminate].
    split; [discriminate|]. intros (e & w2 & Hx). discriminate.
  - destruct (@run_before_scaffold _ _ _ _ H) as [(_ & _ & Hc)|(_ & Hn)].
    + destruct (Hc c eq_refl) as (-> & _).
      split; [now left|]. split; [|discriminate].
      split; [discriminate|]. intros (e & w2 & Hx). discriminate.
    + now destruct (Hn c).
  - split; [now right|]. split.
    + split; [eauto|reflexivity].
    + intros e' w2 Hx. now inversion Hx.
Qed.

(** X13.  [run] changes the file system only once it has announced the
    scaffold: a run that never shows [Scaffolding Bun project] - a
    rejected command line, help, version, a refusal, a cancelled or
    declined question - leaves every file and directory as it was. *)
Theorem run_writes_only_when_scaffolding argv w r w' new :
  run toLowerCase env argv w = (r, w') ->
  events w' = (new ++ events w)%list ->
  ~ In (EvUi (units "Scaffolding Bun project")) new ->
  fs w' = fs w.
Proof.
  intros H E Hno.
  destruct (@run_before_scaffold _ _ _ _ H) as [(Hfs & _)|((new' & E' & Hin) & _)];
    [exact Hfs|].
  rewrite E in E'. apply app_inv_tail in E'. now subst.
Qed.

Lemma emits_emit P e : P e = true -> emits P (emit e).
Proof.
  intros He w r w' H. inversion H; subst. exists [e]. cbn. now rewrite He.
Qed.

Lemma emits_isDirectoryEmpty P dir : emits P (isDirectoryEmpty env dir).
Proof.
  intros w r w' H. apply isDirectoryEmpty_pure in H. subst. now exists [].
Qed.

Lemma emits_scaffoldProject P o :
  (forall e, uiEvent e = false -> P e = true) ->
  emits P (scaffoldProject toLowerCase env o).
Proof.
  intros HP w r w' H. apply scaffoldProject_grows in H as (new & E & F).
  exists new. split; [exact E|]. revert F. apply forallb_impl.
  intros e He. apply HP. now destruct (uiEvent e).
Qed.

Lemma created_not_prompt dir :
  promptEvent (EvUi (units "Created Bun project in " ++ dir)) = false.
Proof.
  unfold promptEvent. apply orb_false_iff. split.
  - apply eqb_neq. cbn. congruence.
  - reflexivity.
Qed.

(** Without a terminal no question is asked. *)
Lemma run_emits_no_prompt argv :
  isTTY env = false ->
  emits (fun e => negb (promptEvent e)) (run toLowerCase env argv).
Proof.
  intros Htty. unfold run. destruct (parseArgs argv) as [o|e];
    [|apply emits_throw].
  destruct (help o).
  { apply emits_bind; [now apply emits_emit|]. intros _. apply emits_ret. }
  destruct (version o).
  { apply emits_bind; [now apply emits_emit|]. intros _. apply emits_ret. }
  apply emits_bind; [now apply emits_emit|]. intros _.
  apply emits_bind.
  { unfold selectTarget. destruct (pathArg o); [apply emits_ret|].
    destruct (projectNameArg o); [apply emits_ret|].
    apply emits_bind; [apply emits_isDirectoryEmpty|]. intros empty.
    rewrite Htty. cbn [negb].
    apply emits_cond; [apply emits_throw|apply emits_ret]. }
  intros [[t n]|c]; [|apply emits_ret].
  unfold scaffoldInto. apply emits_cond; [apply emits_throw|].
  apply emits_bind.
  { unfold confirmOverwrite.
    apply emits_bind; [apply emits_isDirectoryEmpty|]. intros empty.
    rewrite Htty. cbn [negb].
    apply emits_cond; [apply emits_throw|apply emits_ret]. }
  intros [f|c]; [|apply emits_ret].
  unfold scaffoldAndReport.
  apply emits_bind; [now apply emits_emit|]. intros _.
  apply emits_bind.
  { apply emits_scaffoldProject. now intros []. }
  intros res.
  apply emits_bind; [now apply emits_emit|]. intros _.
  apply emits_bind.
  { apply emits_emit. now rewrite created_not_prompt. }
  intros _.
  apply emits_bind.
  { apply emits_emit. now destruct (installedDependencies res). }
  intros _.
  apply emits_bind; [now apply emits_emit|]. intros _. apply emits_ret.
Qed.

(** X14.  Without a terminal on standard input [run] is not interactive:
    it asks neither for the project name nor whether to overwrite, and
    it never ends the process by a cancelled question - it returns or
    throws. *)
Theorem run_non_interactive argv w r w' :
  isTTY env = false ->
  run toLowerCase env argv w = (r, w') ->
  (forall c, r <> Ok (Exited c))
  /\ exists new,
       events w' = (new ++ events w)%list
       /\ forallb (fun e => negb (promptEvent e)) new = true.
Proof.
  intros Htty H. split.
  - intros c ->.
    destruct (@run_before_scaffold _ _ _ _ H) as [(_ & _ & Hc)|(_ & Hn)].
    + destruct (Hc c eq_refl) as (_ & Ht & _). congruence.
    + now destruct (Hn c).
  - exact (@run_emits_no_prompt argv Htty _ _ _ H).
Qed.

End RunProperties.

Section RunWitnesses.

Import Cli.

Lemma main_help_version_witness :
  main asciiToLowerCase Demo.env
    [units "app"; units "--version"; units "-h"] Demo.world
  = (0%Z, mkWorld (fs Demo.world) [EvConsoleLog helpText])
  /\ main asciiToLowerCase Demo.env
       [units "-v"; units "--force"] Demo.world
     = (0%Z, mkWorld (fs Demo.world) [EvConsoleLog (units "0.0.0")]).
Proof.
  split.
  - apply (proj1 (@main_help_version asciiToLowerCase Demo.env
                    [units "app"; units "--version"; units "-h"] _ Demo.world
                    eq_refl)).
    right. right. right. left. reflexivity.
  - apply (proj2 (@main_help_version asciiToLowerCase Demo.env
                    [units "-v"; units "--force"] _ Demo.world eq_refl)).
    + intros [[H|[H|[]]]|[H|[H|[]]]]; discriminate.
    + right. left. reflexivity.
Defined.

Lemma run_writes_only_when_scaffolding_witness :
  exists r w',
    run asciiToLowerCase Demo.env [units "full"] Demo.world = (r, w')
    /\ r = Err (Error (units "Target directory is not empty: /work/full. Use --force to overwrite."))
    /\ fs w' = fs Demo.world.
Proof.
  eexists. eexists. split; [reflexivity|]. split; [reflexivity|].
  apply (@run_writes_only_when_scaffolding asciiToLowerCase Demo.env
           [units "full"] Demo.world _ _ [EvUi (units "new")] eq_refl).
  - reflexivity.
  - intros [H|[]]. discriminate.
Defined.

Lemma run_non_interactive_witness :
  exists r w',
    run asciiToLowerCase Demo.env [units "full"] Demo.world = (r, w')
    /\ r = Err (Error (units "Target directory is not empty: /work/full. Use --force to overwrite."))
    /\ (forall c, r <> Ok (Exited c))
    /\ exists new,
         events w' = (new ++ events Demo.world)%list
         /\ forallb (fun e => negb (promptEvent e)) new = true.
Proof.
  eassert (H : run asciiToLowerCase Demo.env [units "full"] Demo.world
               = (_, _)) by (vm_compute; reflexivity).
  eexists. eexists. split; [exact H|]. split; [reflexivity|].
  exact (@run_non_interactive asciiToLowerCase Demo.env [units "full"]
           Demo.world _ _ eq_refl H).
Defined.

End RunWitnesses.

Lemma bind_ok_inv {A B} (m : M A) (k : A -> M B) w b w' :
  bind m k w = (Ok b, w') ->
  exists a w1, m w = (Ok a, w1) /\ k a w1 = (Ok b, w').
Proof.
  intros H. apply bind_inv in H as [H|(e & _ & H)]; [exact H|discriminate].
Qed.

(** ** scaffoldProject: the clone and the processes of a run *)

Section CloneProperties.

Variable toLowerCase : jsstring -> jsstring.
Variable env : Env.

Lemma cloneTemplateRepo_inv repo s w r w1 :
  cloneTemplateRepo env repo s w = (r, w1) ->
  exists out,
    events w1 = EvSpawn (cloneCommand repo s) None out :: events w
    /\ r = match out with
           | Ok (c, err) =>
               if (c =? 0)%Z then Ok tt else Err (cloneFailure c err)
           | Err e => Err e
           end.
Proof.
  unfold cloneTemplateRepo, runCommand, cloneCommand, cloneFailure.
  cbn [orDefault quiet commandCwd negb].
  unfold bind at 1 2, spawn.
  destruct (spawnProcess env _ None (fs w)) as [[[c err]|e] fs1]; cbn [ret].
  - intros H. exists (Ok (c, err)). destruct (c =? 0)%Z; cbn [negb] in H |- *;
      inversion H; subst; cbn [events]; split; try reflexivity.
    now destruct (isEmpty (trim err)).
  - intros H. inversion H; subst. exists (Err e). now split.
Qed.

Lemma emits_observed P {A} (ev : result A -> event) (m : M A) :
  emits P m -> (forall r, P (ev r) = true) -> emits P (observed ev m).
Proof.
  intros Hm Hev w r w' H. unfold observed in H.
  destruct (m w) as [r1 w1] eqn:E. inversion H; subst.
  destruct (Hm _ _ _ E) as (new & E1 & F). exists (ev r :: new).
  cbn. now rewrite E1, Hev, F.
Qed.

Lemma emits_callback P f t : emits P (callback f t).
Proof.
  intros w r w' H. unfold callback in H. destruct (f t (fs w)) as [r1 fs1].
  inversion H; subst. now exists [].
Qed.

Lemma emits_runBunInstall P t :
  (forall e, bunInstallEvent t e = true -> P e = true) ->
  emits P (runBunInstall env t).
Proof.
  intros HP w r w' H. apply runBunInstall_events in H as (inner & E & F & _).
  exists inner. split; [exact E|]. revert F. now apply forallb_impl.
Qed.

Lemma emits_applyTemplateTokens_writes P paths name :
  (forall p text, P (EvWrite p text) = true) ->
  emits P (applyTemplateTokens toLowerCase env paths name).
Proof.
  intros HP. unfold applyTemplateTokens. apply emits_promiseAll.
  apply Forall_forall. intros task Hin. apply in_map_iff in Hin as (p & <- & _).
  unfold rewriteTokens. apply emits_cond; [apply emits_ret|].
  apply emits_bind; [apply emits_readText|]. intros original.
  apply emits_cond; [now apply emits_writeText|apply emits_ret].
Qed.

Lemma mkdtemp_value prefix w s w1 :
  mkdtemp env prefix w = (Ok s, w1) ->
  s = (prefix ++ tmpSuffix (tmpSeed env))%list.
Proof.
  unfold mkdtemp. intros H. apply bind_ok_inv in H as (u & w2 & _ & H).
  now inversion H.
Qed.

(** The events of a run, with the clone in its place. *)
Lemma scaffoldProject_trace o w r w' :
  scaffoldProject toLowerCase env o w = (r, w') ->
  let t := resolve (cwd env) [targetDir o] in
  let repo := orDefault (templateRepo o) DEFAULT_TEMPLATE_REPO in
  (exists e, r = Err e
             /\ (events w' = events w \/ events w' = EvMkdir t :: events w))
  \/ exists s out rest,
       events w' =
         EvRm s :: rest ++ EvSpawn (cloneCommand repo s) None out
         :: EvMkdtemp s :: EvMkdir t :: events w
       /\ forallb (afterCloneEvent t) rest = true
       /\ match out with
          | Ok (c, err) =>
              c <> 0%Z -> rest = [] /\ r = Err (cloneFailure c err)
          | Err e => rest = [] /\ r = Err e
          end
       /\ s = (resolve (cwd env) [dirname t; units ".new-template-"]
               ++ tmpSuffix (tmpSeed env))%list.
Proof.
  unfold scaffoldProject.
  set (t := resolve (cwd env) [targetDir o]).
  set (repo := orDefault (templateRepo o) DEFAULT_TEMPLATE_REPO).
  destruct (List.length (trim (projectName o)) =? 0)%nat.
  { intros H. inversion H; subst. left. eauto. }
  intros H. apply bind_inv in H as [(empty & w1 & H1 & H)|(e & H1 & ->)].
  2:{ apply isDirectoryEmpty_pure in H1. subst. left. eauto. }
  apply isDirectoryEmpty_pure in H1. subst w1.
  destruct (negb empty && negb (orDefault (force o) false)).
  { inversion H; subst. left. eauto. }
  apply bind_inv in H as [(u & w2 & H2 & H)|(e & H2 & ->)].
  2:{ apply mutate_inv in H2 as [[? _]|(e' & _ & E)]; [discriminate|].
      left. eauto. }
  apply mutate_inv in H2 as [[_ E2]|(e' & ? & _)]; [|discriminate].
  apply bind_inv in H as [(s & w3 & H3 & H)|(e & H3 & ->)].
  2:{ apply mkdtemp_inv in H3 as [(s & ? & _)|(e' & _ & E)]; [discriminate|].
      left. exists e. split; [reflexivity|]. right. now rewrite E, E2. }
  pose proof (mkdtemp_value _ _ H3) as Hs.
  apply mkdtemp_inv in H3 as [(s' & Es & E3 & Hloc)|(e' & ? & _)];
    [|discriminate].
  inversion Es; subst s'. clear Es.
  unfold tryFinally in H.
  match type of H with
  | (let '(_, _) := ?body w3 in _) = _ =>
      destruct (body w3) as [rb w4] eqn:Hbody
  end.
  destruct (rm_removes env s w4) as (w5 & Hrm & E5 & _).
  rewrite Hrm in H. inversion H; subst rb w5. clear H.
  right. exists s.
  apply bind_inv in Hbody as [(u1 & wa & Hc & Hbody)|(e & Hc & ->)];
    apply cloneTemplateRepo_inv in Hc as (out & Ea & Hout).
  - assert (Hrest : exists rest,
               events w4 = (rest ++ events wa)%list
               /\ forallb (afterCloneEvent t) rest = true).
    { revert Hbody. generalize wa r w4.
      change (emits (afterCloneEvent t)
                (rm env (resolve (cwd env) [s; units ".git"]) ;;;
                 templateFiles <- listFilesRecursively env s ;;
                 (let createdFiles :=
                    map (fun filePath =>
                           resolve (cwd env)
                             [t; relative (cwd env) s filePath])
                      templateFiles in
                  cp env s t ;;;
                  applyTemplateTokens toLowerCase env createdFiles
                    (trim (projectName o)) ;;;
                  installedDependencies <-
                    (if orDefault (install o) true then
                       exitCode <- observed (EvRunInstall t)
                                     (match runInstall o with
                                      | Some f => callback f
                                      | None => runBunInstall env
                                      end t) ;;
                       if negb (exitCode =? 0)%Z then
                         throw (Error (units "bun install failed with exit code "
                                       ++ ofZ exitCode ++ units "."))
                       else ret true
                     else ret false) ;;
                  ret (mkScaffoldResult createdFiles installedDependencies
                         (trim (projectName o)) t)))).
      apply emits_bind; [now apply emits_rm|]. intros _.
      apply emits_bind; [apply emits_listFilesRecursively|]. intros files.
      apply emits_bind; [now apply emits_cp|]. intros _.
      apply emits_bind; [now apply emits_applyTemplateTokens_writes|]. intros _.
      apply emits_bind; [|intros i; apply emits_ret].
      apply emits_cond; [|apply emits_ret].
      apply emits_bind.
      - apply emits_observed; [|reflexivity].
        destruct (runInstall o); [apply emits_callback|].
        apply emits_runBunInstall. intros e He.
        unfold afterCloneEvent. now destruct e.
      - intros c. apply emits_cond; [apply emits_throw|apply emits_ret]. }
    destruct Hrest as (rest & E4 & F). exists out, rest.
    split; [now rewrite E5, E4, Ea, E3, E2|]. split; [exact F|].
    split; [|exact Hs].
    destruct out as [[c err]|e]; [|discriminate].
    intros Hc. apply Z.eqb_neq in Hc. rewrite Hc in Hout. discriminate.
  - exists out, []. split; [now rewrite E5, Ea, E3, E2|].
    split; [reflexivity|]. split; [|exact Hs].
    destruct out as [[c err]|e'].
    + intros _. split; [reflexivity|].
      destruct (c =? 0)%Z; [discriminate|]. now inversion Hout.
    + split; [reflexivity|]. now inversion Hout.
Qed.

Lemma afterClone_spawn t cmd d out :
  afterCloneEvent t (EvSpawn cmd d out) = true ->
  d = Some t /\ cmd = [units "bun"; units "install"].
Proof.
  unfold afterCloneEvent, bunInstallEvent. destruct d as [d|]; [|discriminate].
  intros H. apply andb_true_iff in H as [Hd Hc]. apply eqb_eq in Hd. subst d.
  split; [reflexivity|].
  now destruct (list_eq_dec (list_eq_dec N.eq_dec) cmd
                  [units "bun"; units "install"]).
Qed.

(** X15.  When [git clone] ends with a non-zero exit code [scaffoldProject]
    throws [git clone failed with exit code <code>.], followed by what
    [git] wrote on its error stream, trimmed, when that is not blank.
    All the run has done by then is to create the target directory, to
    create the staging directory, to run [git] and to remove the staging
    directory: nothing is copied, no file is rewritten, nothing is
    installed. *)
Theorem scaffoldProject_clone_failure o w r w' new cmd c err :
  scaffoldProject toLowerCase env o w = (r, w') ->
  events w' = (new ++ events w)%list ->
  In (EvSpawn cmd None (Ok (c, err))) new ->
  c <> 0%Z ->
  r = Err (cloneFailure c err)
  /\ exists s,
       cmd = cloneCommand (orDefault (templateRepo o) DEFAULT_TEMPLATE_REPO) s
       /\ new = [EvRm s; EvSpawn cmd None (Ok (c, err)); EvMkdtemp s;
                 EvMkdir (resolve (cwd env) [targetDir o])].
Proof.
  intros H Enew Hin Hc. apply scaffoldProject_trace in H. cbv zeta in H.
  destruct H as [(e & _ & [E|E])|(s & out & rest & E & F & Hout & _)].
  - rewrite E in Enew. change (events w) with ([] ++ events w)%list in Enew at 1.
    apply app_inv_tail in Enew. subst new. contradiction.
  - rewrite E in Enew.
    change (?x :: events w) with ([x] ++ events w)%list in Enew.
    apply app_inv_tail in Enew. subst new. destruct Hin as [Hin|[]].
    discriminate.
  - assert (Hnew : new = (EvRm s :: rest
                          ++ [EvSpawn (cloneCommand
                                         (orDefault (templateRepo o)
                                            DEFAULT_TEMPLATE_REPO) s) None out;
                              EvMkdtemp s;
                              EvMkdir (resolve (cwd env) [targetDir o])])%list).
    { apply app_inv_tail with (events w). rewrite <- Enew, E. simpl.
      now rewrite <- app_assoc. }
    subst new. destruct Hin as [Hin|Hin]; [discriminate|].
    apply in_app_or in Hin as [Hin|Hin].
    + pose proof (forallb_In _ _ _ F Hin) as Hx.
      apply afterClone_spawn in Hx as [Hx _]. discriminate.
    + destruct Hin as [Hin|[Hin|[Hin|[]]]]; try discriminate.
      inversion Hin; subst. destruct (Hout Hc) as [-> ->].
      split; [reflexivity|]. now exists s.
Qed.

(** X16.  The only processes a run of [scaffoldProject] starts are
    [git clone --depth 1 --quiet <template> <staging directory>], without
    a working directory, for the template of the options (or the default
    one) and the staging directory the run has made, and [bun install]
    in the target directory. *)
Theorem scaffoldProject_processes o w r w' new cmd d out :
  scaffoldProject toLowerCase env o w = (r, w') ->
  events w' = (new ++ events w)%list ->
  In (EvSpawn cmd d out) new ->
  (d = None
   /\ exists s,
        cmd = cloneCommand (orDefault (templateRepo o) DEFAULT_TEMPLATE_REPO) s
        /\ In (EvMkdtemp s) new)
  \/ (d = Some (resolve (cwd env) [targetDir o])
      /\ cmd = [units "bun"; units "install"]).
Proof.
  intros H Enew Hin. apply scaffoldProject_trace in H. cbv zeta in H.
  destruct H as [(e & _ & [E|E])|(s & out' & rest & E & F & _ & _)].
  - rewrite E in Enew. change (events w) with ([] ++ events w)%list in Enew at 1.
    apply app_inv_tail in Enew. subst new. contradiction.
  - rewrite E in Enew.
    change (?x :: events w) with ([x] ++ events w)%list in Enew.
    apply app_inv_tail in Enew. subst new. destruct Hin as [Hin|[]].
    discriminate.
  - assert (Hnew : new = (EvRm s :: rest
                          ++ [EvSpawn (cloneCommand
                                         (orDefault (templateRepo o)
                                            DEFAULT_TEMPLATE_REPO) s) None out';
                              EvMkdtemp s;
                              EvMkdir (resolve (cwd env) [targetDir o])])%list).
    { apply app_inv_tail with (events w). rewrite <- Enew, E. simpl.
      now rewrite <- app_assoc. }
    subst new. destruct Hin as [Hin|Hin]; [discriminate|].
    apply in_app_or in Hin as [Hin|Hin].
    + right. pose proof (forallb_In _ _ _ F Hin) as Hx.
      now apply afterClone_spawn in Hx.
    + destruct Hin as [Hin|[Hin|[Hin|[]]]]; try discriminate.
      inversion Hin; subst. left. split; [reflexivity|]. exists s.
      split; [reflexivity|]. right. apply in_or_app. right. right. now left.
Qed.

End CloneProperties.

Lemma scaffoldProject_clone_failure_witness :
  fst (scaffoldProject asciiToLowerCase Offline.env
         (Demo.options "My App!" "empty" None None) Demo.world)
  = Err (Error (units "git clone failed with exit code 128. fatal: unable to access the repository")).
Proof.
  refine (proj1 (@scaffoldProject_clone_failure asciiToLowerCase Offline.env
           (Demo.options "My App!" "empty" None None) Demo.world _ _
           (events (snd (scaffoldProject asciiToLowerCase Offline.env
                           (Demo.options "My App!" "empty" None None)
                           Demo.world)))
           (cloneCommand DEFAULT_TEMPLATE_REPO Demo.staging) 128%Z
           (units "fatal: unable to access the repository
")
           (surjective_pairing _) _ _ _)).
  - symmetry. apply app_nil_r.
  - vm_compute. right. left. reflexivity.
  - discriminate.
Defined.

Lemma scaffoldProject_processes_witness :
  (None = @None jsstring
   /\ exists s,
        cloneCommand DEFAULT_TEMPLATE_REPO Demo.staging
        = cloneCommand DEFAULT_TEMPLATE_REPO s
        /\ In (EvMkdtemp s) (events (snd Demo.failingInstall)))
  \/ (@None jsstring = Some (units "/work/bad")
      /\ cloneCommand DEFAULT_TEMPLATE_REPO Demo.staging
         = [units "bun"; units "install"]).
Proof.
  unfold Demo.failingInstall.
  apply (@scaffoldProject_processes asciiToLowerCase Demo.env
           (Demo.options "My App!" "bad" (Some true) None) Demo.world _ _
           _ (cloneCommand DEFAULT_TEMPLATE_REPO Demo.staging) None
           (Ok (0%Z, [])) (surjective_pairing _)).
  - symmetry. apply app_nil_r.
  - vm_compute. repeat first [left; reflexivity | right].
Defined.

(** ** scaffoldProject: what a successful run reports *)

(** X17.  A run of [scaffoldProject] that returns reports the target
    directory as an absolute path (the given one resolved against the
    working directory), the project name without the white space around
    it, which is not empty, and whether the dependencies were installed,
    which is so unless [install] was [false]. *)
Theorem scaffoldProject_result (toLowerCase : jsstring -> jsstring)
  (env : Env) o w res w' :
  scaffoldProject toLowerCase env o w = (Ok res, w') ->
  resultTargetDir res = resolve (cwd env) [targetDir o]
  /\ resultProjectName res = trim (projectName o)
  /\ trim (projectName o) <> []
  /\ installedDependencies res = orDefault (install o) true.
Proof.
  intros H. pose proof (run_ok_installed _ _ _ _ H) as Hi.
  revert H. unfold scaffoldProject.
  destruct (trim (projectName o)) as [|c name] eqn:En; [discriminate|].
  cbn [List.length Nat.eqb]. rewrite <- En. intros H.
  apply bind_ok_inv in H as (empty & w1 & _ & H).
  destruct (negb empty && negb (orDefault (force o) false)); [discriminate|].
  apply bind_ok_inv in H as (u & w2 & _ & H).
  apply bind_ok_inv in H as (s & w3 & _ & H).
  unfold tryFinally in H.
  match type of H with
  | (let '(_, _) := ?body w3 in _) = _ =>
      destruct (body w3) as [rb w4] eqn:Hbody
  end.
  destruct (rm_removes env s w4) as (w5 & Hrm & _).
  rewrite Hrm in H. inversion H; subst rb w5. clear H.
  apply bind_ok_inv in Hbody as (u1 & wa & _ & H).
  apply bind_ok_inv in H as (u2 & wb & _ & H).
  apply bind_ok_inv in H as (files & wc & _ & H).
  apply bind_ok_inv in H as (u3 & wd & _ & H).
  apply bind_ok_inv in H as (u4 & we & _ & H).
  apply bind_ok_inv in H as (installed & wf & _ & H).
  inversion H; subst. cbn in Hi |- *.
  split; [reflexivity|]. split; [reflexivity|]. split; [|exact Hi].
  rewrite En. discriminate.
Qed.

Lemma scaffoldProject_result_witness :
  exists res w',
    scaffoldProject asciiToLowerCase Demo.env
      (Demo.options "My App!" "empty" None (Some false)) Demo.world
    = (Ok res, w')
    /\ resultTargetDir res = units "/work/empty"
    /\ resultProjectName res = units "My App!"
    /\ installedDependencies res = false.
Proof.
  eassert (H : scaffoldProject asciiToLowerCase Demo.env
                 (Demo.options "My App!" "empty" None (Some false)) Demo.world
               = (Ok _, _)) by (vm_compute; reflexivity).
  eexists. eexists. split; [exact H|].
  destruct (@scaffoldProject_result _ _ _ _ _ _ H) as (Ht & Hn & _ & Hi).
  split; [exact Ht|]. split; [exact Hn|exact Hi].
Defined.

(** ** listFilesRecursively: what the listing holds *)

Section ListingFurther.

Variable env : Env.

Lemma resolve_child (dir nm : jsstring) :
  plainName nm = true ->
  resolve (cwd env) [dir; nm] = SLASH :: join (locate env dir ++ [nm]).
Proof.
  intros Hn. destruct (resolve_entry env dir nm Hn) as (L & HL & E1 & E2).
  rewrite E2. do 3 f_equal. unfold locate. rewrite E1. symmetry.
  apply segments_root_join.
  eapply Forall_impl; [|exact HL]. apply plainName_clean.
Qed.

Lemma listFilesRecursivelyAt_lists depth :
  forall dir es w,
    Fs.lookupNode dir (locate env dir) (fs w) = Ok (Dir es) ->
    wellFormed (Dir es) ->
    (height (Dir es) <= depth)%nat ->
    listFilesRecursivelyAt env depth dir w
    = (Ok (treeFiles (locate env dir) (Dir es)), w).
Proof.
  induction depth as [|d IH]; intros dir es w Hdir Hwf Hh.
  - cbn [height] in Hh. lia.
  - cbn [listFilesRecursivelyAt].
    rewrite (@bind_ok _ _ _ _ _ _ _ (@readdirTypes_dir env dir es w Hdir)).
    inversion Hwf as [|? Hnd Hes]; subst.
    match goal with
    | |- ?each _ [] w = _ =>
        assert (Hall : forall suffix files,
                  (forall name child, In (name, child) suffix ->
                                      In (name, child) es) ->
                  each (map (fun e => mkDirent (fst e) (Fs.isDir (snd e)))
                          suffix) files w
                  = (Ok (files ++ treeFiles (locate env dir) (Dir suffix)), w))
    end.
    { induction suffix as [|[nm child] rest IHs]; intros files Hsub.
      - cbn. now rewrite app_nil_r.
      - assert (Hin : In (nm, child) es) by (apply Hsub; now left).
        assert (Hrest : forall n c, In (n, c) rest -> In (n, c) es)
          by (intros n c Hc; apply Hsub; now right).
        destruct (Hes _ _ Hin) as [Hname Hchild].
        change (treeFiles (locate env dir) (Dir ((nm, child) :: rest)))
          with (treeFiles (locate env dir ++ [nm]) child
                ++ treeFiles (locate env dir) (Dir rest))%list.
        cbn [map fst snd name isDirectory].
        destruct child as [t|es']; cbn [Fs.isDir].
        + rewrite (IHs _ Hrest). rewrite (@resolve_child dir nm Hname).
          cbn [treeFiles]. now rewrite <- app_assoc.
        + assert (Hsubdir :
            Fs.lookupNode (resolve (cwd env) [dir; nm])
              (locate env (resolve (cwd env) [dir; nm])) (fs w)
            = Ok (Dir es')).
          { rewrite (@locate_entry env dir nm Hname).
            apply lookupNode_entry with dir es; [exact Hdir|].
            now apply In_assoc. }
          assert (Hd : (height (Dir es') <= d)%nat).
          { apply height_entry in Hin. lia. }
          rewrite (@bind_ok _ _ _ _ _ _ _ (@IH _ _ w Hsubdir Hchild Hd)).
          rewrite (IHs _ Hrest), (@locate_entry env dir nm Hname).
          now rewrite <- app_assoc. }
    rewrite Hall by auto. reflexivity.
Qed.

(** X18.  On a file system whose directories hold distinct, proper names,
    the listing of a directory returns the absolute path of every file
    below it and of nothing else - no directory, however deep the files
    lie - in the order of the directory listings, the files of a
    subdirectory in the place of the subdirectory; the world is left as
    it was. *)
Theorem listFilesRecursively_lists dir es w :
  wellFormed (fs w) ->
  Fs.lookupNode dir (locate env dir) (fs w) = Ok (Dir es) ->
  listFilesRecursively env dir w
  = (Ok (treeFiles (locate env dir) (Dir es)), w).
Proof.
  intros Hwf Hdir. unfold listFilesRecursively.
  apply listFilesRecursivelyAt_lists; [exact Hdir| |].
  - eapply wellFormed_lookup; eauto.
  - apply height_lookup in Hdir. lia.
Qed.

End ListingFurther.

Ltac distinct_names :=
  cbn; repeat constructor; cbn; intuition discriminate.

Ltac well_formed :=
  apply wellFormed_dir;
  [ distinct_names
  | let name := fresh "name" in
    let child := fresh "child" in
    let Hin := fresh "Hin" in
    intros name child Hin; cbn in Hin;
    repeat (destruct Hin as [Hin|Hin];
            [inversion Hin; subst; split;
             [reflexivity|first [apply wellFormed_file|well_formed]]|]);
    contradiction ].

Lemma wellFormed_world : wellFormed (fs Demo.world).
Proof. cbn [fs Demo.world]. well_formed. Defined.

Lemma listFilesRecursively_lists_witness :
  listFilesRecursively Demo.env (units "/work") Demo.world
  = (Ok [units "/work/full/notes.txt"; units "/work/file";
         units "/work/bad/broken"], Demo.world).
Proof.
  exact (@listFilesRecursively_lists Demo.env (units "/work") _ Demo.world
           wellFormed_world eq_refl).
Defined.

(** ** applyTemplateTokens: what is written, and what is not *)

Section TokenProperties.

Variable toLowerCase : jsstring -> jsstring.
Variable env : Env.

Lemma emits_tokenWrite paths name pkg path :
  In path paths ->
  emits (tokenWrite paths) (rewriteTokens env name pkg path).
Proof.
  intros Hin. unfold rewriteTokens.
  destruct (negb (hasExtension (extname path))
            && negb (endsWith path (units ".gitignore"))) eqn:Ec;
    [apply emits_ret|].
  apply emits_bind; [apply emits_readText|]. intros original.
  apply emits_cond; [|apply emits_ret].
  apply emits_writeText. unfold tokenWrite. apply andb_true_iff. split.
  - apply existsb_exists. exists path. split; [exact Hin|apply eqb_refl].
  - destruct (hasExtension (extname path)); [reflexivity|].
    now destruct (endsWith path (units ".gitignore")).
Qed.

(** X19.  The token rewriting changes the world by writes only, each to
    one of the paths it was given, and only to a path with a text
    extension or one that ends in [.gitignore]. *)
Theorem applyTemplateTokens_writes paths name w r w' :
  applyTemplateTokens toLowerCase env paths name w = (r, w') ->
  exists new,
    events w' = (new ++ events w)%list
    /\ forall e, In e new ->
         exists path text,
           e = EvWrite path text /\ In path paths
           /\ (hasExtension (extname path) = true
               \/ endsWith path (units ".gitignore") = true).
Proof.
  intros H.
  assert (Hm : emits (tokenWrite paths)
                 (applyTemplateTokens toLowerCase env paths name)).
  { unfold applyTemplateTokens. apply emits_promiseAll.
    apply Forall_forall. intros task Hin.
    apply in_map_iff in Hin as (p & <- & Hp). now apply emits_tokenWrite. }
  destruct (Hm _ _ _ H) as (new & E & F). exists new. split; [exact E|].
  intros e He. pose proof (forallb_In _ _ _ F He) as Hx.
  destruct e; try discriminate. unfold tokenWrite in Hx.
  apply andb_true_iff in Hx as [Hp Hext].
  apply existsb_exists in Hp as (p & Hp & Eq). apply eqb_eq in Eq. subst p.
  apply orb_true_iff in Hext. eauto.
Qed.

Lemma replaceAll_absent s search replacement :
  includes s search = false -> replaceAll s search replacement = s.
Proof.
  unfold replaceAll. generalize (@nil N) as seen.
  induction s as [|c s IH]; intros seen H.
  - destruct search; [discriminate|reflexivity].
  - cbn [includes] in H. apply orb_false_iff in H as [Hs Hi].
    cbn [replaceAllFrom]. rewrite Hs. now rewrite IH.
Qed.

Lemma rewriteTokens_absent name pkg path original w :
  readText env path w = (Ok original, w) ->
  includes original PROJECT_NAME_TOKEN = false ->
  includes original PACKAGE_NAME_TOKEN = false ->
  rewriteTokens env name pkg path w = (Ok tt, w).
Proof.
  intros Hread H1 H2. unfold rewriteTokens.
  destruct (negb (hasExtension (extname path))
            && negb (endsWith path (units ".gitignore"))); [reflexivity|].
  rewrite (@bind_ok _ _ _ _ _ _ _ Hread).
  rewrite (@replaceAll_absent original PROJECT_NAME_TOKEN name H1).
  rewrite (@replaceAll_absent original PACKAGE_NAME_TOKEN pkg H2).
  now rewrite eqb_refl.
Qed.

(** X20.  Files without a placeholder are not rewritten: when every listed
    path is outside the text files, or is a file that holds neither
    [__PROJECT_NAME__] nor [__PACKAGE_NAME__], the token rewriting
    succeeds and leaves the world as it was - no write at all -
    whatever the project name. *)
Theorem applyTemplateTokens_without_tokens paths name w :
  (forall path, In path paths ->
     (hasExtension (extname path) = false
      /\ endsWith path (units ".gitignore") = false)
     \/ exists original,
          readText env path w = (Ok original, w)
          /\ includes original PROJECT_NAME_TOKEN = false
          /\ includes original PACKAGE_NAME_TOKEN = false) ->
  applyTemplateTokens toLowerCase env paths name w = (Ok tt, w).
Proof.
  unfold applyTemplateTokens.
  induction paths as [|p paths IH]; intros H; [reflexivity|].
  cbn [map promiseAll].
  assert (Hp : rewriteTokens env name (normalizePackageName toLowerCase name)
                 p w = (Ok tt, w)).
  { destruct (H p (or_introl eq_refl)) as [[H1 H2]|(original & Hr & H1 & H2)].
    - now rewrite rewriteTokens_other_file.
    - now apply rewriteTokens_absent with original. }
  rewrite Hp. apply IH. intros q Hq. apply H. now right.
Qed.

End TokenProperties.

Lemma applyTemplateTokens_writes_witness :
  exists r w',
    applyTemplateTokens asciiToLowerCase Demo.env
      [units "/work/app/README.md"; units "/work/app/logo.png"]
      (units "My App") Demo.copied = (r, w')
    /\ events w' = [EvWrite (units "/work/app/README.md") (units "# My App")]
    /\ exists new,
         events w' = (new ++ events Demo.copied)%list
         /\ forall e, In e new ->
              exists path text,
                e = EvWrite path text
                /\ In path [units "/work/app/README.md";
                            units "/work/app/logo.png"]
                /\ (hasExtension (extname path) = true
                    \/ endsWith path (units ".gitignore") = true).
Proof.
  eassert (H : applyTemplateTokens asciiToLowerCase Demo.env
                 [units "/work/app/README.md"; units "/work/app/logo.png"]
                 (units "My App") Demo.copied = (_, _))
    by (vm_compute; reflexivity).
  eexists. eexists. split; [exact H|]. split; [reflexivity|].
  exact (@applyTemplateTokens_writes _ _ _ _ _ _ _ H).
Defined.

Lemma applyTemplateTokens_without_tokens_witness :
  applyTemplateTokens asciiToLowerCase Demo.env
    [units "/work/full/notes.txt"; units "/work/app/logo.png"]
    (units "a$$b") Demo.world = (Ok tt, Demo.world).
Proof.
  apply applyTemplateTokens_without_tokens.
  intros path [<-|[<-|[]]].
  - right. exists (units "keep"). repeat split.
  - left. split; reflexivity.
Defined.

(** ** run: the switches reach the scaffold *)

Section RunSwitches.

Variable toLowerCase : jsstring -> jsstring.
Variable env : Env.

Lemma scaffoldProject_no_install o :
  orDefault (install o) true = false ->
  emits (fun e => negb (installEvent e)) (scaffoldProject toLowerCase env o).
Proof.
  intros Hi w r w' H. apply scaffoldProject_run in H.
  destruct H as [e _ ->|e _ E|e _ E|s staged late E F _ Ph].
  - now exists [].
  - now exists [].
  - now exists [EvMkdir (resolve (cwd env) [targetDir o])].
  - assert (Hl : late = []).
    { destruct Ph as [e _ Hl|res _ _ _ Hl|out inner Hi' _ _ _ _ _]; auto.
      congruence. }
    subst late.
    exists ((EvRm s :: staged)
            ++ [EvMkdtemp s; EvMkdir (resolve (cwd env) [targetDir o])])%list.
    split; [rewrite E; simpl; now rewrite <- !app_assoc|].
    rewrite forallb_app. cbn [forallb installEvent negb andb].
    rewrite andb_true_r. revert F. apply forallb_impl.
    intros [] Hx; try reflexivity; try discriminate.
    cbn in Hx |- *. destruct cmd as [|program args]; [reflexivity|].
    destruct cwd0; [discriminate|]. apply eqb_eq in Hx. now subst.
Qed.

Lemma emits_exitCancelled P {A} :
  (forall t, P (EvUi t) = true) -> emits P (@Cli.exitCancelled A).
Proof.
  intros HP. unfold Cli.exitCancelled.
  apply emits_bind; [now apply emits_emit|]. intros _. apply emits_ret.
Qed.

(** The events of [run] are those of the terminal interface, the console,
    and the one call of [scaffoldProject], made with the [install] option
    of the command line. *)
Lemma run_emits P argv o :
  Cli.parseArgs argv = Ok o ->
  (forall t, P (EvUi t) = true) ->
  (forall t, P (EvConsoleLog t) = true) ->
  (forall f t n,
     emits P (scaffoldProject toLowerCase env
                (mkScaffoldOptions (Some f) (Some (Cli.install o)) n
                   None None t))) ->
  emits P (Cli.run toLowerCase env argv).
Proof.
  intros Hparse Hui Hlog Hscaffold. unfold Cli.run. rewrite Hparse.
  destruct (Cli.help o).
  { apply emits_bind; [now apply emits_emit|]. intros _. apply emits_ret. }
  destruct (Cli.version o).
  { apply emits_bind; [now apply emits_emit|]. intros _. apply emits_ret. }
  apply emits_bind; [now apply emits_emit|]. intros _.
  apply emits_bind.
  { unfold Cli.selectTarget. destruct (Cli.pathArg o); [apply emits_ret|].
    destruct (Cli.projectNameArg o); [apply emits_ret|].
    apply emits_bind; [apply emits_isDirectoryEmpty|]. intros empty.
    apply emits_cond; [|apply emits_ret].
    apply emits_cond; [apply emits_throw|].
    apply emits_bind; [now apply emits_emit|]. intros _.
    destruct (textAnswer env); [|now apply emits_exitCancelled].
    apply emits_cond; [now apply emits_exitCancelled|apply emits_ret]. }
  intros [[t n]|c]; [|apply emits_ret].
  unfold Cli.scaffoldInto. apply emits_cond; [apply emits_throw|].
  apply emits_bind.
  { unfold Cli.confirmOverwrite.
    apply emits_bind; [apply emits_isDirectoryEmpty|]. intros empty.
    apply emits_cond; [|apply emits_ret].
    apply emits_cond; [apply emits_throw|].
    apply emits_bind; [now apply emits_emit|]. intros _.
    destruct (confirmAnswer env) as [[|]|];
      [apply emits_ret|apply emits_throw|now apply emits_exitCancelled]. }
  intros [f|c]; [|apply emits_ret].
  unfold Cli.scaffoldAndReport.
  apply emits_bind; [now apply emits_emit|]. intros _.
  apply emits_bind; [apply Hscaffold|]. intros res.
  apply emits_bind; [now apply emits_emit|]. intros _.
  apply emits_bind; [now apply emits_emit|]. intros _.
  apply emits_bind; [now apply emits_emit|]. intros _.
  apply emits_bind; [now apply emits_emit|]. intros _. apply emits_ret.
Qed.

(** X21.  [--no-install] reaches the scaffold: on a valid command line
    that holds it, nothing [run] does is an installation - the install
    runner is not called and no [bun] process is started. *)
Theorem run_no_install argv o w r w' new :
  Cli.parseArgs argv = Ok o ->
  In (units "--no-install") argv ->
  Cli.run toLowerCase env argv w = (r, w') ->
  events w' = (new ++ events w)%list ->
  (forall d out, ~ In (EvRunInstall d out) new)
  /\ (forall args d out, ~ In (EvSpawn (units "bun" :: args) d out) new).
Proof.
  intros Hparse Hin H Enew.
  assert (Hi : Cli.install o = false).
  { pose proof (@parseLoop_flags _ _ _ (@parseArgs_Ok_loop _ _ Hparse))
      as (_ & _ & _ & Hi).
    rewrite Hi. cbn. apply negb_false_iff. apply existsb_exists.
    exists (units "--no-install"). now split. }
  assert (Hm : emits (fun e => negb (installEvent e))
                 (Cli.run toLowerCase env argv)).
  { apply run_emits with o; auto. intros f t n.
    apply scaffoldProject_no_install. cbn. now rewrite Hi. }
  destruct (Hm _ _ _ H) as (new' & E & F).
  rewrite Enew in E. apply app_inv_tail in E. subst new'.
  split.
  - intros d out Hx. now pose proof (forallb_In _ _ _ F Hx).
  - intros args d out Hx. now pose proof (forallb_In _ _ _ F Hx).
Qed.

End RunSwitches.

Lemma run_no_install_witness :
  exists r w',
    Cli.run asciiToLowerCase Demo.env
      [units "empty"; units "--no-install"] Demo.world = (r, w')
    /\ r = Ok Cli.Returned
    /\ (forall d out, ~ In (EvRunInstall d out) (events w'))
    /\ In (EvUi (units "Skipped dependency install (--no-install)"))
         (events w').
Proof.
  eassert (H : Cli.run asciiToLowerCase Demo.env
                 [units "empty"; units "--no-install"] Demo.world = (_, _))
    by (vm_compute; reflexivity).
  eexists. eexists. split; [exact H|]. split; [reflexivity|]. split.
  - refine (proj1 (@run_no_install asciiToLowerCase Demo.env
                     [units "empty"; units "--no-install"] _ Demo.world _ _ _
                     eq_refl _ H _)).
    + right. left. reflexivity.
    + symmetry. apply app_nil_r.
  - cbn. right. left. reflexivity.
Defined.

(** ** scaffoldProject: where the staging directory is made *)

Section StagingProperties.

Variable toLowerCase : jsstring -> jsstring.
Variable env : Env.

Lemma join_snoc_app L (n x : jsstring) :
  (join (L ++ [n]) ++ x)%list = join (L ++ [(n ++ x)%list]).
Proof.
  induction L as [|a L IH]; [reflexivity|].
  destruct L as [|b L'].
  - cbn. now rewrite <- app_assoc.
  - change (join ((a :: b :: L') ++ [n]))
      with (a ++ SLASH :: join ((b :: L') ++ [n]))%list.
    change (join ((a :: b :: L') ++ [(n ++ x)%list]))
      with (a ++ SLASH :: join ((b :: L') ++ [(n ++ x)%list]))%list.
    rewrite <- IH, <- app_assoc. reflexivity.
Qed.

Lemma nth_forallb {A} (P : A -> bool) l k d :
  forallb P l = true -> P d = true -> P (nth k l d) = true.
Proof.
  revert k. induction l as [|a l IH]; intros [|k] Hl Hd; simpl; auto.
  - simpl in Hl. now apply andb_true_iff in Hl as [Ha _].
  - simpl in Hl. apply andb_true_iff in Hl as [_ Hl]. now apply IH.
Qed.

Lemma tmpSuffix_slashFree seed : slashFree (tmpSuffix seed) = true.
Proof.
  unfold slashFree, tmpSuffix. rewrite forallb_forall. intros c Hc.
  apply in_map_iff in Hc as (n & <- & _).
  now apply (nth_forallb (fun c => negb (isSlash c))).
Qed.

Lemma stagingName_plain (suffix : jsstring) :
  slashFree suffix = true ->
  plainName (units ".new-template-" ++ suffix) = true.
Proof.
  intros Hs. unfold plainName, slashFree in *.
  rewrite forallb_app, Hs.
  rewrite (proj2 (eqb_neq _ [DOT])) by (cbn; congruence).
  rewrite (proj2 (eqb_neq _ [DOT; DOT])) by (cbn; congruence).
  reflexivity.
Qed.

(** X22.  The staging directory of a run is made beside the target
    directory: it lies in the parent directory of the target, and its name
    is [.new-template-] followed by the characters [mkdtemp] adds. *)
Theorem scaffoldProject_staging_place o w r w' new s :
  scaffoldProject toLowerCase env o w = (r, w') ->
  events w' = (new ++ events w)%list ->
  In (EvMkdtemp s) new ->
  basename s = (units ".new-template-" ++ tmpSuffix (tmpSeed env))%list
  /\ locate env s
     = (locate env (dirname (resolve (cwd env) [targetDir o]))
        ++ [basename s])%list.
Proof.
  intros H Enew Hin. apply scaffoldProject_trace in H. cbv zeta in H.
  set (t := resolve (cwd env) [targetDir o]) in *.
  destruct H as [(e & _ & [E|E])|(s0 & out & rest & E & F & _ & Hs)].
  - rewrite E in Enew. change (events w) with ([] ++ events w)%list in Enew at 1.
    apply app_inv_tail in Enew. subst new. contradiction.
  - rewrite E in Enew.
    change (?x :: events w) with ([x] ++ events w)%list in Enew.
    apply app_inv_tail in Enew. subst new. destruct Hin as [Hin|[]].
    discriminate.
  - assert (Hnew : new = (EvRm s0 :: rest
                          ++ [EvSpawn (cloneCommand
                                         (orDefault (templateRepo o)
                                            DEFAULT_TEMPLATE_REPO) s0) None out;
                              EvMkdtemp s0; EvMkdir t])%list).
    { apply app_inv_tail with (events w). rewrite <- Enew, E. simpl.
      now rewrite <- app_assoc. }
    assert (Es : s = s0).
    { subst new. destruct Hin as [Hin|Hin]; [discriminate|].
      apply in_app_or in Hin as [Hin|Hin].
      - now pose proof (forallb_In _ _ _ F Hin).
      - destruct Hin as [Hin|[Hin|[Hin|[]]]]; try discriminate.
        now inversion Hin. }
    rewrite Es. clear Hnew Hin E F Es s.
    pose proof (@stagingName_plain _ (tmpSuffix_slashFree (tmpSeed env))) as Hn.
    assert (Hp : plainName (units ".new-template-") = true) by reflexivity.
    destruct (resolve_entry env (dirname t) (units ".new-template-") Hp)
      as (L & HL & E1 & E2).
    assert (Hc : Forall cleanSegment L).
    { eapply Forall_impl; [|exact HL]. apply plainName_clean. }
    assert (Hs' : s0 = SLASH :: join (L ++ [(units ".new-template-"
                                              ++ tmpSuffix (tmpSeed env))%list])).
    { rewrite Hs, E2. cbn [app]. now rewrite join_snoc_app. }
    assert (Hall : Forall (fun x => plainName x = true)
                     (L ++ [(units ".new-template-"
                             ++ tmpSuffix (tmpSeed env))%list])).
    { apply Forall_app. split; [exact HL|]. now repeat constructor. }
    assert (Hb : basename s0
                 = (units ".new-template-" ++ tmpSuffix (tmpSeed env))%list).
    { unfold basename. rewrite Hs', segments_root_join.
      - apply last_last.
      - eapply Forall_impl; [|exact Hall]. apply plainName_clean. }
    split; [exact Hb|]. rewrite Hb.
    rewrite Hs', (@locate_resolved env _ Hall). f_equal.
    unfold locate. rewrite E1. symmetry. now apply segments_root_join.
Qed.

End StagingProperties.

Lemma scaffoldProject_staging_place_witness :
  basename Demo.staging = units ".new-template-He3MDp"
  /\ locate Demo.env Demo.staging
     = [units "work"; units ".new-template-He3MDp"].
Proof.
  refine (@scaffoldProject_staging_place asciiToLowerCase Demo.env
            (Demo.options "My App!" "empty" None (Some false)) Demo.world
            _ _ _ Demo.staging (surjective_pairing _) _ _).
  - symmetry. apply app_nil_r.
  - vm_compute. repeat first [left; reflexivity | right].
Defined.

(** ** scaffoldProject: the paths of the created files *)

Section CreatedFiles.

Variable env : Env.

Lemma dropCommon_app (S R : list jsstring) :
  dropCommon S (S ++ R) = ([], R).
Proof.
  induction S as [|x S IH]; [now destruct R|].
  cbn [dropCommon app]. now rewrite eqb_refl.
Qed.

Lemma fold_join_push L stack :
  Forall (fun s => plainName s = true) L ->
  fold_left normalizeStep (splitOn SLASH (join L)) stack = (rev L ++ stack)%list.
Proof.
  intros HL. destruct L as [|s L']; [reflexivity|].
  rewrite splitOn_join.
  - now apply normalize_fold_push.
  - eapply Forall_impl; [|exact HL]. apply plainName_clean.
  - discriminate.
Qed.

Lemma join_relative R :
  Forall (fun s => plainName s = true) R -> R <> [] ->
  isEmpty (join R) = false /\ isAbsolute (join R) = false.
Proof.
  intros HR Hne. destruct R as [|n R']; [congruence|].
  inversion HR as [|? ? Hn _]; subst.
  pose proof (plainName_slashFree _ Hn) as Hs.
  destruct n as [|c n]; [discriminate|].
  simpl in Hs. apply andb_true_iff in Hs as [Hc _].
  apply negb_true_iff in Hc.
  destruct R'; cbn; now rewrite ?Hc.
Qed.

(** X23.  A template file is reported under the target directory at the
    place it has under the staging directory: for the staging directory
    [/S], the target directory [/T] and the file [/S/R], the path
    [resolve(targetDir, relative(stagingDir, filePath))] of lines 172-174
    is [/T/R]. *)
Theorem createdFile_relocated (S T R : list jsstring) :
  Forall (fun s => plainName s = true) S ->
  Forall (fun s => plainName s = true) T ->
  Forall (fun s => plainName s = true) R ->
  R <> [] ->
  resolve (cwd env)
    [SLASH :: join T;
     relative (cwd env) (SLASH :: join S) (SLASH :: join (S ++ R))]
  = SLASH :: join (T ++ R).
Proof.
  intros HS HT HR Hne.
  assert (HSR : Forall (fun s => plainName s = true) (S ++ R)).
  { apply Forall_app. now split. }
  assert (Hrel : relative (cwd env) (SLASH :: join S) (SLASH :: join (S ++ R))
                 = join R).
  { unfold relative.
    change (segments (resolve (cwd env) [SLASH :: join S]))
      with (locate env (SLASH :: join S)).
    change (segments (resolve (cwd env) [SLASH :: join (S ++ R)]))
      with (locate env (SLASH :: join (S ++ R))).
    rewrite (@locate_resolved env _ HS), (@locate_resolved env _ HSR).
    now rewrite dropCommon_app. }
  rewrite Hrel. destruct (join_relative HR Hne) as [He Ha].
  unfold resolve. cbn [rev app].
  rewrite resolveLoop_head by exact He. rewrite Ha.
  rewrite resolveLoop_head by reflexivity.
  cbn [isAbsolute]. unfold isSlash at 1. rewrite N.eqb_refl.
  replace (((SLASH :: join T) ++ [SLASH]) ++ join R ++ [SLASH])%list
    with (([] ++ SLASH :: join T) ++ SLASH :: (join R ++ SLASH :: []))%list
    by (cbn [app]; now rewrite <- !app_assoc).
  rewrite !splitOn_app. unfold normalizeSegments.
  rewrite !fold_left_app. cbn [splitOn fold_left].
  change (normalizeStep [] []) with (@nil jsstring).
  rewrite (fold_join_push _ HT), (fold_join_push _ HR).
  match goal with
  | |- context [normalizeStep ?st []] =>
      change (normalizeStep st []) with st
  end.
  now rewrite app_nil_r, <- rev_app_distr, rev_involutive.
Qed.

End CreatedFiles.

Lemma createdFile_relocated_witness :
  resolve (cwd Demo.env)
    [units "/work/empty";
     relative (cwd Demo.env) Demo.staging
       (Demo.staging ++ units "/src/index.ts")]
  = units "/work/empty/src/index.ts".
Proof.
  apply (@createdFile_relocated Demo.env
           [units "work"; units ".new-template-He3MDp"]
           [units "work"; units "empty"] [units "src"; units "index.ts"]);
    try (repeat constructor); discriminate.
Defined.

(** ** scaffoldProject: the install step *)

Section InstallStep.

Variable toLowerCase : jsstring -> jsstring.
Variable env : Env.

(** What [runBunInstall] makes of the process: the exit code of the
    process is what it returns, and a failed process has its error output
    shown. *)
Lemma runBunInstall_inv t w out w1 :
  runBunInstall env t w = (out, w1) ->
  exists so,
    spawnProcess env [units "bun"; units "install"] (Some t) (fs w)
    = (so, fs w1)
    /\ out = match so with Ok (c, _) => Ok c | Err e => Err e end
    /\ events w1 =
         ((match so with
           | Ok (c, err) =>
               if negb (c =? 0)%Z && negb (isEmpty (trim err))
               then [EvConsoleError (trim err)] else []
           | Err _ => []
           end)
          ++ EvSpawn [units "bun"; units "install"] (Some t) so :: events w)%list.
Proof.
  unfold runBunInstall, runCommand. cbn [orDefault quiet commandCwd negb].
  unfold bind at 1 2, spawn.
  destruct (spawnProcess env [units "bun"; units "install"] (Some t) (fs w))
    as [[[c err]|e] fs1]; cbn [ret].
  - intros H. exists (Ok (c, err)).
    destruct (negb (c =? 0)%Z && negb (isEmpty (trim err)));
      cbn [bind emit ret] in H; inversion H; subst; cbn [fs events];
      repeat split.
  - intros H. inversion H; subst. exists (Err e). repeat split.
Qed.

Lemma installRunner_grows o t w out w1 :
  installRunner env o t w = (out, w1) ->
  exists inner, events w1 = (inner ++ events w)%list
                /\ forallb (bunInstallEvent t) inner = true.
Proof.
  unfold installRunner. destruct (runInstall o) as [f|].
  - unfold callback. destruct (f t (fs w)) as [r1 fs1]. intros H.
    inversion H; subst. now exists [].
  - intros H. apply runBunInstall_events in H as (inner & E & F & _). eauto.
Qed.

Lemma bind_reach {A B} (m : M A) (k : A -> M B) w rb w4 :
  emits beforeInstallEvent m ->
  bind m k w = (rb, w4) ->
  (exists e n, rb = Err e /\ events w4 = (n ++ events w)%list
               /\ forallb beforeInstallEvent n = true)
  \/ exists a w1 n, m w = (Ok a, w1) /\ k a w1 = (rb, w4)
                    /\ events w1 = (n ++ events w)%list
                    /\ forallb beforeInstallEvent n = true.
Proof.
  intros Hm H. apply bind_inv in H as [(a & w1 & H1 & H2)|(e & H1 & ->)].
  - right. destruct (Hm _ _ _ H1) as (n & E & F). exists a, w1, n. auto.
  - left. destruct (Hm _ _ _ H1) as (n & E & F). exists e, n. auto.
Qed.

Lemma emits_beforeInstall_tokens paths name :
  emits beforeInstallEvent (applyTemplateTokens toLowerCase env paths name).
Proof. now apply emits_applyTemplateTokens_writes. Qed.

(** A run either throws before the install step, having recorded none of
    its events, or reaches it - the target and the staging directory made,
    the template cloned and copied - and ends as the install runner,
    called on the target directory in the world [we] of that moment,
    decides. *)
Lemma scaffoldProject_reaches o w r w' :
  scaffoldProject toLowerCase env o w = (r, w') ->
  let t := resolve (cwd env) [targetDir o] in
  let repo := orDefault (templateRepo o) DEFAULT_TEMPLATE_REPO in
  (exists e pre,
     r = Err e /\ events w' = (pre ++ events w)%list
     /\ forallb beforeInstallEvent pre = true)
  \/ exists s err pre created we,
       events we = (pre ++ events w)%list
       /\ forallb beforeInstallEvent pre = true
       /\ In (EvMkdir t) pre /\ In (EvMkdtemp s) pre
       /\ In (EvSpawn (cloneCommand repo s) None (Ok (0%Z, err))) pre
       /\ In (EvCp s t) pre
       /\ if orDefault (install o) true then
            exists out wf,
              installRunner env o t we = (out, wf)
              /\ events w' = EvRm s :: EvRunInstall t out :: events wf
              /\ r = match out with
                     | Ok c =>
                         if (c =? 0)%Z
                         then Ok (mkScaffoldResult created true
                                    (trim (projectName o)) t)
                         else Err (installFailure c)
                     | Err e => Err e
                     end
          else events w' = EvRm s :: events we
               /\ r = Ok (mkScaffoldResult created false
                            (trim (projectName o)) t).
Proof.
  unfold scaffoldProject.
  set (t := resolve (cwd env) [targetDir o]).
  set (repo := orDefault (templateRepo o) DEFAULT_TEMPLATE_REPO).
  destruct (List.length (trim (projectName o)) =? 0)%nat.
  { intros H. inversion H; subst. left. eexists. exists []. auto. }
  intros H. apply bind_inv in H as [(empty & w1 & H1 & H)|(e & H1 & ->)].
  2:{ apply isDirectoryEmpty_pure in H1. subst. left. eexists. exists []. auto. }
  apply isDirectoryEmpty_pure in H1. subst w1.
  destruct (negb empty && negb (orDefault (force o) false)).
  { inversion H; subst. left. eexists. exists []. auto. }
  apply bind_inv in H as [(u & w2 & H2 & H)|(e & H2 & ->)].
  2:{ apply mutate_inv in H2 as [[? _]|(e' & _ & E)]; [discriminate|].
      left. exists e, []. auto. }
  apply mutate_inv in H2 as [[_ E2]|(e' & ? & _)]; [|discriminate].
  apply bind_inv in H as [(s & w3 & H3 & H)|(e & H3 & ->)].
  2:{ apply mkdtemp_inv in H3 as [(s & ? & _)|(e' & _ & E)]; [discriminate|].
      left. exists e, [EvMkdir t]. rewrite E, E2. auto. }
  apply mkdtemp_inv in H3 as [(s' & Es & E3 & Hloc)|(e' & ? & _)];
    [|discriminate].
  inversion Es; subst s'. clear Es.
  unfold tryFinally in H.
  match type of H with
  | (let '(_, _) := ?body w3 in _) = _ =>
      destruct (body w3) as [rb w4] eqn:Hbody
  end.
  destruct (rm_removes env s w4) as (w5 & Hrm & E5 & _).
  rewrite Hrm in H. inversion H; subst rb w5. clear H Hrm.
  assert (E03 : events w3 = ([EvMkdtemp s; EvMkdir t] ++ events w)%list)
    by now rewrite E3, E2.
  (* a failure of one of the steps before the install step *)
  assert (Hfail : forall e n wk pre,
            r = Err e -> events w4 = (n ++ events wk)%list ->
            forallb beforeInstallEvent n = true ->
            events wk = (pre ++ events w)%list ->
            forallb beforeInstallEvent pre = true ->
            exists e pre,
              r = Err e /\ events w' = (pre ++ events w)%list
              /\ forallb beforeInstallEvent pre = true).
  { intros e n wk pre -> En Fn Ek Fk. exists e, (EvRm s :: n ++ pre)%list.
    split; [reflexivity|]. split.
    - rewrite E5, En, Ek. simpl. now rewrite <- app_assoc.
    - cbn [forallb beforeInstallEvent andb]. now rewrite forallb_app, Fn, Fk. }
  (* the clone *)
  apply bind_reach in Hbody
    as [(e & n & -> & En & Fn)|(u1 & wa & na & Hc & Hbody & Ea & Fa)];
    [| |unfold cloneTemplateRepo; apply emits_bind;
        [apply emits_runCommand; intros out; reflexivity
        |intros [c err]; apply emits_cond;
         [apply emits_throw|apply emits_ret]]].
  { left. now apply (Hfail e n w3 [EvMkdtemp s; EvMkdir t]). }
  apply cloneTemplateRepo_inv in Hc as (out & Ec & Hout).
  destruct out as [[c err]|e]; [|discriminate].
  destruct (c =? 0)%Z eqn:Hc0; [|discriminate]. apply Z.eqb_eq in Hc0.
  subst c. clear Hout na Ea Fa.
  assert (Ewa : events wa
                = ([EvSpawn (cloneCommand repo s) None (Ok (0%Z, err));
                    EvMkdtemp s; EvMkdir t] ++ events w)%list)
    by now rewrite Ec, E03.
  (* the removal of [.git] *)
  apply bind_reach in Hbody
    as [(e & n & -> & En & Fn)|(u2 & wb & nb & Hr & Hbody & Eb & Fb)];
    [| |now apply emits_rm].
  { left. eapply Hfail; eauto. }
  (* the listing *)
  apply bind_reach in Hbody
    as [(e & n & -> & En & Fn)|(files & wc & nc & Hl & Hbody & Ecc & Fc)];
    [| |apply emits_listFilesRecursively].
  { left. eapply Hfail; [reflexivity|exact En|exact Fn| |].
    - rewrite Eb, Ewa. apply app_assoc.
    - now rewrite forallb_app, Fb. }
  (* the copy *)
  apply bind_reach in Hbody
    as [(e & n & -> & En & Fn)|(u3 & wd & nd & Hcp & Hbody & Ed & Fd)];
    [| |now apply emits_cp].
  { left. eapply Hfail; [reflexivity|exact En|exact Fn| |].
    - rewrite Ecc, Eb, Ewa. rewrite !app_assoc. reflexivity.
    - now rewrite !forallb_app, Fc, Fb. }
  assert (Ecp : events wd = EvCp s t :: events wc).
  { unfold cp in Hcp.
    destruct (Fs.lookupNode s (locate env s) (fs wc)); [|discriminate].
    apply mutate_inv in Hcp as [[_ E]|(e' & ? & _)]; [exact E|discriminate]. }
  (* the tokens *)
  apply bind_reach in Hbody
    as [(e & n & -> & En & Fn)|(u4 & we & ne & Ht & Hbody & Ee & Fe)];
    [| |apply emits_beforeInstall_tokens].
  { left. eapply Hfail; [reflexivity|exact En|exact Fn| |].
    - rewrite Ecp, Ecc, Eb, Ewa.
      change (EvCp s t :: ?l) with ([EvCp s t] ++ l)%list.
      rewrite !app_assoc. reflexivity.
    - now rewrite !forallb_app, Fc, Fb. }
  right.
  exists s, err,
    (ne ++ [EvCp s t] ++ nc ++ nb
     ++ [EvSpawn (cloneCommand repo s) None (Ok (0%Z, err));
         EvMkdtemp s; EvMkdir t])%list.
  eexists. exists we.
  split.
  { rewrite Ee, Ecp, Ecc, Eb, Ewa.
    change (EvCp s t :: ?l) with ([EvCp s t] ++ l)%list.
    now rewrite <- !app_assoc. }
  split; [now rewrite !forallb_app, Fe, Fc, Fb|].
  split; [repeat (apply in_or_app; right); right; right; now left|].
  split; [repeat (apply in_or_app; right); right; now left|].
  split; [repeat (apply in_or_app; right); now left|].
  split; [apply in_or_app; right; apply in_or_app; left; now left|].
  fold (installRunner env o) in Hbody.
  destruct (orDefault (install o) true).
  - unfold bind at 1 2, observed in Hbody.
    destruct (installRunner env o t we) as [out wf] eqn:Erun.
    exists out, wf. split; [reflexivity|].
    destruct out as [c|e]; [destruct (c =? 0)%Z|]; cbn in Hbody;
      inversion Hbody; subst; split; try reflexivity; now rewrite E5.
  - inversion Hbody; subst. split; [exact E5|reflexivity].
Qed.

Lemma beforeInstall_spawn cmd d so :
  beforeInstallEvent (EvSpawn cmd d so) = true ->
  d = None /\ exists args, cmd = units "git" :: args.
Proof.
  cbn. destruct cmd as [|program args]; [discriminate|].
  destruct d; [discriminate|]. intros H. apply eqb_eq in H. subst.
  split; [reflexivity|]. now exists args.
Qed.

(** The run with a supplied install runner: what the run records of the
    call is what the function returned, on the target directory; a run
    that returns has had the exit code 0 from it; and no process but
    [git] is started. *)
Lemma install_supplied o w r w' new f :
  scaffoldProject toLowerCase env o w = (r, w') ->
  events w' = (new ++ events w)%list ->
  orDefault (install o) true = true ->
  runInstall o = Some f ->
  let t := resolve (cwd env) [targetDir o] in
  (forall d out, In (EvRunInstall d out) new ->
     d = t /\ exists fs1 fs2, f t fs1 = (out, fs2))
  /\ (forall res, r = Ok res -> exists fs1 fs2, f t fs1 = (Ok 0%Z, fs2))
  /\ (forall cmd d so, In (EvSpawn cmd d so) new ->
        d = None /\ exists args, cmd = units "git" :: args).
Proof.
  intros H Enew Hi Hf t. apply scaffoldProject_reaches in H. cbv zeta in H.
  fold t in H.
  destruct H as [(e & pre & -> & E & F)
                |(s & err & pre & created & we & Ewe & F & _ & _ & _ & _ & H)].
  - rewrite Enew in E. apply app_inv_tail in E. subst pre.
    split; [|split].
    + intros d out Hin. now pose proof (forallb_In _ _ _ F Hin).
    + discriminate.
    + intros cmd d so Hin. apply beforeInstall_spawn with so.
      exact (forallb_In _ _ _ F Hin).
  - rewrite Hi in H. destruct H as (out & wf & Erun & E' & Hr).
    unfold installRunner in Erun. rewrite Hf in Erun. unfold callback in Erun.
    destruct (f t (fs we)) as [r1 fs1] eqn:Ef.
    inversion Erun; subst out wf. clear Erun. cbn [events] in E'.
    assert (Hnew : new = EvRm s :: EvRunInstall t r1 :: pre).
    { apply app_inv_tail with (events w). now rewrite <- Enew, E', Ewe. }
    subst new. split; [|split].
    + intros d out [Hin|[Hin|Hin]]; [discriminate| |].
      * inversion Hin; subst. split; [reflexivity|]. eauto.
      * now pose proof (forallb_In _ _ _ F Hin).
    + intros res Hres. rewrite Hres in Hr. destruct r1 as [c|e]; [|discriminate].
      destruct (c =? 0)%Z eqn:Ec; [|discriminate].
      apply Z.eqb_eq in Ec. subst c. eauto.
    + intros cmd d so [Hin|[Hin|Hin]]; [discriminate|discriminate|].
      apply beforeInstall_spawn with so. exact (forallb_In _ _ _ F Hin).
Qed.

(** The run with the default install runner: the one process started in
    a working directory is [bun install] in the target directory, with
    the outcome the system gives it; its exit code decides the run, and
    the error output of a failed process is shown. *)
Lemma install_bun o w r w' new :
  scaffoldProject toLowerCase env o w = (r, w') ->
  events w' = (new ++ events w)%list ->
  orDefault (install o) true = true ->
  runInstall o = None ->
  let t := resolve (cwd env) [targetDir o] in
  (forall cmd d so, In (EvSpawn cmd (Some d) so) new ->
     cmd = [units "bun"; units "install"] /\ d = t
     /\ exists fs1,
          fst (spawnProcess env [units "bun"; units "install"] (Some t) fs1)
          = so)
  /\ (forall c err,
        In (EvSpawn [units "bun"; units "install"] (Some t) (Ok (c, err))) new ->
        In (EvRunInstall t (Ok c)) new
        /\ (c <> 0%Z ->
            r = Err (installFailure c)
            /\ (isEmpty (trim err) = false ->
                In (EvConsoleError (trim err)) new)))
  /\ (forall e,
        In (EvSpawn [units "bun"; units "install"] (Some t) (Err e)) new ->
        r = Err e)
  /\ (forall res, r = Ok res ->
        exists err,
          In (EvSpawn [units "bun"; units "install"] (Some t) (Ok (0%Z, err)))
            new).
Proof.
  intros H Enew Hi Hf t. apply scaffoldProject_reaches in H. cbv zeta in H.
  fold t in H.
  destruct H as [(e & pre & -> & E & F)
                |(s & err0 & pre & created & we & Ewe & F & _ & _ & _ & _ & H)].
  - rewrite Enew in E. apply app_inv_tail in E. subst pre.
    assert (Hno : forall cmd d so, ~ In (EvSpawn cmd (Some d) so) new).
    { intros cmd d so Hin.
      pose proof (forallb_In _ _ _ F Hin) as Hx.
      apply beforeInstall_spawn in Hx as [Hx _]. discriminate. }
    split; [|split; [|split]].
    + intros cmd d so Hin. now apply Hno in Hin.
    + intros c err Hin. now apply Hno in Hin.
    + intros e' Hin. now apply Hno in Hin.
    + discriminate.
  - rewrite Hi in H. destruct H as (out & wf & Erun & E' & Hr).
    unfold installRunner in Erun. rewrite Hf in Erun.
    apply runBunInstall_inv in Erun as (so & Esp & Hout & Ewf).
    set (con := match so with
                | Ok (c, err) =>
                    if negb (c =? 0)%Z && negb (isEmpty (trim err))
                    then [EvConsoleError (trim err)] else []
                | Err _ => []
                end) in Ewf.
    assert (Hcon : forall x, In x con -> exists text, x = EvConsoleError text).
    { unfold con. destruct so as [[c err]|e];
        [destruct (negb (c =? 0)%Z && negb (isEmpty (trim err)))|];
        intros x Hx; try contradiction.
      destruct Hx as [<-|[]]. eauto. }
    assert (Hnew : new = (EvRm s :: EvRunInstall t out :: con
                          ++ EvSpawn [units "bun"; units "install"] (Some t) so
                          :: pre)%list).
    { apply app_inv_tail with (events w). rewrite <- Enew, E', Ewf, Ewe.
      simpl. now rewrite <- app_assoc. }
    assert (Hone : forall cmd d so',
              In (EvSpawn cmd (Some d) so') new ->
              cmd = [units "bun"; units "install"] /\ d = t /\ so' = so).
    { intros cmd d so' Hin. rewrite Hnew in Hin.
      destruct Hin as [Hin|[Hin|Hin]]; [discriminate|discriminate|].
      apply in_app_or in Hin as [Hin|[Hin|Hin]].
      - apply Hcon in Hin as (text & Hx). discriminate.
      - now inversion Hin.
      - pose proof (forallb_In _ _ _ F Hin) as Hx.
        apply beforeInstall_spawn in Hx as [Hx _]. discriminate. }
    assert (Hrec : In (EvRunInstall t out) new).
    { rewrite Hnew. right. now left. }
    split; [|split; [|split]].
    + intros cmd d so' Hin. destruct (Hone _ _ _ Hin) as (-> & -> & ->).
      split; [reflexivity|]. split; [reflexivity|].
      exists (fs we). now rewrite Esp.
    + intros c err Hin. destruct (Hone _ _ _ Hin) as (_ & _ & Hso).
      subst so. subst out. split; [exact Hrec|]. intros Hc.
      apply Z.eqb_neq in Hc. rewrite Hc in Hr. split; [exact Hr|].
      intros Herr. rewrite Hnew. right. right. apply in_or_app. left.
      unfold con. rewrite Hc, Herr. now left.
    + intros e Hin. destruct (Hone _ _ _ Hin) as (_ & _ & Hso).
      subst so. now subst out.
    + intros res Hres. rewrite Hres in Hr.
      destruct so as [[c err]|e]; subst out; [|discriminate].
      destruct (c =? 0)%Z eqn:Ec; [|discriminate].
      apply Z.eqb_eq in Ec. subst c. exists err. rewrite Hnew.
      right. right. apply in_or_app. right. now left.
Qed.

(** What a run records of the call of the install runner, and what the
    call decides. *)
Lemma install_records o w r w' new :
  scaffoldProject toLowerCase env o w = (r, w') ->
  events w' = (new ++ events w)%list ->
  let t := resolve (cwd env) [targetDir o] in
  (orDefault (install o) true = true ->
   (forall res, r = Ok res ->
      installedDependencies res = true /\ In (EvRunInstall t (Ok 0%Z)) new)
   /\ (forall d out, In (EvRunInstall d out) new -> d = t)
   /\ (forall d c, In (EvRunInstall d (Ok c)) new -> c <> 0%Z ->
         r = Err (installFailure c)
         /\ includes (message (installFailure c)) (ofZ c) = true)
   /\ (runInstall o = None ->
       forall d out, In (EvRunInstall d out) new ->
         exists so,
           In (EvSpawn [units "bun"; units "install"] (Some t) so) new))
  /\ (orDefault (install o) true = false ->
      (forall d out, ~ In (EvRunInstall d out) new)
      /\ (forall c d so, ~ In (EvSpawn (units "bun" :: c) d so) new)
      /\ (forall res, r = Ok res -> installedDependencies res = false)).
Proof.
  intros H Enew t.
  assert (Hres : forall res, r = Ok res ->
            installedDependencies res = orDefault (install o) true).
  { intros res ->. now apply (@run_ok_installed toLowerCase env o w res w'). }
  assert (Hcall : forall d out, In (EvRunInstall d out) new ->
            d = t /\ exists inner staged s,
              new = ((EvRm s :: (EvRunInstall t out :: inner) ++ staged)
                     ++ [EvMkdtemp s; EvMkdir t])%list
              /\ stagedPhase o t r (EvRunInstall t out :: inner)).
  { intros d out Hin.
    destruct (@run_new_events toLowerCase env _ _ _ _ _ H Enew)
      as [[[->| ->] _]|(s & staged & late & -> & F & Ph)].
    - contradiction.
    - destruct Hin as [Hin|[]]. discriminate.
    - apply in_app_or in Hin as [Hin|Hin].
      + destruct (@staged_events _ _ _ _ _ _ _ Ph F Hin)
          as [Hx|[(out' & inner & -> & Hx)|[Hx|Hx]]]; try discriminate.
        inversion Hx; subst. split; [reflexivity|]. now exists inner, staged, s.
      + destruct Hin as [Hin|[Hin|[]]]; discriminate. }
  split; intros Hi.
  - split; [|split; [|split]].
    + intros res Hr. split; [now rewrite (Hres _ Hr)|]. subst r.
      destruct (@run_new_events toLowerCase env _ _ _ _ _ H Enew)
        as [[_ (e & He)]|(s & staged & late & -> & F & Ph)]; [discriminate|].
      destruct Ph as [e He _|res' Hi' _ _ _|out inner _ -> _ _ _ Hout].
      * discriminate.
      * congruence.
      * destruct out as [c|e]; [|discriminate].
        destruct (c =? 0)%Z eqn:Ec; [|discriminate].
        apply Z.eqb_eq in Ec. subst c. simpl. right. left. reflexivity.
    + intros d out Hin. now apply Hcall in Hin.
    + intros d c Hin Hc. split.
      * apply Hcall in Hin as (_ & inner & staged & s & _ & Ph).
        inversion Ph as [e He Hl|res Hi' _ _ Hl|out inner' _ Hl _ _ _ Hout];
          try discriminate.
        inversion Hl; subst. apply Z.eqb_neq in Hc. now rewrite Hc in Hout.
      * unfold installFailure, Error. cbn [message]. apply includes_app.
    + intros Hrun d out Hin.
      apply Hcall in Hin as (_ & inner & staged & s & -> & Ph).
      inversion Ph as [e He Hl|res Hi' _ _ Hl|out' inner' _ Hl _ Hs _ _];
        try discriminate.
      inversion Hl; subst. destruct (Hs Hrun) as (so & Hso). exists so.
      simpl. right. right. apply in_or_app. left. apply in_or_app. now left.
  - split; [|split].
    + intros d out Hin. apply Hcall in Hin as (_ & inner & staged & s & _ & Ph).
      inversion Ph as [e He Hl|res Hi' _ _ Hl|out' inner' Hi' _ _ _ _ _];
        try discriminate. congruence.
    + intros c d so Hin.
      destruct (@run_new_events toLowerCase env _ _ _ _ _ H Enew)
        as [[[->| ->] _]|(s & staged & late & -> & F & Ph)].
      * contradiction.
      * destruct Hin as [Hin|[]]. discriminate.
      * assert (Hl : late = []).
        { destruct Ph as [e _ Hl|res _ _ _ Hl|out inner Hi' _ _ _ _ _];
            auto. congruence. }
        subst late. apply in_app_or in Hin as [Hin|Hin].
        -- destruct Hin as [Hin|Hin]; [discriminate|]. simpl in Hin.
           pose proof (forallb_In _ _ _ F Hin) as Hx.
           now rewrite stagingEvent_not_bun in Hx.
        -- destruct Hin as [Hin|[Hin|[]]]; discriminate.
    + intros res Hr. now rewrite (Hres _ Hr).
Qed.

(** C7.  When installation is requested (or the option is omitted), a run
    that returns has called the install runner in the target directory
    and has had the exit code 0 from it; the runner is never called
    anywhere else; and whenever it settles with a non-zero exit code
    [scaffoldProject] throws the error carrying that code.  The runner is
    the supplied function, applied to the target directory - what the run
    records of the call is what the function returned - or else the
    [bun install] process in the target directory, whose exit code, as the
    system reports it, is the one that decides: a non-zero code makes the
    run throw, with the error output of the process shown, and a run that
    returns has seen the process exit with 0.  When installation is not
    requested the runner is never called, no [bun] process is started,
    and a returned result has [installedDependencies = false]. *)
Theorem scaffoldProject_install o w r w' new :
  scaffoldProject toLowerCase env o w = (r, w') ->
  events w' = (new ++ events w)%list ->
  let t := resolve (cwd env) [targetDir o] in
  (orDefault (install o) true = true ->
   (forall res, r = Ok res ->
      installedDependencies res = true /\ In (EvRunInstall t (Ok 0%Z)) new)
   /\ (forall d out, In (EvRunInstall d out) new -> d = t)
   /\ (forall d c, In (EvRunInstall d (Ok c)) new -> c <> 0%Z ->
         r = Err (installFailure c)
         /\ includes (message (installFailure c)) (ofZ c) = true)
   /\ (runInstall o = None ->
       forall d out, In (EvRunInstall d out) new ->
         exists so,
           In (EvSpawn [units "bun"; units "install"] (Some t) so) new)
   /\ (forall f, runInstall o = Some f ->
         (forall d out, In (EvRunInstall d out) new ->
            d = t /\ exists fs1 fs2, f t fs1 = (out, fs2))
         /\ (forall res, r = Ok res ->
               exists fs1 fs2, f t fs1 = (Ok 0%Z, fs2))
         /\ (forall cmd d so, In (EvSpawn cmd d so) new ->
               d = None /\ exists args, cmd = units "git" :: args))
   /\ (runInstall o = None ->
       (forall cmd d so, In (EvSpawn cmd (Some d) so) new ->
          cmd = [units "bun"; units "install"] /\ d = t
          /\ exists fs1,
               fst (spawnProcess env [units "bun"; units "install"]
                      (Some t) fs1) = so)
       /\ (forall c err,
             In (EvSpawn [units "bun"; units "install"] (Some t)
                   (Ok (c, err))) new ->
             In (EvRunInstall t (Ok c)) new
             /\ (c <> 0%Z ->
                 r = Err (installFailure c)
                 /\ (isEmpty (trim err) = false ->
                     In (EvConsoleError (trim err)) new)))
       /\ (forall e,
             In (EvSpawn [units "bun"; units "install"] (Some t) (Err e))
               new ->
             r = Err e)
       /\ (forall res, r = Ok res ->
             exists err,
               In (EvSpawn [units "bun"; units "install"] (Some t)
                     (Ok (0%Z, err))) new)))
  /\ (orDefault (install o) true = false ->
      (forall d out, ~ In (EvRunInstall d out) new)
      /\ (forall c d so, ~ In (EvSpawn (units "bun" :: c) d so) new)
      /\ (forall res, r = Ok res -> installedDependencies res = false)).
Proof.
  intros H Enew t.
  destruct (@install_records o w r w' new H Enew) as [Hon Hoff].
  split; [|exact Hoff].
  intros Hi. destruct (Hon Hi) as (H1 & H2 & H3 & H4).
  split; [exact H1|]. split; [exact H2|]. split; [exact H3|].
  split; [exact H4|]. split.
  - intros f Hf. exact (@install_supplied o w r w' new f H Enew Hi Hf).
  - intros Hf. exact (@install_bun o w r w' new H Enew Hi Hf).
Qed.

End InstallStep.

Lemma scaffoldProject_install_witness :
  (fst Demo.failingInstall = Err (installFailure 1)
   /\ In (EvConsoleError (units "error: install failed"))
        (events (snd Demo.failingInstall)))
  /\ (forall res, fst Demo.skippedInstall = Ok res ->
                  installedDependencies res = false).
Proof.
  split.
  - assert (Hrun : scaffoldProject asciiToLowerCase Demo.env
                     (Demo.options "My App!" "bad" (Some true) None) Demo.world
                   = (fst Demo.failingInstall, snd Demo.failingInstall)).
    { unfold Demo.failingInstall. apply surjective_pairing. }
    assert (Hev : events (snd Demo.failingInstall)
                  = (events (snd Demo.failingInstall)
                     ++ events Demo.world)%list).
    { vm_compute. reflexivity. }
    destruct (@scaffoldProject_install asciiToLowerCase Demo.env _ _ _ _ _
                Hrun Hev) as [Hon _].
    destruct (Hon eq_refl) as (_ & _ & _ & _ & _ & Hbun).
    destruct (Hbun eq_refl) as (_ & Hcode & _ & _).
    destruct (Hcode 1%Z (units "error: install failed")) as (_ & Hfatal).
    { pick_event. }
    destruct Hfatal as (Hr & Hshown); [discriminate|].
    split; [exact Hr|]. apply Hshown. reflexivity.
  - assert (Hrun : scaffoldProject asciiToLowerCase Demo.env
                     (Demo.options "My App!" "empty" None (Some false))
                     Demo.world
                   = (fst Demo.skippedInstall, snd Demo.skippedInstall)).
    { unfold Demo.skippedInstall. apply surjective_pairing. }
    assert (Hev : events (snd Demo.skippedInstall)
                  = (events (snd Demo.skippedInstall)
                     ++ events Demo.world)%list).
    { vm_compute. reflexivity. }
    destruct (@scaffoldProject_install asciiToLowerCase Demo.env _ _ _ _ _
                Hrun Hev) as [_ Hoff].
    destruct (Hoff eq_refl) as (_ & _ & Hres). exact Hres.
Defined.

(** ** scaffoldProject: the defaults of the options *)

Section DefaultsProperties.

Variable toLowerCase : jsstring -> jsstring.
Variable env : Env.

(** The processes without a working directory of a run: the clone of the
    template of the options, into the staging directory of the run. *)
Lemma clone_of_run o w r w' new :
  scaffoldProject toLowerCase env o w = (r, w') ->
  events w' = (new ++ events w)%list ->
  let repo := orDefault (templateRepo o) DEFAULT_TEMPLATE_REPO in
  (forall cmd out, In (EvSpawn cmd None out) new ->
     exists s, cmd = cloneCommand repo s /\ In (EvMkdtemp s) new)
  /\ (forall s, In (EvMkdtemp s) new ->
        exists out, In (EvSpawn (cloneCommand repo s) None out) new)
  /\ (forall res, r = Ok res ->
        exists s err,
          In (EvSpawn (cloneCommand repo s) None (Ok (0%Z, err))) new).
Proof.
  intros H Enew repo.
  apply (@scaffoldProject_trace toLowerCase env) in H. cbv zeta in H.
  fold repo in H.
  destruct H as [(e & -> & [E|E])|(s & out & rest & E & F & Hout & _)].
  - rewrite E in Enew. change (events w) with ([] ++ events w)%list in Enew at 1.
    apply app_inv_tail in Enew. subst new.
    split; [|split]; [intros ? ? []|intros ? []|discriminate].
  - rewrite E in Enew.
    change (?x :: events w) with ([x] ++ events w)%list in Enew.
    apply app_inv_tail in Enew. subst new.
    split; [|split]; [| |discriminate].
    + intros cmd out [Hin|[]]. discriminate.
    + intros s [Hin|[]]. discriminate.
  - assert (Hnew : new = (EvRm s :: rest
                          ++ [EvSpawn (cloneCommand repo s) None out;
                              EvMkdtemp s;
                              EvMkdir (resolve (cwd env) [targetDir o])])%list).
    { apply app_inv_tail with (events w). rewrite <- Enew, E. simpl.
      now rewrite <- app_assoc. }
    assert (Hclone : In (EvSpawn (cloneCommand repo s) None out) new).
    { rewrite Hnew. right. apply in_or_app. right. now left. }
    assert (Htemp : In (EvMkdtemp s) new).
    { rewrite Hnew. right. apply in_or_app. right. right. now left. }
    split; [|split].
    + intros cmd out' Hin. rewrite Hnew in Hin.
      destruct Hin as [Hin|Hin]; [discriminate|].
      apply in_app_or in Hin as [Hin|Hin].
      * pose proof (forallb_In _ _ _ F Hin) as Hx.
        apply afterClone_spawn in Hx as [Hx _]. discriminate.
      * destruct Hin as [Hin|[Hin|[Hin|[]]]]; try discriminate.
        inversion Hin; subst. now exists s.
    + intros s' Hin. rewrite Hnew in Hin.
      destruct Hin as [Hin|Hin]; [discriminate|].
      apply in_app_or in Hin as [Hin|Hin].
      * now pose proof (forallb_In _ _ _ F Hin).
      * destruct Hin as [Hin|[Hin|[Hin|[]]]]; try discriminate.
        inversion Hin; subst. now exists out.
    + intros res Hres. subst r. destruct out as [[c err]|e].
      * destruct (Z.eq_dec c 0) as [->|Hc]; [now exists s, err|].
        destruct (Hout Hc) as [_ Habs]. discriminate.
      * destruct Hout as [_ Habs]. discriminate.
Qed.

(** C9.  Omitted options take fixed defaults.  With [install] omitted the
    run is the run with [install: true], and the install step runs: a run
    that returns has called the install runner on the target directory
    and has had the exit code 0 from it - from the supplied function, or
    from the [bun install] process there - with
    [installedDependencies = true], and a non-zero exit code of the
    runner makes the run throw.  With [force] omitted the run is the run
    with [force: false], and the check is enforced: a non-empty target is
    refused and nothing is done.  With [templateRepo] omitted the run is
    the run with the fixed URL, and that URL is what [git clone] is given:
    every process started without a working directory is the clone of
    [https://github.com/rayhanadev/fresh] into the staging directory, a
    run that makes its staging directory starts it, and a run that
    returns has seen it exit with 0. *)
Theorem scaffoldProject_defaults f i p run repo d w :
  let t := resolve (cwd env) [d] in
  let fresh s :=
    [units "git"; units "clone"; units "--depth"; units "1"; units "--quiet";
     units "https://github.com/rayhanadev/fresh"; s] in
  (scaffoldProject toLowerCase env (mkScaffoldOptions f None p run repo d) w
   = scaffoldProject toLowerCase env
       (mkScaffoldOptions f (Some true) p run repo d) w
   /\ (forall res w',
         scaffoldProject toLowerCase env
           (mkScaffoldOptions f None p run repo d) w = (Ok res, w') ->
         installedDependencies res = true)
   /\ (forall r w' new,
         scaffoldProject toLowerCase env
           (mkScaffoldOptions f None p run repo d) w = (r, w') ->
         events w' = (new ++ events w)%list ->
         (forall res, r = Ok res ->
            In (EvRunInstall t (Ok 0%Z)) new
            /\ match run with
               | Some g => exists fs1 fs2, g t fs1 = (Ok 0%Z, fs2)
               | None =>
                   exists err,
                     In (EvSpawn [units "bun"; units "install"] (Some t)
                           (Ok (0%Z, err))) new
               end)
         /\ (forall g, run = Some g ->
               forall d' out, In (EvRunInstall d' out) new ->
                 d' = t /\ exists fs1 fs2, g t fs1 = (out, fs2))
         /\ (forall c, In (EvRunInstall t (Ok c)) new -> c <> 0%Z ->
               r = Err (installFailure c))
         /\ (run = None ->
             forall c err,
               In (EvSpawn [units "bun"; units "install"] (Some t)
                     (Ok (c, err))) new ->
               c <> 0%Z -> r = Err (installFailure c))))
  /\ (scaffoldProject toLowerCase env (mkScaffoldOptions None i p run repo d) w
      = scaffoldProject toLowerCase env
          (mkScaffoldOptions (Some false) i p run repo d) w
      /\ (forall x es,
            trim p <> [] ->
            Fs.lookupNode (resolve (cwd env) [d])
              (locate env (resolve (cwd env) [d])) (fs w)
            = Ok (Dir (x :: es)) ->
            scaffoldProject toLowerCase env
              (mkScaffoldOptions None i p run repo d) w
            = (Err (notEmptyFailure (resolve (cwd env) [d])), w)))
  /\ (scaffoldProject toLowerCase env (mkScaffoldOptions f i p run None d) w
      = scaffoldProject toLowerCase env
          (mkScaffoldOptions f i p run (Some DEFAULT_TEMPLATE_REPO) d) w
      /\ DEFAULT_TEMPLATE_REPO = units "https://github.com/rayhanadev/fresh"
      /\ (forall r w' new,
            scaffoldProject toLowerCase env
              (mkScaffoldOptions f i p run None d) w = (r, w') ->
            events w' = (new ++ events w)%list ->
            (forall cmd out, In (EvSpawn cmd None out) new ->
               exists s, cmd = fresh s /\ In (EvMkdtemp s) new)
            /\ (forall s, In (EvMkdtemp s) new ->
                  exists out, In (EvSpawn (fresh s) None out) new)
            /\ (forall res, r = Ok res ->
                  exists s err,
                    In (EvSpawn (fresh s) None (Ok (0%Z, err))) new))).
Proof.
  intros t fresh. split; [|split].
  - split; [reflexivity|]. split.
    { intros res w' H.
      now apply (@run_ok_installed toLowerCase env) in H. }
    intros r w' new H Enew.
    pose proof (@install_records toLowerCase env _ _ _ _ _ H Enew)
      as [Hon _].
    destruct (Hon eq_refl) as (H1 & _ & H3 & _).
    split; [|split; [|split]].
    + intros res Hres. split; [now apply (H1 res)|].
      destruct run as [g|].
      * exact (proj1 (proj2 (@install_supplied toLowerCase env _ _ _ _ _ g
                               H Enew eq_refl eq_refl)) res Hres).
      * exact (proj2 (proj2 (proj2 (@install_bun toLowerCase env _ _ _ _ _
                                      H Enew eq_refl eq_refl))) res Hres).
    + intros g -> d' out Hin.
      exact (proj1 (@install_supplied toLowerCase env _ _ _ _ _ g
                      H Enew eq_refl eq_refl) d' out Hin).
    + intros c Hin Hc. now apply (H3 t c).
    + intros -> c err Hin Hc.
      exact (proj1 (proj2 (proj1 (proj2 (@install_bun toLowerCase env
                                           _ _ _ _ _ H Enew eq_refl eq_refl))
                             c err Hin) Hc)).
  - split; [reflexivity|]. intros x es Hp Hd.
    now apply (@refuses_nonempty toLowerCase env
                 (mkScaffoldOptions None i p run repo d) w x es).
  - split; [reflexivity|]. split; [reflexivity|].
    intros r w' new H Enew.
    exact (@clone_of_run _ _ _ _ _ H Enew).
Qed.

End DefaultsProperties.

Lemma scaffoldProject_defaults_witness :
  scaffoldProject asciiToLowerCase Demo.env
    (Demo.options "My App!" "full" None None) Demo.world
  = (Err (notEmptyFailure (units "/work/full")), Demo.world)
  /\ exists res w',
       scaffoldProject asciiToLowerCase Demo.env
         (Demo.options "My App!" "empty" None None) Demo.world
       = (Ok res, w')
       /\ (In (EvRunInstall (units "/work/empty") (Ok 0%Z)) (events w')
           /\ exists err,
                In (EvSpawn [units "bun"; units "install"]
                      (Some (units "/work/empty")) (Ok (0%Z, err)))
                  (events w'))
       /\ exists s err,
            In (EvSpawn
                  [units "git"; units "clone"; units "--depth"; units "1";
                   units "--quiet";
                   units "https://github.com/rayhanadev/fresh"; s]
                  None (Ok (0%Z, err)))
              (events w').
Proof.
  pose proof (@scaffoldProject_defaults asciiToLowerCase Demo.env None None
                (units "My App!") None None (units "full") Demo.world)
    as (_ & (_ & Hforce) & _).
  split.
  { apply (Hforce (units "notes.txt", File (units "keep")) []).
    - vm_compute. discriminate.
    - reflexivity. }
  eassert (H : scaffoldProject asciiToLowerCase Demo.env
                 (Demo.options "My App!" "empty" None None) Demo.world
               = (Ok _, _)) by (vm_compute; reflexivity).
  eexists. eexists. split; [exact H|].
  pose proof (@scaffoldProject_defaults asciiToLowerCase Demo.env None None
                (units "My App!") None None (units "empty") Demo.world)
    as ((_ & _ & Hinstall) & _ & (_ & _ & Hrepo)).
  split.
  - exact (proj1 (Hinstall _ _ _ H (eq_sym (app_nil_r _))) _ eq_refl).
  - exact (proj2 (proj2 (Hrepo _ _ _ H (eq_sym (app_nil_r _)))) _ eq_refl).
Defined.

(** ** run: the target directory and the project name *)

Section TargetProperties.

Variable toLowerCase : jsstring -> jsstring.
Variable env : Env.

(** A resolved path resolves to itself. *)
Lemma resolve_resolved paths :
  resolve (cwd env) [resolve (cwd env) paths] = resolve (cwd env) paths.
Proof.
  set (L := normalizeSegments
              (splitOn SLASH (resolveLoop (rev paths) (cwd env) []))).
  change (resolve (cwd env) paths) with (SLASH :: join L).
  assert (HL : Forall (fun s => plainName s = true) L).
  { unfold L, normalizeSegments. apply Forall_rev.
    apply normalize_fold_plain; [constructor|apply splitOn_pieces]. }
  set (M := normalizeSegments
              (splitOn SLASH
                 (resolveLoop (rev [SLASH :: join L]) (cwd env) []))).
  change (resolve (cwd env) [SLASH :: join L]) with (SLASH :: join M).
  assert (HM : Forall cleanSegment M).
  { unfold M, normalizeSegments. apply Forall_rev.
    apply normalize_fold_clean; [constructor|apply splitOn_pieces]. }
  pose proof (@locate_resolved env L HL) as E. unfold locate in E.
  change (resolve (cwd env) [SLASH :: join L]) with (SLASH :: join M) in E.
  rewrite (segments_root_join HM) in E. now rewrite E.
Qed.

(** A run of [scaffoldProject] that returns has made the target directory
    and copied the template into it, and reports the directory and the
    trimmed name. *)
Lemma scaffoldProject_returned o w res w' :
  scaffoldProject toLowerCase env o w = (Ok res, w') ->
  let t := resolve (cwd env) [targetDir o] in
  resultTargetDir res = t
  /\ resultProjectName res = trim (projectName o)
  /\ exists mid s,
       events w' = (mid ++ events w)%list
       /\ In (EvMkdir t) mid /\ In (EvCp s t) mid.
Proof.
  intros H t. apply scaffoldProject_reaches in H. cbv zeta in H. fold t in H.
  destruct H as [(e & pre & Habs & _)
                |(s & err & pre & created & we & Ewe & F & Hm & _ & _ & Hc & H)];
    [discriminate|].
  destruct (orDefault (install o) true).
  - destruct H as (out & wf & Erun & E' & Hr).
    apply installRunner_grows in Erun as (inner & Ewf & _).
    destruct out as [c|e]; [|discriminate].
    destruct (c =? 0)%Z; [|discriminate]. inversion Hr; subst res.
    split; [reflexivity|]. split; [reflexivity|].
    exists (EvRm s :: EvRunInstall t (Ok c) :: inner ++ pre)%list, s.
    split; [rewrite E', Ewf, Ewe; simpl; now rewrite <- app_assoc|].
    split; right; right; apply in_or_app; now right.
  - destruct H as [E' Hr]. inversion Hr; subst res.
    split; [reflexivity|]. split; [reflexivity|].
    exists (EvRm s :: pre), s. split; [now rewrite E', Ewe|].
    split; now right.
Qed.

Lemma isDirectoryEmpty_fs dir w w0 r :
  fs w0 = fs w ->
  isDirectoryEmpty env dir w = (r, w) ->
  isDirectoryEmpty env dir w0 = (r, w0).
Proof.
  intros Hfs. rewrite !isDirectoryEmpty_lookup, Hfs.
  destruct (Fs.lookupNode dir (locate env dir) (fs w)) as [[c|es]|e];
    try destruct (hasCode e "ENOENT"); intros H; now inversion H.
Qed.

(** The overwrite step lets the run go on with the force flag of the
    command line, or with [true] once the user has agreed; it changes no
    file and shows at most its question. *)
Lemma confirmOverwrite_continue o t w f' w1 :
  Cli.confirmOverwrite env o t w = (Ok (Cli.Continue f'), w1) ->
  fs w1 = fs w
  /\ (f' = Cli.force o \/ f' = true)
  /\ exists q, events w1 = (q ++ events w)%list /\ forallb uiEvent q = true.
Proof.
  unfold Cli.confirmOverwrite. intros H.
  apply bind_ok_inv in H as (empty & w0 & H0 & H).
  apply isDirectoryEmpty_pure in H0. subst w0.
  destruct (negb empty && negb (Cli.force o)).
  - destruct (negb (isTTY env)); [discriminate|].
    rewrite bind_emit in H.
    destruct (confirmAnswer env) as [[|]|]; try discriminate.
    inversion H; subst. split; [reflexivity|]. split; [now right|].
    eexists [_]. split; reflexivity.
  - inversion H; subst. split; [reflexivity|]. split; [now left|].
    now exists [].
Qed.

Lemma selectTarget_argument o a w0 :
  Cli.pathArg o = Some a
  \/ (Cli.pathArg o = None /\ Cli.projectNameArg o = Some a) ->
  Cli.selectTarget env o w0
  = (Ok (Cli.Continue (resolve (cwd env) [cwd env; a],
                       basename (resolve (cwd env) [cwd env; a]))), w0).
Proof.
  intros [Ha|[Hp Ha]]; unfold Cli.selectTarget.
  - now rewrite Ha.
  - now rewrite Hp, Ha.
Qed.

(** With an empty or missing target, or with the force flag, [run] is the
    call of [scaffoldProject] on the resolved argument and its basename,
    and the report of what it returns. *)
Lemma run_scaffold_call argv o a w empty :
  Cli.parseArgs argv = Ok o ->
  Cli.help o = false ->
  Cli.version o = false ->
  Cli.pathArg o = Some a
  \/ (Cli.pathArg o = None /\ Cli.projectNameArg o = Some a) ->
  let t := resolve (cwd env) [cwd env; a] in
  let n := basename t in
  Cli.isBlank n = false ->
  isDirectoryEmpty env t w = (Ok empty, w) ->
  negb empty && negb (Cli.force o) = false ->
  Cli.run toLowerCase env argv w
  = match scaffoldProject toLowerCase env
            (mkScaffoldOptions (Some (Cli.force o)) (Some (Cli.install o))
               n None None t)
            (mkWorld (fs w)
               (EvUi (units "Scaffolding Bun project")
                :: EvUi (units "new") :: events w)) with
    | (Ok res, w1) =>
        (Ok Cli.Returned,
         mkWorld (fs w1)
           (EvUi (units "Next step: bun run src/index.ts")
            :: EvUi (if installedDependencies res
                     then units "Installed dependencies with bun install"
                     else units "Skipped dependency install (--no-install)")
            :: EvUi (units "Created Bun project in " ++ resultTargetDir res)
            :: EvUi (units "Scaffold complete") :: events w1))
    | (Err e, w1) => (Err e, w1)
    end.
Proof.
  intros Hparse Hh Hv Ha t n Hblank Hempty Hgo.
  unfold Cli.run. rewrite Hparse, Hh, Hv, bind_emit.
  rewrite (@bind_ok _ _ _ _ _ _ _ (@selectTarget_argument o a _ Ha)).
  fold t. fold n. unfold Cli.scaffoldInto. rewrite Hblank.
  assert (Hconf : forall w0,
            fs w0 = fs w ->
            Cli.confirmOverwrite env o t w0
            = (Ok (Cli.Continue (Cli.force o)), w0)).
  { intros w0 Hfs. unfold Cli.confirmOverwrite.
    rewrite (@bind_ok _ _ _ _ _ _ _ (@isDirectoryEmpty_fs t w w0 _ Hfs Hempty)).
    now rewrite Hgo. }
  rewrite (@bind_ok _ _ _ _ _ _ _
             (Hconf (mkWorld (fs w) (EvUi (units "new") :: events w)) eq_refl)).
  unfold Cli.scaffoldAndReport. rewrite bind_emit. cbn [fs events].
  unfold bind at 1.
  destruct (scaffoldProject toLowerCase env
              (mkScaffoldOptions (Some (Cli.force o)) (Some (Cli.install o))
                 n None None t)
              (mkWorld (fs w)
                 (EvUi (units "Scaffolding Bun project")
                  :: EvUi (units "new") :: events w))) as [[res|e] w1];
    reflexivity.
Qed.

(** A run that returns has scaffolded: [scaffoldProject] was called on
    the resolved argument under its basename and returned, the target
    directory was made and the template copied into it. *)
Lemma run_returned argv o a w w' new :
  Cli.parseArgs argv = Ok o ->
  Cli.help o = false ->
  Cli.version o = false ->
  Cli.pathArg o = Some a
  \/ (Cli.pathArg o = None /\ Cli.projectNameArg o = Some a) ->
  Cli.run toLowerCase env argv w = (Ok Cli.Returned, w') ->
  events w' = (new ++ events w)%list ->
  let t := resolve (cwd env) [cwd env; a] in
  let n := basename t in
  In (EvMkdir t) new
  /\ (exists s, In (EvCp s t) new)
  /\ In (EvUi (units "Created Bun project in " ++ t)) new
  /\ exists f' w0 res w1,
       scaffoldProject toLowerCase env
         (mkScaffoldOptions (Some f') (Some (Cli.install o)) n None None t) w0
       = (Ok res, w1)
       /\ fs w0 = fs w
       /\ (f' = Cli.force o \/ f' = true)
       /\ resultProjectName res = trim n
       /\ resultTargetDir res = t.
Proof.
  intros Hparse Hh Hv Ha H Enew t n.
  unfold Cli.run in H. rewrite Hparse, Hh, Hv, bind_emit in H.
  rewrite (@bind_ok _ _ _ _ _ _ _ (@selectTarget_argument o a _ Ha)) in H.
  fold t in H. fold n in H. unfold Cli.scaffoldInto in H.
  destruct (Cli.isBlank n); [discriminate|].
  apply bind_ok_inv in H as (conf & w2 & Hc & H).
  destruct conf as [f'|c]; [|discriminate].
  apply confirmOverwrite_continue in Hc as (Hfs2 & Hf' & q & Eq & _).
  cbn [fs events] in Hfs2, Eq.
  unfold Cli.scaffoldAndReport in H. rewrite bind_emit in H.
  apply bind_ok_inv in H as (res & w3 & Hsc & H).
  rewrite !bind_emit in H. inversion H; subst w'. clear H.
  cbn [events] in Enew.
  pose proof (scaffoldProject_returned _ _ Hsc) as (Ht & Hn & mid & s & E3 & Hm & Hcp).
  cbn [targetDir projectName events] in Ht, Hn, E3, Hm, Hcp.
  unfold t in Ht, Hm, Hcp. rewrite resolve_resolved in Ht, Hm, Hcp.
  fold t in Ht, Hm, Hcp.
  assert (Hnew : new
                 = ([EvUi (units "Next step: bun run src/index.ts");
                     EvUi (if installedDependencies res
                           then units "Installed dependencies with bun install"
                           else units "Skipped dependency install (--no-install)");
                     EvUi (units "Created Bun project in " ++ resultTargetDir res);
                     EvUi (units "Scaffold complete")]
                    ++ mid
                    ++ EvUi (units "Scaffolding Bun project")
                    :: q ++ [EvUi (units "new")])%list).
  { apply app_inv_tail with (events w). rewrite <- Enew, E3, Eq.
    cbn [app]. rewrite <- !app_assoc. cbn [app]. rewrite <- !app_assoc.
    reflexivity. }
  split; [|split; [|split]].
  - rewrite Hnew. apply in_or_app. right. apply in_or_app. now left.
  - exists s. rewrite Hnew. apply in_or_app. right. apply in_or_app. now left.
  - rewrite Hnew, Ht. right. right. now left.
  - exists f'. eexists. exists res, w3. split; [exact Hsc|].
    split; [exact Hfs2|]. auto.
Qed.

(** C10.  For the [--path] option and for the positional argument alike,
    the CLI resolves the argument against the working directory and takes
    the project name to be the basename of the resolved directory, and
    [run] scaffolds into that directory under that name: with an empty or
    missing target, or with the force flag, [run] is the call of
    [scaffoldProject] with that directory and that name, and the report
    of its result; and every run that returns has called
    [scaffoldProject] with them, has made that directory and copied the
    template into it, and reports it, the project name of the result
    being the basename (trimmed).  So for an argument with path
    separators, [d/n], the target is the directory [n] inside the
    resolution of [d/], and the project name is [n], its final component,
    not the argument as typed. *)
Theorem run_scaffolds_under_basename (options : Cli.CliOptions) (w : World) :
  (forall a,
     Cli.pathArg options = Some a ->
     Cli.selectTarget env options w
     = (Ok (Cli.Continue (resolve (cwd env) [cwd env; a],
                          basename (resolve (cwd env) [cwd env; a]))), w))
  /\ (forall a,
        Cli.pathArg options = None ->
        Cli.projectNameArg options = Some a ->
        Cli.selectTarget env options w
        = (Ok (Cli.Continue (resolve (cwd env) [cwd env; a],
                             basename (resolve (cwd env) [cwd env; a]))), w))
  /\ (forall argv a,
        Cli.parseArgs argv = Ok options ->
        Cli.help options = false ->
        Cli.version options = false ->
        Cli.pathArg options = Some a
        \/ (Cli.pathArg options = None /\ Cli.projectNameArg options = Some a) ->
        let t := resolve (cwd env) [cwd env; a] in
        let n := basename t in
        Cli.run toLowerCase env argv w
        = Cli.scaffoldInto toLowerCase env options t n
            (mkWorld (fs w) (EvUi (units "new") :: events w))
        /\ (forall empty,
              Cli.isBlank n = false ->
              isDirectoryEmpty env t w = (Ok empty, w) ->
              negb empty && negb (Cli.force options) = false ->
              Cli.run toLowerCase env argv w
              = match scaffoldProject toLowerCase env
                        (mkScaffoldOptions (Some (Cli.force options))
                           (Some (Cli.install options)) n None None t)
                        (mkWorld (fs w)
                           (EvUi (units "Scaffolding Bun project")
                            :: EvUi (units "new") :: events w)) with
                | (Ok res, w1) =>
                    (Ok Cli.Returned,
                     mkWorld (fs w1)
                       (EvUi (units "Next step: bun run src/index.ts")
                        :: EvUi (if installedDependencies res
                                 then units "Installed dependencies with bun install"
                                 else units "Skipped dependency install (--no-install)")
                        :: EvUi (units "Created Bun project in "
                                 ++ resultTargetDir res)
                        :: EvUi (units "Scaffold complete") :: events w1))
                | (Err e, w1) => (Err e, w1)
                end)
        /\ (forall w' new,
              Cli.run toLowerCase env argv w = (Ok Cli.Returned, w') ->
              events w' = (new ++ events w)%list ->
              In (EvMkdir t) new
              /\ (exists s, In (EvCp s t) new)
              /\ In (EvUi (units "Created Bun project in " ++ t)) new
              /\ exists f' w0 res w1,
                   scaffoldProject toLowerCase env
                     (mkScaffoldOptions (Some f')
                        (Some (Cli.install options)) n None None t) w0
                   = (Ok res, w1)
                   /\ fs w0 = fs w
                   /\ (f' = Cli.force options \/ f' = true)
                   /\ resultProjectName res = trim n
                   /\ resultTargetDir res = t))
  /\ (forall d n : jsstring,
        plainName n = true ->
        basename (resolve (cwd env) [cwd env; (d ++ SLASH :: n)%list]) = n
        /\ segments (resolve (cwd env) [cwd env; (d ++ SLASH :: n)%list])
           = (segments (resolve (cwd env) [cwd env; (d ++ [SLASH])%list])
              ++ [n])%list
        /\ (d ++ SLASH :: n)%list <> n).
Proof.
  split; [|split; [|split]].
  - intros a Ha. apply selectTarget_argument. now left.
  - intros a Hp Ha. apply selectTarget_argument. now right.
  - intros argv a Hparse Hh Hv Ha t n. split; [|split].
    + unfold Cli.run. rewrite Hparse, Hh, Hv, bind_emit.
      now rewrite (@bind_ok _ _ _ _ _ _ _ (@selectTarget_argument options a _ Ha)).
    + intros empty Hblank Hempty Hgo.
      now apply (@run_scaffold_call argv options a w empty).
    + intros w' new H Enew.
      exact (@run_returned argv options a w w' new Hparse Hh Hv Ha H Enew).
  - intros d n Hn.
    destruct (resolve_last_component (cwd env) d n Hn) as (dir & Hc & -> & ->).
    assert (Hc' : Forall cleanSegment (dir ++ [n])).
    { apply Forall_app. split; [exact Hc|]. constructor; [|constructor].
      split; [|now apply plainName_slashFree].
      intros ->. discriminate. }
    unfold basename. rewrite !segments_root_join by assumption.
    split; [apply last_last|]. split; [reflexivity|].
    intros E. apply (f_equal (@List.length N)) in E.
    rewrite length_app in E. simpl in E. lia.
Qed.

End TargetProperties.

Lemma run_scaffolds_under_basename_witness :
  exists w',
    Cli.run asciiToLowerCase Demo.env [units "foo/bar"] Demo.world
    = (Ok Cli.Returned, w')
    /\ In (EvMkdir (units "/work/foo/bar")) (events w')
    /\ In (EvUi (units "Created Bun project in /work/foo/bar")) (events w')
    /\ (exists f' w0 res w1,
          scaffoldProject asciiToLowerCase Demo.env
            (mkScaffoldOptions (Some f') (Some true) (units "bar") None None
               (units "/work/foo/bar")) w0
          = (Ok res, w1)
          /\ resultProjectName res = units "bar")
    /\ basename (resolve (units "/work") [units "/work"; units "foo/bar"])
       = units "bar".
Proof.
  eassert (H : Cli.run asciiToLowerCase Demo.env [units "foo/bar"] Demo.world
               = (Ok Cli.Returned, _)) by (vm_compute; reflexivity).
  eexists. split; [exact H|].
  pose proof (@run_scaffolds_under_basename asciiToLowerCase Demo.env
                (Cli.mkCliOptions false false true None
                   (Some (units "foo/bar")) false) Demo.world)
    as (_ & _ & Hrun & Hpath).
  destruct (Hrun [units "foo/bar"] (units "foo/bar") eq_refl eq_refl eq_refl
              (or_intror (conj eq_refl eq_refl))) as (_ & _ & Hret).
  destruct (Hret _ _ H (eq_sym (app_nil_r _)))
    as (Hm & _ & Hui & f' & w0 & res & w1 & Hsc & _ & _ & Hn & _).
  split; [exact Hm|]. split; [exact Hui|]. split.
  - exists f', w0, res, w1. split; [exact Hsc|exact Hn].
  - exact (proj1 (Hpath (units "foo") (units "bar") eq_refl)).
Defined.
